(** * industrial_moveit: distance queries of the collision detectors

    A shallow embedding of

    - [industrial_collision_detection/src/collision_detection/collision_common.cpp]
      ([getDistanceInfo], [DistanceRequest::enableGroup],
      [distanceDetailedCallback]) and
    - [moveit_experimental/distance_field/src/collision_robot_openvdb.cpp]
      (the link classification of the constructor, the sphere fitting,
      [distanceSelf] and [distanceSelfHelper]),

    followed by the properties of the specification that were checked
    against it.

    Conventions.  A [const LinkModel*] is modelled by the link's name (names
    are unique inside one robot model).  A [std::vector] is a [list] whose
    [push_back] appends at the end.  A [std::map<std::string, T>] is a
    [gmap string T].  The [double]s of [collision_common.cpp] are only ever
    compared, so they are rationals; the [float]s of the distance-field code
    are normalised as well, which needs square roots, so they are real
    numbers (no rounding is modelled in either case).  External collaborators
    (FCL, the OpenVDB grids, the kinematic model) appear as records of
    functions and as function arguments; the few library functions whose
    definition matters (the two [normalize]s, the central-difference
    gradient) are written out. *)

From Stdlib Require Import QArith Reals Lra Lia.
From stdpp Require Import base list strings gmap sorting.

(** ** Outcomes of C++ code that can leave defined behaviour *)

Inductive fault :=
  | erase_at_end                 (* vector::erase(end()) *)
  | null_group_dereference       (* group->... with group == NULL *)
  | begin_of_empty_map.          (* map.begin()->second on an empty map *)

(** [Ok]: the code returns; [Undefined]: it runs into undefined behaviour;
    [Fatal]: it aborts with a diagnostic. *)
Inductive outcome (A : Type) :=
  | Ok (a : A)
  | Undefined (f : fault)
  | Fatal (diagnostic : string).
Arguments Ok {A} a.
Arguments Undefined {A} f.
Arguments Fatal {A} diagnostic.

Definition obind {A B} (m : outcome A) (k : A → outcome B) : outcome B :=
  match m with
  | Ok a => k a
  | Undefined f => Undefined f
  | Fatal s => Fatal s
  end.

Notation "x <~ m ;; k" := (obind m (λ x, k))
  (at level 100, m at next level, right associativity).

(** ** The kinematic model collaborator *)

Abbreviation LinkModel := string.

Record JointModelGroup := {
  group_getName : string;
  (* getLinkModels() *)
  group_getLinkModels : list LinkModel;
  (* getUpdatedLinkModelsWithGeometrySet() *)
  getUpdatedLinkModelsWithGeometrySet : list LinkModel;
  (* getUpdatedLinkModelsWithGeometryNames() *)
  getUpdatedLinkModelsWithGeometryNames : list string;
}.

Record RobotModel := {
  getRootLink : LinkModel;
  (* every link of the model *)
  getLinkModels : list LinkModel;
  getLinkModelsWithCollisionGeometry : list LinkModel;
  (* the keys of link->getAssociatedFixedTransforms(), in iteration order *)
  getAssociatedFixedTransforms : LinkModel → list LinkModel;
  getJointModelGroups : list JointModelGroup;
  (* getSRDF()->getDisabledCollisionPairs(), as (link1_, link2_) *)
  getDisabledCollisionPairs : list (string * string);
}.

(** [RobotModel::getJointModelGroup]: the group of that name, [None] for the
    null pointer returned when there is none. *)
Definition getJointModelGroup (M : RobotModel) (name : string)
  : option JointModelGroup :=
  find (λ g, bool_decide (group_getName g = name)) (getJointModelGroups M).

Definition hasJointModelGroup (M : RobotModel) (name : string) : bool :=
  bool_decide (is_Some (getJointModelGroup M name)).

(** What the kinematic model guarantees: the collision-bearing links are
    listed once each, and the fixed-transform maps only mention links of
    the model. *)
Record RobotModel_wf (M : RobotModel) : Prop := {
  wf_root : getRootLink M ∈ getLinkModels M;
  wf_collision_nodup : NoDup (getLinkModelsWithCollisionGeometry M);
  wf_fixed_closed :
    ∀ l x, x ∈ getAssociatedFixedTransforms M l → x ∈ getLinkModels M;
}.

(** ** Body role classifier ([collision_robot_openvdb.cpp]) *)

Module Classifier.
Section WithModel.
Variable M : RobotModel.

(* links_ (model->getLinkModelsWithCollisionGeometry()) *)
Definition links_ : list LinkModel := getLinkModelsWithCollisionGeometry M.

Definition hasCollisionGeometry (link : LinkModel) : bool :=
  bool_decide (link ∈ links_).

(** The state the recursive walk threads: the member [static_links_] and
    the by-reference argument [links_so_far]. *)
Record walk := { static_links_ : list LinkModel; links_so_far : list LinkModel }.

(** The loop body of [addAssociatedFixedTransforms] over the entries of
    [fixed_attached]; [recurse] is the recursive call. *)
Definition fixed_attached_loop (recurse : LinkModel → walk → option walk)
  : list LinkModel → walk → option walk :=
  fix loop (fixed_attached : list LinkModel) (w : walk) : option walk :=
    match fixed_attached with
    | [] => Some w
    | it :: rest =>
      (* only add child links *)
      if bool_decide (it ∈ links_so_far w) then loop rest w
      else
        let so_far := links_so_far w ++ [it] in
        let w1 :=
          (* Check to make sure link has collision geometry to add *)
          if bool_decide (it ∈ links_)
          then {| static_links_ := static_links_ w ++ [it]; links_so_far := so_far |}
          else {| static_links_ := static_links_ w; links_so_far := so_far |} in
        match recurse it w1 with
        | None => None
        | Some w2 => loop rest w2
        end
    end.

(** [addAssociatedFixedTransforms].  [fuel] bounds the recursion depth; a
    walk that runs out of it yields [None]. *)
Fixpoint addAssociatedFixedTransforms (fuel : nat) (link : LinkModel) (w : walk)
  : option walk :=
  match fuel with
  | O => None
  | S fuel' =>
    fixed_attached_loop (addAssociatedFixedTransforms fuel')
                        (getAssociatedFixedTransforms M link) w
  end.

(** Depth that always suffices: one level per link of the model. *)
Definition walk_fuel : nat := S (length (getLinkModels M)).

(** [createStaticSDFs]: the resulting [static_links_]. *)
Definition createStaticSDFs : option (list LinkModel) :=
  let root_link := getRootLink M in
  let static0 := if bool_decide (getRootLink M ∈ links_) then [root_link] else [] in
  let models := [] in
  w ← addAssociatedFixedTransforms walk_fuel root_link
        {| static_links_ := static0; links_so_far := models |};
  Some (static_links_ w).

(** The loop body of [identifyStaticLinksHelper]; [in_set] and [considered]
    are the two by-reference vectors. *)
Definition associated_links_loop
    (recurse : LinkModel → list LinkModel → list LinkModel
               → option (list LinkModel * list LinkModel))
  : list LinkModel → list LinkModel → list LinkModel
    → option (list LinkModel * list LinkModel) :=
  fix loop (fixed_attached in_set considered : list LinkModel) :=
    match fixed_attached with
    | [] => Some (in_set, considered)
    | it :: rest =>
      let is_in_set := bool_decide (it ∈ considered) in
      if negb is_in_set then
        let considered := considered ++ [it] in
        let in_set := if hasCollisionGeometry it then in_set ++ [it] else in_set in
        match recurse it in_set considered with
        | None => None
        | Some (in_set, considered) => loop rest in_set considered
        end
      else loop rest in_set considered
    end.

(** [identifyStaticLinksHelper]. *)
Fixpoint identifyStaticLinksHelper (fuel : nat) (link : LinkModel)
    (in_set considered : list LinkModel) : option (list LinkModel * list LinkModel) :=
  match fuel with
  | O => None
  | S fuel' =>
    associated_links_loop (identifyStaticLinksHelper fuel')
                          (getAssociatedFixedTransforms M link) in_set considered
  end.

(** [identifyStaticLinks]. *)
Definition identifyStaticLinks : option (list LinkModel) :=
  let root_link := getRootLink M in
  let considered_set := [root_link] in
  let static_links := if hasCollisionGeometry root_link then [root_link] else [] in
  r ← identifyStaticLinksHelper walk_fuel root_link static_links considered_set;
  Some r.1.

(** First loop of [createActiveSDFs] (and [identifyActiveLinks]): the
    members of the planning groups that carry collision geometry, in order
    of first discovery. *)
Definition collect_group_links (active_links_ : list LinkModel) (links : list LinkModel)
  : list LinkModel :=
  foldl (λ active_links_ link,
           if bool_decide (link ∉ active_links_) && bool_decide (link ∈ links_)
           then active_links_ ++ [link] else active_links_)
        active_links_ links.

Definition collect_active_links : list LinkModel :=
  foldl (λ active_links_ g, collect_group_links active_links_ (group_getLinkModels g))
        [] (getJointModelGroups M).

(** [std::remove(v.begin(), v.end(), x)]: the kept elements are moved to
    the front, what lies behind them is left as it was; the result is the
    vector and the position of the returned iterator. *)
Definition std_remove (x : LinkModel) (v : list LinkModel) : list LinkModel * nat :=
  let kept := filter (λ y, y ≠ x) v in
  (kept ++ drop (length kept) v, length kept).

(** [v.erase(pos)] with one iterator: removes the element at [pos]; erasing
    [end()] is undefined. *)
Definition vector_erase (pos : nat) (v : list LinkModel) : outcome (list LinkModel) :=
  if bool_decide (pos < length v) then Ok (take pos v ++ drop (S pos) v)
  else Undefined erase_at_end.

(** [v.erase(std::remove(v.begin(), v.end(), x))]. *)
Definition erase_remove (x : LinkModel) (v : list LinkModel) : outcome (list LinkModel) :=
  let '(v', pos) := std_remove x v in vector_erase pos v'.

Fixpoint erase_each (xs : list LinkModel) (v : list LinkModel) : outcome (list LinkModel) :=
  match xs with
  | [] => Ok v
  | x :: xs' => v' <~ erase_remove x v ;; erase_each xs' v'
  end.

(** [createDynamicSDFs] (and [identifyDynamicLinks]): the resulting
    [dynamic_links_]. *)
Definition createDynamicSDFs (static_links_ active_links_ : list LinkModel)
  : outcome (list LinkModel) :=
  let dynamic_links_ := links_ in
  dynamic_links_ <~ erase_each static_links_ dynamic_links_ ;;
  erase_each active_links_ dynamic_links_.

End WithModel.
End Classifier.

(** ** The distance data shared by both detectors

    [num] is the scalar type: [Q] for [collision_common.cpp], [R] for the
    distance-field code. *)

Definition Vector3 (num : Type) : Type := (num * num * num)%type.

Record DistanceResultsData (num : Type) := {
  min_distance : num;
  nearest_points : Vector3 num * Vector3 num;
  link_name : string * string;
  hasGradient : bool;
  gradient : Vector3 num;
  hasNearestPoints : bool;
}.
Arguments min_distance {num} _.
Arguments nearest_points {num} _.
Arguments link_name {num} _.
Arguments hasGradient {num} _.
Arguments gradient {num} _.
Arguments hasNearestPoints {num} _.

Module AllowedCollision.
Inductive Type_ := NEVER | ALWAYS | CONDITIONAL.
End AllowedCollision.

#[global] Instance AllowedCollision_eq_dec : EqDecision AllowedCollision.Type_.
Proof. solve_decision. Defined.

(** [AllowedCollisionMatrix::getAllowedCollision(name1, name2, type)]:
    [Some type] when an entry is found. *)
Definition AllowedCollisionMatrix : Type :=
  string → string → option AllowedCollision.Type_.

Record DistanceRequest (num : Type) := {
  detailed : bool;
  global : bool;
  group_name : string;
  (* NULL or the set of active links *)
  active_components_only : option (list LinkModel);
  (* NULL or the matrix *)
  acm : option AllowedCollisionMatrix;
  distance_threshold : num;
  verbose : bool;
  req_gradient : bool;
}.
Arguments detailed {num} _.
Arguments global {num} _.
Arguments group_name {num} _.
Arguments active_components_only {num} _.
Arguments acm {num} _.
Arguments distance_threshold {num} _.
Arguments verbose {num} _.
Arguments req_gradient {num} _.

Record DistanceResult (num : Type) := {
  collision : bool;
  minimum_distance : DistanceResultsData num;
  distance : gmap string (DistanceResultsData num);
}.
Arguments collision {num} _.
Arguments minimum_distance {num} _.
Arguments distance {num} _.

(** [std::map::insert]: nothing happens when the key is already there. *)
Definition map_insert {T} (k : string) (v : T) (m : gmap string T) : gmap string T :=
  match m !! k with
  | Some _ => m
  | None => <[k := v]> m
  end.

(** Iteration over a [std::map<std::string, T>] goes by increasing key. *)
Definition key_le {T} (a b : string * T) : Prop := String.leb a.1 b.1 = true.

#[global] Instance key_le_dec {T} (a b : string * T) : Decision (key_le a b).
Proof. unfold key_le. apply _. Defined.

Definition map_items {T} (m : gmap string T) : list (string * T) :=
  merge_sort key_le (map_to_list m).

(** ** The distance-field robot ([collision_robot_openvdb.cpp]) *)

Module DistanceField.
Local Open Scope R_scope.

Definition Vec3 : Type := Vector3 R.
(* openvdb::math::Coord *)
Definition Coord : Type := (Z * Z * Z)%type.
(* std::pair<openvdb::math::Vec3d, double>: centre and radius *)
Definition Sphere : Type := (Vec3 * R)%type.

Inductive LinkType := Static | Dynamic | Active.

Definition Rltb (a b : R) : bool := if Rlt_dec a b then true else false.
Definition Reqb (a b : R) : bool := if Req_dec_T a b then true else false.

Definition vzero : Vec3 := (0, 0, 0).
Definition vadd (a b : Vec3) : Vec3 :=
  let '(ax, ay, az) := a in let '(bx, by_, bz) := b in (ax + bx, ay + by_, az + bz).
Definition vscale (k : R) (a : Vec3) : Vec3 :=
  let '(ax, ay, az) := a in (ax * k, ay * k, az * k).
Definition vdiv (a : Vec3) (k : R) : Vec3 :=
  let '(ax, ay, az) := a in (ax / k, ay / k, az / k).
(* Vec3::sum() *)
Definition vsum (a : Vec3) : R := let '(ax, ay, az) := a in ax + ay + az.
Definition squaredNorm (a : Vec3) : R :=
  let '(ax, ay, az) := a in ax * ax + ay * ay + az * az.
Definition vlength (a : Vec3) : R := sqrt (squaredNorm a).

(** [openvdb::math::Vec3::normalize(eps = 1.0e-7)]: the vector is left alone
    when its length is within [eps] of zero, else scaled by [1 / length]. *)
Definition openvdb_normalize (v : Vec3) : Vec3 :=
  let d := vlength v in
  if Rle_dec (Rabs (d - 0)) (1 / 10000000) then v else vscale (1 / d) v.

(** [Eigen::MatrixBase::normalize()] (Eigen 3.3):
    [z = squaredNorm(); if (z > 0) derived() /= sqrt(z);]. *)
Definition Eigen_normalize (v : Vec3) : Vec3 :=
  let z := squaredNorm v in
  if Rlt_dec 0 z then vdiv v (sqrt z) else v.

(** [approxEqual(a, b, eps = 0.00001)]. *)
Definition approxEqual (a b : R) : bool := Rltb (Rabs (a - b)) (1 / 100000).

(** An [OpenVDBDistanceField] after [addLinkToField(link, ...)]: the grid is
    determined by the link and the voxel size it was built with. *)
Record OpenVDBDistanceField := {
  field_link : LinkModel;
  field_voxel_size : R;
  field_background : R;
}.

(** *** Sphere fitting: the second loop of [createActiveSDFs] *)

Section SphereFitting.
Variable voxel_size_ background_ : R.
(* sdf->fillWithSpheres(spheres, 20, true, 1.0f, max, 0.0f, 100000): the
   vector it is handed and the vector it leaves *)
Variable fillWithSpheres : OpenVDBDistanceField → list Sphere → list Sphere.

(** The [for (j = 0; j < 10; ++j)] loop with [remaining] iterations to go;
    [attempts] counts the fits made so far. *)
Fixpoint sphere_fit_loop (link : LinkModel) (remaining : nat) (v : R)
    (sdf : option OpenVDBDistanceField) (spheres : list Sphere) (attempts : nat)
  : option OpenVDBDistanceField * list Sphere * nat :=
  match remaining with
  | O => (sdf, spheres, attempts)
  | S remaining' =>
    let sdf := {| field_link := link; field_voxel_size := v;
                  field_background := background_ |} in
    let spheres := fillWithSpheres sdf spheres in
    (* openvdb appears to ALWAYS insert one sphere, so we want more *)
    if bool_decide (1 < length spheres)%nat then (Some sdf, spheres, S attempts)
    else
      (* try again with voxels of half the size *)
      sphere_fit_loop link remaining' (v * (1 / 2)) (Some sdf) spheres (S attempts)
  end.

Record ActiveSDF := {
  fit_sdf : option OpenVDBDistanceField;
  fit_spheres : list Sphere;
  fit_attempts : nat;
  (* the ROS_ERROR lines of this link *)
  fit_errors : list string;
}.

(** One iteration of the loop over [active_links_]. *)
Definition fit_active_link (link : LinkModel) : ActiveSDF :=
  let '(sdf, spheres, attempts) := sphere_fit_loop link 10 voxel_size_ None [] 0%nat in
  {| fit_sdf := sdf; fit_spheres := spheres; fit_attempts := attempts;
     fit_errors :=
       if bool_decide (length spheres = 0%nat)
       then ["Unable to generate spheres for link: " +:+ link] else [] |}.

(** [createActiveSDFs]: the active links and what was fitted for each. *)
Definition createActiveSDFs (M : RobotModel) : list LinkModel * list ActiveSDF :=
  let active_links_ := Classifier.collect_active_links M in
  (active_links_, fit_active_link <$> active_links_).

End SphereFitting.

(** *** The query plan *)

Record Child := { child_name : string; child_index : nat; child_type : LinkType }.

(** [DistanceQueryData]; the three parallel vectors [child_name],
    [child_index], [child_type] are kept as one list of triples.  A freshly
    constructed entry is [empty] and has no children. *)
Record DistanceQueryData := {
  parent_name : string;
  children : list Child;
  spheres : list Sphere;
  query_gradient : bool;
  empty : bool;
}.

Definition isCollisionAllowed (l1 l2 : string) (acm : option AllowedCollisionMatrix)
  : bool :=
  match acm with
  | Some getAllowedCollision =>
    match getAllowedCollision l1 l2 with
    | Some type => bool_decide (type = AllowedCollision.ALWAYS)
    | None => false
    end
  | None => false
  end.

(** [createDefaultAllowedCollisionMatrix]: every pair of collision links is
    entered as [false], then the disabled pairs of the SRDF as [true];
    [setEntry] writes both orders. *)
Definition createDefaultAllowedCollisionMatrix (M : RobotModel) : AllowedCollisionMatrix :=
  λ a b,
    let collision_links := getLinkModelsWithCollisionGeometry M in
    let dc := getDisabledCollisionPairs M in
    if bool_decide ((a, b) ∈ dc ∨ (b, a) ∈ dc) then Some AllowedCollision.ALWAYS
    else if bool_decide (a ∈ collision_links ∧ b ∈ collision_links)
         then Some AllowedCollision.NEVER else None.

Definition plan_children (type : LinkType) (skip : nat → bool) (parent : string)
    (acm : AllowedCollisionMatrix) (links : list LinkModel) : list Child :=
  omap (λ c, c) (imap (λ i link,
                   if negb (skip i) && negb (isCollisionAllowed link parent (Some acm))
                   then Some {| child_name := link; child_index := i; child_type := type |}
                   else None) links).

(** [createDefaultDistanceQuery]. *)
Definition createDefaultDistanceQuery (static_links_ active_links_ dynamic_links_ : list LinkModel)
    (active_spheres_ : list (list Sphere)) (acm_ : AllowedCollisionMatrix)
  : list DistanceQueryData :=
  imap (λ j parent,
          if bool_decide (length (active_spheres_ !!! j) = 0%nat)
          then {| parent_name := parent; children := []; spheres := [];
                  query_gradient := false; empty := true |}
          else
            {| parent_name := parent;
               children :=
                 (* add active links *)
                 plan_children Active (λ i, bool_decide (i = j)) parent acm_ active_links_
                 (* add dynamic links *)
                 ++ plan_children Dynamic (λ _, false) parent acm_ dynamic_links_
                 (* add static links *)
                 ++ plan_children Static (λ _, false) parent acm_ static_links_;
               spheres := []; query_gradient := false; empty := false |})
       active_links_.

(** *** The constructed robot *)

Record CollisionRobotOpenVDB := {
  robot_model_ : RobotModel;
  voxel_size_ : R;
  background_ : R;
  links_ : list LinkModel;
  static_links_ : list LinkModel;
  active_links_ : list LinkModel;
  dynamic_links_ : list LinkModel;
  active_sdf_ : list (option OpenVDBDistanceField);
  active_spheres_ : list (list Sphere);
  acm_ : AllowedCollisionMatrix;
  dist_query_ : list DistanceQueryData;
  (* what ROS_ERROR printed during construction *)
  ros_errors : list string;
}.

(** The first constructor.  The outer [option] is [None] only when the walk
    over the fixed transforms runs out of fuel. *)
Definition CollisionRobotOpenVDB_new (model : RobotModel) (voxel_size background : R)
    (fillWithSpheres : OpenVDBDistanceField → list Sphere → list Sphere)
  : option (outcome CollisionRobotOpenVDB) :=
  let acm := createDefaultAllowedCollisionMatrix model in
  static ← Classifier.createStaticSDFs model;
  let '(active, fitted) := createActiveSDFs voxel_size background fillWithSpheres model in
  Some (dynamic <~ Classifier.createDynamicSDFs model static active ;;
        Ok {| robot_model_ := model; voxel_size_ := voxel_size;
              background_ := background;
              links_ := getLinkModelsWithCollisionGeometry model;
              static_links_ := static; active_links_ := active;
              dynamic_links_ := dynamic;
              active_sdf_ := fit_sdf <$> fitted;
              active_spheres_ := fit_spheres <$> fitted;
              acm_ := acm;
              dist_query_ :=
                createDefaultDistanceQuery static active dynamic (fit_spheres <$> fitted) acm;
              ros_errors := fitted ≫= fit_errors |}).

(** *** [distanceSelfHelper] *)

(** [SDFData]: a grid accessor and its transform, as far as the helper uses
    them. *)
Record SDFData := {
  (* transform->worldToIndexNodeCentered(p) *)
  worldToIndexNodeCentered : Vec3 → Coord;
  (* accessor.getValue(ijk) *)
  getValue : Coord → R;
  (* transform->baseMap()->applyIJT(v) *)
  applyIJT : Vec3 → Vec3;
}.

(** [openvdb::math::ISGradient<CD_2ND>::result(accessor, ijk)]: second-order
    central differences of the grid values in index space,
    [(f(i+1) - f(i-1)) * 0.5] along each axis. *)
Definition ISGradient (child_data : SDFData) (ijk : Coord) : Vec3 :=
  let '(i, j, k) := ijk in
  let f := getValue child_data in
  ((f ((i + 1)%Z, j, k) - f ((i - 1)%Z, j, k)) * (1 / 2),
   (f (i, (j + 1)%Z, k) - f (i, (j - 1)%Z, k)) * (1 / 2),
   (f (i, j, (k + 1)%Z) - f (i, j, (k - 1)%Z)) * (1 / 2)).

(** The locals of the loop over the spheres of the parent. *)
Record SphereScan := { child_min : R; child_min_ijk : Coord; dist_found : bool }.

Definition sphere_step (background_ : R) (child_data : SDFData)
    (s : SphereScan) (sphere : Sphere) : SphereScan :=
  let ijk := worldToIndexNodeCentered child_data sphere.1 in
  let child_dist := getValue child_data ijk in
  if negb (approxEqual child_dist background_) then
    let child_dist := child_dist - sphere.2 in
    if Rltb child_dist (child_min s)
    then {| child_min := child_dist; child_min_ijk := ijk; dist_found := true |}
    else s
  else s.

(** The variables the loop over the children updates: [res] and the two
    gradient accumulators. *)
Record HelperVars := {
  res : DistanceResultsData R;
  gradient_sum : Vec3;
  total_weights : R;
}.

Definition child_step (background_ : R) (data : DistanceQueryData)
    (sdfs_data : LinkType → nat → SDFData) (h : HelperVars) (c : Child) : HelperVars :=
  let child_data := sdfs_data (child_type c) (child_index c) in
  let scan := foldl (sphere_step background_ child_data)
                    {| child_min := background_; child_min_ijk := (0, 0, 0)%Z;
                       dist_found := false |}
                    (spheres data) in
  if dist_found scan then
    (* update link minimum distance *)
    let res1 :=
      if Rltb (child_min scan) (min_distance (res h))
      then {| min_distance := child_min scan;
              nearest_points := nearest_points (res h);
              link_name := ((link_name (res h)).1, child_name c);
              hasGradient := hasGradient (res h);
              gradient := gradient (res h);
              hasNearestPoints := hasNearestPoints (res h) |}
      else res h in
    (* compute gradient *)
    if query_gradient data then
      let result := ISGradient child_data (child_min_ijk scan) in
      if negb (Reqb (vsum result) 0) then
        let weight := background_ - child_min scan in
        let result := applyIJT child_data result in
        let result := openvdb_normalize result in
        let result := vscale weight result in
        {| res := {| min_distance := min_distance res1;
                     nearest_points := nearest_points res1;
                     link_name := link_name res1;
                     hasGradient := true;
                     gradient := gradient res1;
                     hasNearestPoints := hasNearestPoints res1 |};
           gradient_sum := vadd (gradient_sum h) result;
           total_weights := total_weights h + weight |}
      else {| res := res1; gradient_sum := gradient_sum h;
              total_weights := total_weights h |}
    else {| res := res1; gradient_sum := gradient_sum h;
            total_weights := total_weights h |}
  else h.

(** [distanceSelfHelper] up to the end of the loop over the children. *)
Definition distanceSelfHelper_loop (background_ : R) (data : DistanceQueryData)
    (sdfs_data : LinkType → nat → SDFData) (res0 : DistanceResultsData R) : HelperVars :=
  foldl (child_step background_ data sdfs_data)
        {| res := {| min_distance := background_;
                     nearest_points := nearest_points res0;
                     link_name := (parent_name data, (link_name res0).2);
                     hasGradient := hasGradient res0;
                     gradient := gradient res0;
                     hasNearestPoints := false |};
           gradient_sum := vzero; total_weights := 0 |}
        (children data).

Definition set_gradient (r : DistanceResultsData R) (g : Vec3) : DistanceResultsData R :=
  {| min_distance := min_distance r; nearest_points := nearest_points r;
     link_name := link_name r; hasGradient := hasGradient r;
     gradient := g; hasNearestPoints := hasNearestPoints r |}.

(** [distanceSelfHelper]: [res0] is [res] on entry, the result is [res] on
    return. *)
Definition distanceSelfHelper (background_ : R) (data : DistanceQueryData)
    (sdfs_data : LinkType → nat → SDFData) (res0 : DistanceResultsData R)
  : DistanceResultsData R :=
  let h := distanceSelfHelper_loop background_ data sdfs_data res0 in
  if hasGradient (res h) then
    if Reqb (total_weights h) 0 then set_gradient (res h) (0, 0, 0)
    else set_gradient (res h) (Eigen_normalize (vdiv (gradient_sum h) (total_weights h)))
  else res h.

(** *** [distanceSelf] *)

(** [state.getGlobalLinkTransform(link)] as the map it applies to a point. *)
Record RobotState := { getGlobalLinkTransform : LinkModel → Vec3 → Vec3 }.

(** [distanceSelf].  [data] is the table of [SDFData] the three loops over
    the links fill in from the grids and the state; [fresh] is a
    default-constructed [DistanceResultsData]. *)
Definition distanceSelf (robot : CollisionRobotOpenVDB) (fresh : DistanceResultsData R)
    (data : LinkType → nat → SDFData)
    (req : DistanceRequest R) (res : DistanceResult R) (state : RobotState)
  : outcome (DistanceResult R) :=
  let dist_query := dist_query_ robot in
  (* collecting group links *)
  match getJointModelGroup (robot_model_ robot) (group_name req) with
  | None => Undefined null_group_dereference
  | Some group =>
    let group_links := getUpdatedLinkModelsWithGeometryNames group in
    let dist_query :=
      imap (λ i q,
              match active_links_ robot !! i with
              | Some link =>
                let tf := getGlobalLinkTransform state link in
                (* transform sphere origins into world coordinate system *)
                {| parent_name := parent_name q; children := children q;
                   spheres := (λ p : Sphere, (tf p.1, p.2)) <$> (active_spheres_ robot !!! i);
                   query_gradient := req_gradient req; empty := empty q |}
              | None => q
              end) dist_query in
    (* Compute minimum distance *)
    let distance1 :=
      foldl (λ distance q,
               if negb (empty q) then
                 let d := distanceSelfHelper (background_ robot) q data fresh in
                 map_insert (link_name d).1 d distance
               else distance)
            (distance res) dist_query in
    match map_items distance1 with
    | [] => Undefined begin_of_empty_map
    | first :: _ =>
      let d := background_ robot in
      let index := (link_name first.2).1 in
      let '(index, d) :=
        foldl (λ '(index, d) it,
                 if Rltb (min_distance it.2) d
                 then ((link_name it.2).1, min_distance it.2) else (index, d))
              (index, d) (map_items distance1) in
      (* res.minimum_distance = res.distance[index] *)
      match distance1 !! index with
      | Some entry =>
        Ok {| collision := collision res; minimum_distance := entry;
              distance := distance1 |}
      | None =>
        Ok {| collision := collision res; minimum_distance := fresh;
              distance := <[index := fresh]> distance1 |}
      end
    end
  end.

End DistanceField.

(** ** The narrow-phase callback and the derived view ([collision_common.cpp]) *)

Module CollisionCommon.
Local Open Scope Q_scope.

Definition Vector3d : Type := Vector3 Q.

Definition Qltb (a b : Q) : bool := negb (Qle_bool b a).

(* std::max(a, b) = (a < b) ? b : a *)
Definition std_max (a b : Q) : Q := if Qltb a b then b else a.

Definition vsub (a b : Vector3d) : Vector3d :=
  let '(ax, ay, az) := a in let '(bx, by_, bz) := b in (ax - bx, ay - by_, az - bz).

(** *** [getDistanceInfo] *)

Record DistanceInfo := {
  nearest_obsticle : string;
  link_point : Vector3d;
  obsticle_point : Vector3d;
  avoidance_vector : Vector3d;
  info_distance : Q;
}.

Record InfoVars := {
  distance_info_map : gmap string DistanceInfo;
  status : bool;
  (* what ROS_ERROR printed *)
  ros_errors : list string;
}.

Section GetDistanceInfo.
(* Eigen's normalize() *)
Variable normalize : Vector3d → Vector3d.
(* the declaration [DistanceInfo dist_info;] before any field is assigned *)
Variable dist_info0 : DistanceInfo.
(* tf * point *)
Variable tf : Vector3d → Vector3d.

(** One iteration of the loop over [distance_detailed]; [it] is the entry
    the iterator points at. *)
Definition getDistanceInfo_step (s : InfoVars) (it : string * DistanceResultsData Q)
  : InfoVars :=
  let dist := it.2 in
  let insert dist_info status errors :=
    {| distance_info_map := map_insert it.1 dist_info (distance_info_map s);
       status := status; ros_errors := errors |} in
  if bool_decide ((link_name dist).1 = it.1) then
    let link_point := tf (nearest_points dist).1 in
    let obsticle_point := tf (nearest_points dist).2 in
    insert {| nearest_obsticle := (link_name dist).2;
              link_point := link_point;
              obsticle_point := obsticle_point;
              avoidance_vector := normalize (vsub link_point obsticle_point);
              info_distance := min_distance dist |}
           (status s) (ros_errors s)
  else if bool_decide ((link_name dist).2 = it.1) then
    let link_point := tf (nearest_points dist).2 in
    let obsticle_point := tf (nearest_points dist).1 in
    insert {| nearest_obsticle := (link_name dist).1;
              link_point := link_point;
              obsticle_point := obsticle_point;
              avoidance_vector := normalize (vsub link_point obsticle_point);
              info_distance := min_distance dist |}
           (status s) (ros_errors s)
  else
    insert dist_info0 (status s && false)
           (ros_errors s ++ ["getDistanceInfo was unable to find link after match!"]).

(** [getDistanceInfo(distance_detailed, distance_info_map, tf)]: the map it
    leaves, the boolean it returns and the errors it logged. *)
Definition getDistanceInfo (distance_detailed : gmap string (DistanceResultsData Q))
    (distance_info_map : gmap string DistanceInfo) : InfoVars :=
  foldl getDistanceInfo_step
        {| distance_info_map := distance_info_map; status := true; ros_errors := [] |}
        (map_items distance_detailed).

End GetDistanceInfo.

(** *** [DistanceRequest::enableGroup] *)

Definition set_active_components_only (req : DistanceRequest Q)
    (a : option (list LinkModel)) : DistanceRequest Q :=
  {| detailed := detailed req; global := global req; group_name := group_name req;
     active_components_only := a; acm := acm req;
     distance_threshold := distance_threshold req; verbose := verbose req;
     req_gradient := req_gradient req |}.

Definition enableGroup (req : DistanceRequest Q) (kmodel : RobotModel)
  : outcome (DistanceRequest Q) :=
  if hasJointModelGroup kmodel (group_name req) then
    match getJointModelGroup kmodel (group_name req) with
    | Some group =>
      Ok (set_active_components_only req (Some (getUpdatedLinkModelsWithGeometrySet group)))
    | None => Undefined null_group_dereference
    end
  else Ok (set_active_components_only req None).

(** *** [distanceDetailedCallback] *)

Record AttachedBody := {
  ab_id : string;
  getAttachedLink : LinkModel;
  getTouchLinks : list string;
}.

Module BodyTypes.
Inductive Type_ := ROBOT_LINK | ROBOT_ATTACHED | WORLD_OBJECT.
End BodyTypes.

(** [CollisionGeometryData]: the [type] tag together with the member of the
    [ptr] union that the tag selects. *)
Inductive CollisionGeometryData :=
  | RobotLink (link : LinkModel)
  | RobotAttached (ab : AttachedBody)
  | WorldObject (id_ : string).

Definition type (cd : CollisionGeometryData) : BodyTypes.Type_ :=
  match cd with
  | RobotLink _ => BodyTypes.ROBOT_LINK
  | RobotAttached _ => BodyTypes.ROBOT_ATTACHED
  | WorldObject _ => BodyTypes.WORLD_OBJECT
  end.

Definition getID (cd : CollisionGeometryData) : string :=
  match cd with
  | RobotLink link => link
  | RobotAttached ab => ab_id ab
  | WorldObject id_ => id_
  end.

(** [cd->ptr.obj->id_]: the callback reads the identifier through the [obj]
    member of the union whatever the tag is; it is taken to be the
    identifier of the body. *)
Definition ptr_obj_id_ (cd : CollisionGeometryData) : string := getID cd.

#[global] Instance AttachedBody_eq_dec : EqDecision AttachedBody.
Proof. solve_decision. Defined.
#[global] Instance CollisionGeometryData_eq_dec : EqDecision CollisionGeometryData.
Proof. solve_decision. Defined.

(** Modelled from the spec: [CollisionGeometryData::sameObject] is declared
    in a header that is not among the sources; "both shapes resolve to the
    same logical body" is the same tag and the same body. *)
Definition sameObject (cd1 cd2 : CollisionGeometryData) : bool :=
  bool_decide (cd1 = cd2).

(** An [fcl::CollisionObject]: its user data and the shape itself. *)
Record CollisionObject := {
  getUserData : CollisionGeometryData;
  collisionGeometry : nat;
}.

(** What [fcl::distance(o1, o2, request, fcl_result)] hands back: the value
    it returns and the fields of [fcl_result] it leaves. *)
Record FclResult := {
  fcl_returned : Q;
  fcl_min_distance : Q;
  fcl_nearest_points : Vector3d * Vector3d;
}.

(** [fcl::distance] applied to the two objects, the [detailed] flag of the
    request and the [min_distance] the result was primed with. *)
Definition FclDistance : Type :=
  CollisionObject → CollisionObject → bool → Q → FclResult.

Record DistanceData := {
  req : DistanceRequest Q;
  res : DistanceResult Q;
  done : bool;
}.

(** Modelled from the spec: [DistanceResultsData::update] is declared in
    the header [collision_common.h], which is not among the sources; "an
    update only replaces the stored entry when the new distance is strictly
    smaller". *)
Definition update (self results : DistanceResultsData Q) : DistanceResultsData Q :=
  if Qltb (min_distance results) (min_distance self) then results else self.

(** The link a body counts for in the active-components test ([l1], [l2]);
    [None] is the null pointer. *)
Definition owning_link (cd : CollisionGeometryData) : option LinkModel :=
  match cd with
  | RobotLink link => Some link
  | RobotAttached ab => Some (getAttachedLink ab)
  | WorldObject _ => None
  end.

(* !(!l || set->find(l) == set->end()) *)
Definition is_active (set : list LinkModel) (l : option LinkModel) : bool :=
  match l with
  | Some l => bool_decide (l ∈ set)
  | None => false
  end.

(** The active-components block: [None] when the callback returns there,
    else [(active1, active2)]. *)
Definition active_sides (req : DistanceRequest Q) (cd1 cd2 : CollisionGeometryData)
  : option (bool * bool) :=
  match active_components_only req with
  | Some set =>
    let l1 := owning_link cd1 in
    let l2 := owning_link cd2 in
    (* If neither of the involved components is active *)
    if negb (is_active set l1) && negb (is_active set l2) then None
    else Some (is_active set l1, is_active set l2)
  | None => Some (true, true)
  end.

(** The value of [always_allow_collision] after the collision matrix and
    the touch links have been consulted. *)
Definition always_allow_collision (req : DistanceRequest Q)
    (cd1 cd2 : CollisionGeometryData) : bool :=
  let by_matrix :=
    match acm req with
    | Some getAllowedCollision =>
      match getAllowedCollision (getID cd1) (getID cd2) with
      | Some type => bool_decide (type = AllowedCollision.ALWAYS)
      | None => false
      end
    | None => false
    end in
  (* check if a link is touching an attached object *)
  let by_touch_links :=
    match cd1, cd2 with
    | RobotLink _, RobotAttached ab => bool_decide (getID cd1 ∈ getTouchLinks ab)
    | RobotAttached ab, RobotLink _ => bool_decide (getID cd2 ∈ getTouchLinks ab)
    | _, _ => false
    end in
  by_matrix || by_touch_links.

(** The filters in front of the measurement: [Some (active1, active2)] when
    the pair is measured, [None] when the callback returns [false] before. *)
Definition reaches_measurement (req : DistanceRequest Q)
    (cd1 cd2 : CollisionGeometryData) : option (bool * bool) :=
  (* do not distance check geoms part of the same object / link / attached body *)
  if sameObject cd1 cd2 then None
  else
    match active_sides req cd1 cd2 with
    | None => None
    | Some active => if always_allow_collision req cd1 cd2 then None else Some active
    end.

(** The value of [dist_threshold] when [fcl::distance] is called. *)
Definition select_dist_threshold (req : DistanceRequest Q) (res : DistanceResult Q)
    (cd1 cd2 : CollisionGeometryData) (active1 active2 : bool) : Q :=
  let dist_threshold := distance_threshold req in
  if negb (global req) then
    let it1 := distance res !! ptr_obj_id_ cd1 in
    let it2 := distance res !! ptr_obj_id_ cd2 in
    match active_components_only req with
    | Some _ =>
      if active1 && active2 then
        match it1, it2 with
        | Some e1, Some e2 => std_max (min_distance e1) (min_distance e2)
        | _, _ => dist_threshold
        end
      else if active1 && negb active2 then
        match it1 with
        | Some e1 => min_distance e1
        | None => dist_threshold
        end
      else if negb active1 && active2 then
        match it2 with
        | Some e2 => min_distance e2
        | None => dist_threshold
        end
      else dist_threshold
    | None =>
      match it1, it2 with
      | Some e1, Some e2 => std_max (min_distance e1) (min_distance e2)
      | _, _ => dist_threshold
      end
    end
  else min_distance (minimum_distance res).

(** The per-link record of one side after a measurement below the bound:
    [it] is the iterator found before the measurement ([None] for [end()]). *)
Definition record_side (active : bool) (it : option (DistanceResultsData Q))
    (id : string) (dist_result : DistanceResultsData Q)
    (distance : gmap string (DistanceResultsData Q))
  : gmap string (DistanceResultsData Q) :=
  if active then
    match it with
    | None => map_insert id dist_result distance
    | Some _ => alter (λ second, update second dist_result) id distance
    end
  else distance.

Section Callback.
Variable fcl_distance : FclDistance.
(* a default-constructed DistanceResultsData *)
Variable fresh : DistanceResultsData Q.

(** [distanceDetailedCallback(o1, o2, data, min_dist)]: [cdata] afterwards
    and the boolean returned. *)
Definition distanceDetailedCallback (o1 o2 : CollisionObject) (cdata : DistanceData)
  : DistanceData * bool :=
  let cd1 := getUserData o1 in
  let cd2 := getUserData o2 in
  match reaches_measurement (req cdata) cd1 cd2 with
  | None => (cdata, false)
  | Some (active1, active2) =>
    let it1 := distance (res cdata) !! ptr_obj_id_ cd1 in
    let it2 := distance (res cdata) !! ptr_obj_id_ cd2 in
    let dist_threshold :=
      select_dist_threshold (req cdata) (res cdata) cd1 cd2 active1 active2 in
    let fcl_result := fcl_distance o1 o2 (detailed (req cdata)) dist_threshold in
    let d := fcl_returned fcl_result in
    if Qltb d dist_threshold then
      let dist_result :=
        {| min_distance := fcl_min_distance fcl_result;
           nearest_points := fcl_nearest_points fcl_result;
           link_name := (ptr_obj_id_ cd1, ptr_obj_id_ cd2);
           hasGradient := hasGradient fresh;
           gradient := gradient fresh;
           hasNearestPoints := hasNearestPoints fresh |} in
      let minimum_distance := update (minimum_distance (res cdata)) dist_result in
      if negb (global (req cdata)) then
        let collision :=
          if Qle_bool d 0 && negb (collision (res cdata)) then true
          else collision (res cdata) in
        let distance :=
          record_side active2 it2 (ptr_obj_id_ cd2) dist_result
            (record_side active1 it1 (ptr_obj_id_ cd1) dist_result
               (distance (res cdata))) in
        ({| req := req cdata;
            res := {| collision := collision; minimum_distance := minimum_distance;
                      distance := distance |};
            done := done cdata |},
         done cdata)
      else if Qle_bool d 0 then
        ({| req := req cdata;
            res := {| collision := true; minimum_distance := minimum_distance;
                      distance := distance (res cdata) |};
            done := true |},
         true)
      else
        ({| req := req cdata;
            res := {| collision := collision (res cdata);
                      minimum_distance := minimum_distance;
                      distance := distance (res cdata) |};
            done := done cdata |},
         done cdata)
    else (cdata, done cdata)
  end.

(** The broad phase hands its candidate pairs to the callback one by one
    and stops as soon as the callback returns [true]. *)
Fixpoint broadphase (pairs : list (CollisionObject * CollisionObject))
    (cdata : DistanceData) : DistanceData :=
  match pairs with
  | [] => cdata
  | (o1, o2) :: rest =>
    let '(cdata', stop) := distanceDetailedCallback o1 o2 cdata in
    if stop then cdata' else broadphase rest cdata'
  end.

End Callback.
End CollisionCommon.

(** * Properties *)

(** ** The walk over the fixed transforms terminates *)

Section WalkFacts.
Variable M : RobotModel.
Hypothesis M_wf : RobotModel_wf M.

Import Classifier.

(** What every call of the walk preserves. *)
Definition walk_inv (w : walk) : Prop :=
  NoDup (links_so_far w)
  ∧ links_so_far w ⊆ getLinkModels M
  ∧ static_links_ w ⊆ links_ M.

Lemma walk_inv_length w :
  walk_inv w → length (links_so_far w) ≤ length (getLinkModels M).
Proof.
  intros (Hnd & Hsub & _).
  apply submseteq_length, NoDup_submseteq; auto.
Qed.

Lemma fixed_attached_loop_total (recurse : LinkModel → walk → option walk) (n : nat) :
  (∀ link w, walk_inv w →
     length (getLinkModels M) < n + length (links_so_far w) →
     ∃ w', recurse link w = Some w' ∧ walk_inv w'
           ∧ length (links_so_far w) ≤ length (links_so_far w')) →
  ∀ fixed_attached w,
    fixed_attached ⊆ getLinkModels M →
    walk_inv w →
    length (getLinkModels M) < S n + length (links_so_far w) →
    ∃ w', fixed_attached_loop M recurse fixed_attached w = Some w' ∧ walk_inv w'
          ∧ length (links_so_far w) ≤ length (links_so_far w').
Proof.
  intros Hrec fixed_attached.
  induction fixed_attached as [|it rest IH]; intros w Hsub Hinv Hlen; simpl.
  - exists w. auto.
  - assert (Hit : it ∈ getLinkModels M) by (apply Hsub; left).
    assert (Hrest : rest ⊆ getLinkModels M)
      by (intros x Hx; apply Hsub; right; exact Hx).
    case_bool_decide as Hseen.
    + apply IH; auto.
    + destruct Hinv as (Hnd & Hs & Hst).
      set (w1 := if bool_decide (it ∈ links_ M) then _ else _).
      assert (Hso : links_so_far w1 = links_so_far w ++ [it])
        by (subst w1; case_bool_decide; reflexivity).
      assert (Hinv1 : walk_inv w1).
      { unfold walk_inv. rewrite Hso. repeat split.
        - apply NoDup_app. repeat split; auto.
          + intros x Hx Hx'. apply list_elem_of_singleton in Hx'. subst x. auto.
          + apply NoDup_singleton.
        - intros x Hx. apply elem_of_app in Hx as [Hx|Hx]; auto.
          apply list_elem_of_singleton in Hx. subst x. auto.
        - subst w1. case_bool_decide as Hgeo; simpl; auto.
          intros x Hx. apply elem_of_app in Hx as [Hx|Hx]; auto.
          apply list_elem_of_singleton in Hx. subst x. auto. }
      destruct (Hrec it w1 Hinv1) as (w2 & Hw2 & Hinv2 & Hlen2).
      { rewrite Hso, length_app. simpl. lia. }
      rewrite Hw2.
      destruct (IH w2 Hrest Hinv2) as (w3 & Hw3 & Hinv3 & Hlen3).
      { rewrite Hso, length_app in Hlen2. simpl in Hlen2. lia. }
      exists w3. repeat split; try apply Hinv3; auto.
      rewrite Hso, length_app in Hlen2. simpl in Hlen2. lia.
Qed.

Lemma addAssociatedFixedTransforms_total (fuel : nat) :
  ∀ link w, walk_inv w →
    length (getLinkModels M) < fuel + length (links_so_far w) →
    ∃ w', addAssociatedFixedTransforms M fuel link w = Some w' ∧ walk_inv w'
          ∧ length (links_so_far w) ≤ length (links_so_far w').
Proof.
  induction fuel as [|fuel IH]; intros link w Hinv Hlen.
  - pose proof (walk_inv_length w Hinv). simpl in Hlen. lia.
  - simpl. apply (fixed_attached_loop_total _ fuel); auto.
    intros x Hx. eapply wf_fixed_closed; eauto.
Qed.

(** [createStaticSDFs] returns, and only links with collision geometry
    enter [static_links_]. *)
Lemma createStaticSDFs_total :
  ∃ static, createStaticSDFs M = Some static ∧ static ⊆ links_ M.
Proof.
  unfold createStaticSDFs.
  set (w0 := {| static_links_ := _; links_so_far := [] |}).
  destruct (addAssociatedFixedTransforms_total (walk_fuel M) (getRootLink M) w0)
    as (w' & Hw' & (_ & _ & Hst) & _).
  - unfold walk_inv, w0. simpl. repeat split.
    + apply NoDup_nil_2.
    + intros x Hx. inversion Hx.
    + case_bool_decide; intros x Hx.
      * apply list_elem_of_singleton in Hx. subst x. auto.
      * inversion Hx.
  - unfold walk_fuel, w0. simpl. lia.
  - exists (static_links_ w'). rewrite Hw'. simpl. auto.
Qed.

End WalkFacts.

(** ** The three role sets *)

(** "Every collision-bearing link appears in exactly one of the three
    sequences and no link appears in two of them." *)
Definition role_partition (links static active dynamic : list LinkModel) : Prop :=
  (∀ l, l ∈ links ↔ l ∈ static ∨ l ∈ active ∨ l ∈ dynamic)
  ∧ NoDup static ∧ NoDup active ∧ NoDup dynamic
  ∧ (∀ l, l ∈ static → l ∉ active)
  ∧ (∀ l, l ∈ static → l ∉ dynamic)
  ∧ (∀ l, l ∈ active → l ∉ dynamic).

Section RoleFacts.
Variable M : RobotModel.
Import Classifier.

Lemma filter_absent (x : LinkModel) (v : list LinkModel) :
  x ∉ v → filter (λ y, y ≠ x) v = v.
Proof.
  induction v as [|a v IH]; intros Hx; [reflexivity|].
  apply not_elem_of_cons in Hx as [Hne Hx].
  rewrite filter_cons_True by congruence. f_equal. auto.
Qed.

Lemma filter_present (x : LinkModel) (v : list LinkModel) :
  NoDup v → x ∈ v →
  S (length (filter (λ y, y ≠ x) v)) = length v ∧ x :: filter (λ y, y ≠ x) v ≡ₚ v.
Proof.
  induction v as [|a v IH]; intros Hnd Hx; [inversion Hx|].
  apply NoDup_cons in Hnd as [Ha Hnd].
  destruct (decide (a = x)) as [->|Hne].
  - rewrite filter_cons_False by (intros H; apply H; reflexivity).
    rewrite filter_absent by assumption. split; reflexivity.
  - apply elem_of_cons in Hx as [->|Hx]; [congruence|].
    rewrite filter_cons_True by assumption.
    destruct (IH Hnd Hx) as [Hlen Hperm]. split.
    + simpl. lia.
    + rewrite Permutation_swap. constructor. exact Hperm.
Qed.

(** With the element there exactly once, [erase(remove(..))] removes it. *)
Lemma erase_remove_present (x : LinkModel) (v : list LinkModel) :
  NoDup v → x ∈ v → erase_remove x v = Ok (filter (λ y, y ≠ x) v).
Proof.
  intros Hnd Hx. destruct (filter_present x v Hnd Hx) as [Hlen _].
  unfold erase_remove, std_remove, vector_erase.
  set (kept := filter (λ y, y ≠ x) v) in *.
  assert (Htail : length (drop (length kept) v) = 1) by (rewrite length_drop; lia).
  rewrite bool_decide_eq_true_2 by (rewrite length_app; lia).
  rewrite take_app_length.
  replace (S (length kept)) with (length kept + 1) by lia.
  rewrite drop_app_add, drop_ge by lia.
  rewrite app_nil_r. reflexivity.
Qed.

(** With the element absent, the iterator is [end()] and the erase is
    undefined. *)
Lemma erase_remove_absent (x : LinkModel) (v : list LinkModel) :
  x ∉ v → erase_remove x v = Undefined erase_at_end.
Proof.
  intros Hx. unfold erase_remove, std_remove, vector_erase.
  rewrite filter_absent by assumption.
  rewrite drop_all, app_nil_r.
  rewrite bool_decide_eq_false_2 by lia. reflexivity.
Qed.

Lemma erase_each_present (xs : list LinkModel) :
  ∀ v, NoDup v → NoDup xs → xs ⊆ v →
       ∃ v', erase_each xs v = Ok v' ∧ xs ++ v' ≡ₚ v.
Proof.
  induction xs as [|x xs IH]; intros v Hv Hxs Hsub; simpl.
  - exists v. split; reflexivity.
  - apply NoDup_cons in Hxs as [Hx Hxs].
    assert (Hxv : x ∈ v) by (apply Hsub; left).
    rewrite erase_remove_present by assumption. simpl.
    destruct (filter_present x v Hv Hxv) as [_ Hperm].
    set (kept := filter (λ y, y ≠ x) v) in *.
    destruct (IH kept) as (v' & Hv' & Hperm'); auto.
    + rewrite <- Hperm in Hv. apply NoDup_cons in Hv. apply Hv.
    + intros y Hy. apply list_elem_of_filter. split.
      * intros ->. auto.
      * apply Hsub. right. exact Hy.
    + exists v'. split; [exact Hv'|].
      rewrite <- Hperm. constructor. exact Hperm'.
Qed.

(** The active links are collected without repetition, among the links
    with collision geometry. *)
Lemma collect_group_links_inv (links acc : list LinkModel) :
  NoDup acc → acc ⊆ links_ M →
  NoDup (collect_group_links M acc links) ∧ collect_group_links M acc links ⊆ links_ M.
Proof.
  revert acc. induction links as [|l links IH]; intros acc Hnd Hsub; simpl; [auto|].
  apply IH.
  - destruct (bool_decide (l ∉ acc)) eqn:Hnew; simpl; [|assumption].
    apply bool_decide_eq_true in Hnew.
    case_bool_decide; [|assumption].
    apply NoDup_app. repeat split; auto using NoDup_singleton.
    intros x Hx Hx'. apply list_elem_of_singleton in Hx'. subst x. auto.
  - destruct (bool_decide (l ∉ acc)); simpl; [|assumption].
    case_bool_decide; [|assumption].
    intros x Hx. apply elem_of_app in Hx as [Hx|Hx]; auto.
    apply list_elem_of_singleton in Hx. subst x. assumption.
Qed.

Lemma collect_active_links_inv :
  NoDup (collect_active_links M) ∧ collect_active_links M ⊆ links_ M.
Proof.
  unfold collect_active_links.
  assert (H : ∀ gs acc, NoDup acc → acc ⊆ links_ M →
    NoDup (foldl (λ a g, collect_group_links M a (group_getLinkModels g)) acc gs)
    ∧ foldl (λ a g, collect_group_links M a (group_getLinkModels g)) acc gs ⊆ links_ M).
  { induction gs as [|g gs IH]; intros acc Hnd Hsub; simpl; [auto|].
    destruct (collect_group_links_inv (group_getLinkModels g) acc Hnd Hsub).
    apply IH; assumption. }
  apply H; [apply NoDup_nil_2 | intros x Hx; inversion Hx].
Qed.

End RoleFacts.

(** Closed decidable goals are settled by evaluating their decision
    procedure. *)
Ltac by_compute :=
  match goal with
  | |- ?P => apply (@bool_decide_unpack P _); vm_compute; exact I
  end.

(** *** Example models *)

Module Examples.

(** A base bolted to the world and an arm of two moving links that form
    the planning group "arm"; a camera hangs on a joint outside the group. *)
Definition arm_on_base : RobotModel :=
  {| getRootLink := "world";
     getLinkModels := ["world"; "base_link"; "link_1"; "link_2"; "camera"];
     getLinkModelsWithCollisionGeometry := ["base_link"; "link_1"; "link_2"; "camera"];
     getAssociatedFixedTransforms := λ l,
       if bool_decide (l = "world") then ["base_link"]
       else if bool_decide (l = "base_link") then ["world"] else [];
     getJointModelGroups :=
       [ {| group_getName := "arm";
            group_getLinkModels := ["link_1"; "link_2"];
            getUpdatedLinkModelsWithGeometrySet := ["link_1"; "link_2"];
            getUpdatedLinkModelsWithGeometryNames := ["link_1"; "link_2"] |} ];
     getDisabledCollisionPairs := [("link_1", "link_2")] |}.

(** The same robot with the planning group starting at the fixed joint
    between the world and the base, so that the base is a group member. *)
Definition arm_with_base_in_group : RobotModel :=
  {| getRootLink := "world";
     getLinkModels := ["world"; "base_link"; "link_1"];
     getLinkModelsWithCollisionGeometry := ["base_link"; "link_1"];
     getAssociatedFixedTransforms := λ l,
       if bool_decide (l = "world") then ["base_link"]
       else if bool_decide (l = "base_link") then ["world"] else [];
     getJointModelGroups :=
       [ {| group_getName := "arm";
            group_getLinkModels := ["base_link"; "link_1"];
            getUpdatedLinkModelsWithGeometrySet := ["base_link"; "link_1"];
            getUpdatedLinkModelsWithGeometryNames := ["base_link"; "link_1"] |} ];
     getDisabledCollisionPairs := [] |}.

(** A robot whose planning group "arm" has no link with collision
    geometry. *)
Definition arm_without_geometry : RobotModel :=
  {| getRootLink := "world";
     getLinkModels := ["world"; "base_link"; "link_1"];
     getLinkModelsWithCollisionGeometry := ["base_link"];
     getAssociatedFixedTransforms := λ l,
       if bool_decide (l = "world") then ["base_link"]
       else if bool_decide (l = "base_link") then ["world"] else [];
     getJointModelGroups :=
       [ {| group_getName := "arm";
            group_getLinkModels := ["link_1"];
            getUpdatedLinkModelsWithGeometrySet := [];
            getUpdatedLinkModelsWithGeometryNames := [] |} ];
     getDisabledCollisionPairs := [] |}.

(** A robot whose root link carries collision geometry itself and has one
    link fixed to it. *)
Definition root_with_geometry : RobotModel :=
  {| getRootLink := "base_link";
     getLinkModels := ["base_link"; "mount"];
     getLinkModelsWithCollisionGeometry := ["base_link"; "mount"];
     getAssociatedFixedTransforms := λ l,
       if bool_decide (l = "base_link") then ["mount"]
       else if bool_decide (l = "mount") then ["base_link"] else [];
     getJointModelGroups := [];
     getDisabledCollisionPairs := [] |}.

Lemma arm_on_base_wf : RobotModel_wf arm_on_base.
Proof.
  split.
  - by_compute.
  - by_compute.
  - intros l x. simpl. repeat case_bool_decide; intros Hx;
      first [ by inversion Hx
            | apply list_elem_of_singleton in Hx; subst x; by_compute ].
Defined.

Lemma arm_with_base_in_group_wf : RobotModel_wf arm_with_base_in_group.
Proof.
  split.
  - by_compute.
  - by_compute.
  - intros l x. simpl. repeat case_bool_decide; intros Hx;
      first [ by inversion Hx
            | apply list_elem_of_singleton in Hx; subst x; by_compute ].
Qed.

Lemma root_with_geometry_wf : RobotModel_wf root_with_geometry.
Proof.
  split.
  - by_compute.
  - by_compute.
  - intros l x. simpl. repeat case_bool_decide; intros Hx;
      first [ by inversion Hx
            | apply list_elem_of_singleton in Hx; subst x; by_compute ].
Qed.

End Examples.

(** *** C1 *)

(** Where the construction does reach a partition: for a well-formed model
    [createStaticSDFs] returns, and when the [static_links_] it returns has
    no repeated entry and shares no link with [active_links_],
    [createDynamicSDFs] is defined and the three sequences partition the
    links with collision geometry. *)
Lemma role_partition_of_disjoint_roles (M : RobotModel) :
  RobotModel_wf M →
  ∃ static,
    Classifier.createStaticSDFs M = Some static
    ∧ (NoDup static →
       (∀ l, l ∈ static → l ∉ Classifier.collect_active_links M) →
       ∃ dynamic,
         Classifier.createDynamicSDFs M static (Classifier.collect_active_links M)
           = Ok dynamic
         ∧ role_partition (Classifier.links_ M) static
                          (Classifier.collect_active_links M) dynamic).
Proof.
  intros Hwf.
  destruct (createStaticSDFs_total M Hwf) as (static & Hstatic & Hsub).
  exists static. split; [exact Hstatic|].
  intros Hnd Hdisj.
  destruct (collect_active_links_inv M) as [Hand Hasub].
  set (active := Classifier.collect_active_links M) in *.
  unfold Classifier.createDynamicSDFs.
  destruct (erase_each_present static (Classifier.links_ M)) as (d1 & Hd1 & Hp1); auto.
  { apply Hwf. }
  rewrite Hd1. simpl.
  assert (Hlinks : NoDup (static ++ d1)) by (rewrite Hp1; apply Hwf).
  apply NoDup_app in Hlinks as (_ & Hsd1 & Hd1nd).
  destruct (erase_each_present active d1) as (dynamic & Hd & Hp2); auto.
  { intros x Hx. specialize (Hasub x Hx). rewrite <- Hp1 in Hasub.
    apply elem_of_app in Hasub as [Hs|Hs]; [|exact Hs].
    exfalso. exact (Hdisj x Hs Hx). }
  exists dynamic. split; [exact Hd|].
  assert (Hall : static ++ active ++ dynamic ≡ₚ Classifier.links_ M)
    by (rewrite Hp2; exact Hp1).
  assert (Hndall : NoDup (static ++ active ++ dynamic)) by (rewrite Hall; apply Hwf).
  apply NoDup_app in Hndall as (_ & Hs_ad & Hndad).
  apply NoDup_app in Hndad as (_ & Ha_d & Hndd).
  unfold role_partition. repeat split; auto.
  - intros Hl. rewrite <- Hall in Hl.
    apply elem_of_app in Hl as [?|Hl]; [auto|].
    apply elem_of_app in Hl as [?|?]; auto.
  - intros Hl. rewrite <- Hall. rewrite !elem_of_app. tauto.
  - intros l Hl Hl'. apply (Hs_ad l Hl). apply elem_of_app. auto.
Qed.

(** The robot of [Examples.arm_on_base]: base static, the two arm links
    active, the camera dynamic. *)
Lemma role_partition_of_disjoint_roles_witness :
  RobotModel_wf Examples.arm_on_base
  ∧ ∃ dynamic,
      Classifier.createDynamicSDFs Examples.arm_on_base ["base_link"] ["link_1"; "link_2"]
        = Ok dynamic
      ∧ role_partition ["base_link"; "link_1"; "link_2"; "camera"]
                       ["base_link"] ["link_1"; "link_2"] dynamic.
Proof.
  split; [exact Examples.arm_on_base_wf|].
  destruct (role_partition_of_disjoint_roles Examples.arm_on_base Examples.arm_on_base_wf)
    as (static & Hstatic & Hrest).
  vm_compute in Hstatic. injection Hstatic as <-.
  apply Hrest.
  - by_compute.
  - intros l Hl. apply list_elem_of_singleton in Hl. subst l.
    by_compute.
Defined.

(** C1 at [Examples.arm_with_base_in_group]: the base is fixed to the root
    and a member of the planning group.  [createStaticSDFs] puts it into
    [static_links_] and [createActiveSDFs] puts it into [active_links_];
    nothing keeps a static link out of the active ones.  [createDynamicSDFs]
    erases it from [dynamic_links_] for the static list and, when it meets
    it again in the active list, [std::remove] finds nothing and [erase] is
    handed [end()]: the constructor leaves defined behaviour whatever the
    voxel size and the fit are, and no choice of [dynamic_links_] makes the
    three sequences a partition. *)
Theorem constructor_erases_end_for_shared_link :
  RobotModel_wf Examples.arm_with_base_in_group
  ∧ Classifier.createStaticSDFs Examples.arm_with_base_in_group = Some ["base_link"]
  ∧ Classifier.collect_active_links Examples.arm_with_base_in_group
    = ["base_link"; "link_1"]
  ∧ Classifier.erase_each ["base_link"]
      (Classifier.links_ Examples.arm_with_base_in_group) = Ok ["link_1"]
  ∧ Classifier.erase_remove "base_link" ["link_1"] = Undefined erase_at_end
  ∧ Classifier.createDynamicSDFs Examples.arm_with_base_in_group
      ["base_link"] ["base_link"; "link_1"] = Undefined erase_at_end
  ∧ (∀ voxel_size background fillWithSpheres,
       DistanceField.CollisionRobotOpenVDB_new Examples.arm_with_base_in_group
         voxel_size background fillWithSpheres
       = Some (Undefined erase_at_end))
  ∧ ∀ dynamic,
      ¬ role_partition (Classifier.links_ Examples.arm_with_base_in_group)
          ["base_link"] ["base_link"; "link_1"] dynamic.
Proof.
  assert (Hstatic : Classifier.createStaticSDFs Examples.arm_with_base_in_group
                    = Some ["base_link"]) by (vm_compute; reflexivity).
  assert (Hactive : Classifier.collect_active_links Examples.arm_with_base_in_group
                    = ["base_link"; "link_1"]) by (vm_compute; reflexivity).
  assert (Hdynamic : Classifier.createDynamicSDFs Examples.arm_with_base_in_group
                       ["base_link"] ["base_link"; "link_1"] = Undefined erase_at_end)
    by (vm_compute; reflexivity).
  split; [exact Examples.arm_with_base_in_group_wf|].
  split; [exact Hstatic|]. split; [exact Hactive|].
  split; [vm_compute; reflexivity|]. split; [vm_compute; reflexivity|].
  split; [exact Hdynamic|]. split.
  - intros voxel_size background fillWithSpheres.
    unfold DistanceField.CollisionRobotOpenVDB_new, DistanceField.createActiveSDFs.
    rewrite Hstatic, Hactive. cbn [mbind option_bind]. rewrite Hdynamic. reflexivity.
  - intros dynamic (_ & _ & _ & _ & Hsa & _).
    apply (Hsa "base_link"); [left | left].
Qed.

(** *** C10 *)

(** C10 at [Examples.root_with_geometry]: the constructor path enters the
    root a second time, because its walk starts with an empty
    [links_so_far] and meets the root again in the fixed transforms of the
    mount; [identifyStaticLinks] seeds [considered] with the root and lists
    it once. *)
Theorem static_links_of_constructor_repeat_root :
  Classifier.createStaticSDFs Examples.root_with_geometry
    = Some ["base_link"; "mount"; "base_link"]
  ∧ Classifier.identifyStaticLinks Examples.root_with_geometry
    = Some ["base_link"; "mount"].
Proof. split; vm_compute; reflexivity. Qed.

(** With the root listed twice, the second [erase] of [createDynamicSDFs]
    for it is handed [end()]. *)
Lemma dynamic_links_undefined_when_root_repeats :
  Classifier.createDynamicSDFs Examples.root_with_geometry
    ["base_link"; "mount"; "base_link"] [] = Undefined erase_at_end.
Proof. vm_compute. reflexivity. Qed.

(** ** Sphere fitting *)

Section SphereFittingFacts.
Import DistanceField.
Local Open Scope R_scope.
Variable voxel_size_ background_ : R.
Variable fillWithSpheres : OpenVDBDistanceField → list Sphere → list Sphere.
Variable link : LinkModel.

Definition field_at (v : R) : OpenVDBDistanceField :=
  {| field_link := link; field_voxel_size := v; field_background := background_ |}.

(** The loop makes at most [remaining] fits. *)
Lemma sphere_fit_loop_bounded (remaining : nat) :
  ∀ v sdf spheres attempts,
    let r := sphere_fit_loop background_ fillWithSpheres link remaining v sdf spheres attempts in
    (attempts ≤ r.2 ≤ attempts + remaining)%nat.
Proof.
  induction remaining as [|n IH]; intros v sdf spheres attempts; simpl; [lia|].
  case_bool_decide; simpl; [lia|].
  specialize (IH (v * (1 / 2)) (Some (field_at v))
                 (fillWithSpheres (field_at v) spheres) (S attempts)).
  simpl in IH. unfold field_at in IH. lia.
Qed.

(** It stops early only on a fit of more than one sphere. *)
Lemma sphere_fit_loop_early (remaining : nat) :
  ∀ v sdf spheres attempts,
    let r := sphere_fit_loop background_ fillWithSpheres link remaining v sdf spheres attempts in
    (r.2 < attempts + remaining)%nat → (1 < length r.1.2)%nat.
Proof.
  induction remaining as [|n IH]; intros v sdf spheres attempts; simpl; [lia|].
  case_bool_decide as Hfit; simpl; [auto|].
  intros Hlt. apply IH. lia.
Qed.

(** The vector [active_spheres_[i]] after [k] fits in a row, the first at
    voxel size [v] and each further one at half the size of the one before;
    every fit is handed the vector the one before left. *)
Fixpoint spheres_after (v : R) (spheres : list Sphere) (k : nat) : list Sphere :=
  match k with
  | O => spheres
  | S k' => spheres_after (v * (1 / 2)) (fillWithSpheres (field_at v) spheres) k'
  end.

(** The loop stops after the first fit that leaves more than one sphere,
    and after the last one otherwise. *)
Lemma sphere_fit_loop_stops (n : nat) :
  ∀ v sdf spheres attempts,
    ∃ k : nat,
      (k ≤ n)%nat
      ∧ sphere_fit_loop background_ fillWithSpheres link (S n) v sdf spheres attempts
        = (Some (field_at (v * (1 / 2) ^ k)), spheres_after v spheres (S k),
           (attempts + S k)%nat)
      ∧ (∀ j, (1 ≤ j ≤ k)%nat → (length (spheres_after v spheres j) ≤ 1)%nat)
      ∧ ((k < n)%nat → (1 < length (spheres_after v spheres (S k)))%nat).
Proof.
  induction n as [|n IH]; intros v sdf spheres attempts.
  - exists 0%nat. split; [lia|]. split; [|split; [intros j Hj; lia | lia]].
    simpl. unfold field_at. replace (v * 1) with v by lra.
    case_bool_decide; f_equal; lia.
  - change (sphere_fit_loop background_ fillWithSpheres link (S (S n)) v sdf spheres attempts)
      with (let sdf := field_at v in
            let spheres := fillWithSpheres sdf spheres in
            if bool_decide (1 < length spheres)%nat then (Some sdf, spheres, S attempts)
            else sphere_fit_loop background_ fillWithSpheres link (S n) (v * (1 / 2))
                   (Some sdf) spheres (S attempts)).
    cbv zeta. case_bool_decide as Hfit.
    + exists 0%nat. split; [lia|].
      replace (v * (1 / 2) ^ 0) with v by (simpl; lra).
      split; [simpl; f_equal; lia|]. split; [intros j Hj; lia|].
      intros _. exact Hfit.
    + destruct (IH (v * (1 / 2)) (Some (field_at v))
                   (fillWithSpheres (field_at v) spheres) (S attempts))
        as (k & Hk & Hrun & Hretry & Hearly).
      exists (S k). split; [lia|].
      replace (v * (1 / 2) ^ S k) with (v * (1 / 2) * (1 / 2) ^ k) by (simpl; lra).
      split; [rewrite Hrun; simpl; f_equal; lia|]. split.
      * intros j Hj. destruct j as [|[|j]]; [lia | simpl; lia |].
        change (spheres_after v spheres (S (S j)))
          with (spheres_after (v * (1 / 2)) (fillWithSpheres (field_at v) spheres) (S j)).
        apply Hretry. lia.
      * intros Hlt.
        change (spheres_after v spheres (S (S k)))
          with (spheres_after (v * (1 / 2)) (fillWithSpheres (field_at v) spheres) (S k)).
        apply Hearly. lia.
Qed.

End SphereFittingFacts.

(** *** C8 *)

(** C8, as amended.  With [after k] the sphere vector of the link after [k]
    fits in a row (the same vector is handed to every fit, uncleared): the
    fit is made at least once and at most ten times, each time at half the
    voxel size of the time before; it is made again exactly as long as the
    vector holds at most one sphere after a fit, so fewer than ten fits
    mean that the last one left more than one sphere; the field and the
    vector of the last fit are what is stored.  For a link whose vector
    holds exactly one sphere after every fit, all ten fits are made, the
    last at [voxel_size_ / 2^9], the stored approximation is that single
    sphere and no error is logged.  An error is logged exactly when the
    stored approximation is empty, and then once. *)
Theorem single_sphere_fit_is_stored (voxel_size_ background_ : R)
    (fillWithSpheres : DistanceField.OpenVDBDistanceField
                       → list DistanceField.Sphere → list DistanceField.Sphere)
    (link : LinkModel) :
  let r := DistanceField.fit_active_link voxel_size_ background_ fillWithSpheres link in
  let after k := spheres_after background_ fillWithSpheres link voxel_size_ [] k in
  1 ≤ DistanceField.fit_attempts r ≤ 10
  ∧ DistanceField.fit_sdf r
    = Some (field_at background_ link
              (voxel_size_ * (1 / 2) ^ (DistanceField.fit_attempts r - 1))%R)
  ∧ DistanceField.fit_spheres r = after (DistanceField.fit_attempts r)
  ∧ (∀ k, 1 ≤ k < DistanceField.fit_attempts r → length (after k) ≤ 1)
  ∧ (DistanceField.fit_attempts r < 10 → 1 < length (DistanceField.fit_spheres r))
  ∧ ((∀ k, 1 ≤ k ≤ 10 → length (after k) = 1) →
     DistanceField.fit_attempts r = 10
     ∧ DistanceField.fit_sdf r
       = Some (field_at background_ link (voxel_size_ * (1 / 2) ^ 9)%R)
     ∧ length (DistanceField.fit_spheres r) = 1
     ∧ DistanceField.fit_errors r = [])
  ∧ (DistanceField.fit_errors r ≠ [] ↔ DistanceField.fit_spheres r = [])
  ∧ length (DistanceField.fit_errors r) ≤ 1.
Proof.
  intros r after. subst r. unfold DistanceField.fit_active_link.
  destruct (sphere_fit_loop_stops background_ fillWithSpheres link 9 voxel_size_ None [] 0)
    as (k & Hk & -> & Hretry & Hearly).
  fold (after (S k)) in Hearly |- *.
  cbv beta iota zeta.
  cbn [DistanceField.fit_attempts DistanceField.fit_sdf DistanceField.fit_spheres
       DistanceField.fit_errors].
  replace (0 + S k - 1) with k by lia. change (0 + S k) with (S k).
  split; [lia|]. split; [reflexivity|]. split; [reflexivity|].
  split; [intros j Hj; apply Hretry; lia|].
  split; [intros Hlt; apply Hearly; lia|].
  split.
  - intros Hone.
    assert (Hlast : k = 9).
    { destruct (decide (k = 9)) as [|Hne]; [assumption|].
      assert (Hmore : 1 < length (after (S k))) by (apply Hearly; lia).
      rewrite Hone in Hmore by lia. lia. }
    subst k. split; [reflexivity|]. split; [reflexivity|].
    split; [apply Hone; lia|].
    rewrite bool_decide_eq_false_2; [reflexivity|]. rewrite Hone by lia. lia.
  - case_bool_decide as Hempty.
    + apply length_zero_iff_nil in Hempty. rewrite Hempty.
      split; [split; [reflexivity | discriminate] | simpl; lia].
    + split; [|simpl; lia]. split; [intros H; contradiction|].
      intros Hnil. rewrite Hnil in Hempty. contradiction.
Qed.

Module FitExamples.
Import DistanceField.
Local Open Scope R_scope.

(** A fit that finds the same single sphere whatever the voxel size is, and
    leaves it as the only element of the vector. *)
Definition fill_one_sphere (sdf : OpenVDBDistanceField) (old : list Sphere) : list Sphere :=
  [((0, 0, 0), 1)].

(** A fit that finds nothing. *)
Definition fill_no_sphere (sdf : OpenVDBDistanceField) (old : list Sphere) : list Sphere :=
  [].

(** A fit that finds the same single sphere and adds it to what the vector
    holds already. *)
Definition append_one_sphere (sdf : OpenVDBDistanceField) (old : list Sphere)
  : list Sphere :=
  old ++ [((0, 0, 0), 1)].

End FitExamples.

(** The theorem at a fit that always leaves one unit sphere. *)
Lemma single_sphere_fit_is_stored_witness :
  let r := DistanceField.fit_active_link 1 10 FitExamples.fill_one_sphere "link_1" in
  DistanceField.fit_attempts r = 10
  ∧ DistanceField.fit_sdf r = Some (field_at 10 "link_1" (1 * (1 / 2) ^ 9)%R)
  ∧ length (DistanceField.fit_spheres r) = 1
  ∧ DistanceField.fit_errors r = [].
Proof.
  refine (proj1 (proj2 (proj2 (proj2 (proj2 (proj2
    (single_sphere_fit_is_stored 1 10 FitExamples.fill_one_sphere "link_1")))))) _).
  intros k Hk.
  destruct k as [|k]; [lia|].
  do 10 (destruct k as [|k]; [reflexivity|]). lia.
Defined.

(** With a fit that adds its sphere to the vector, the second fit leaves
    two spheres and the loop stops there. *)
Example appending_fit_stops_at_the_second_fit :
  let r := DistanceField.fit_active_link 1 10 FitExamples.append_one_sphere "link_1" in
  DistanceField.fit_attempts r = 2%nat
  ∧ DistanceField.fit_spheres r = [((0, 0, 0), 1); ((0, 0, 0), 1)]%R
  ∧ DistanceField.fit_errors r = [].
Proof. lazy zeta. repeat split. Qed.

(** C8 fails as stated: with a fit that finds exactly one sphere at every
    voxel size, the stored approximation is that sphere, not the empty
    set, and nothing is logged. *)
Lemma single_sphere_fit_counterexample :
  (∀ sdf old, length (FitExamples.fill_one_sphere sdf old) = 1)
  ∧ let r := DistanceField.fit_active_link 1 10 FitExamples.fill_one_sphere "link_1" in
    DistanceField.fit_spheres r = [((0, 0, 0), 1)]%R
    ∧ DistanceField.fit_errors r = []
    ∧ ¬ (DistanceField.fit_spheres r = [] ∧ length (DistanceField.fit_errors r) = 1).
Proof.
  split; [intros; reflexivity|].
  lazy zeta. split; [reflexivity|]. split; [reflexivity|].
  intros [H _]. discriminate H.
Qed.

(** ** The narrow-phase callback *)

Section CallbackFacts.
Import CollisionCommon.
Local Open Scope Q_scope.
Variable fcl_distance : FclDistance.
Variable fresh : DistanceResultsData Q.

Lemma Qltb_lt (a b : Q) : Qltb a b = true ↔ a < b.
Proof.
  unfold Qltb. rewrite negb_true_iff, <- not_true_iff_false, Qle_bool_iff.
  split; [apply Qnot_le_lt | apply Qlt_not_le].
Qed.

Lemma Qltb_ge (a b : Q) : Qltb a b = false ↔ b <= a.
Proof.
  unfold Qltb. rewrite negb_false_iff, Qle_bool_iff. reflexivity.
Qed.

(** A stored entry after an update is the old one or one of strictly
    smaller distance. *)
Definition entry_refines (old new : DistanceResultsData Q) : Prop :=
  new = old ∨ min_distance new < min_distance old.

Lemma entry_refines_refl e : entry_refines e e.
Proof. left. reflexivity. Qed.

Lemma entry_refines_trans e1 e2 e3 :
  entry_refines e1 e2 → entry_refines e2 e3 → entry_refines e1 e3.
Proof.
  intros [->|H12] [->|H23]; unfold entry_refines; auto.
  right. eapply Qlt_trans; eassumption.
Qed.

Lemma entry_refines_le e1 e2 : entry_refines e1 e2 → min_distance e2 <= min_distance e1.
Proof. intros [->|H]; [apply Qle_refl | apply Qlt_le_weak, H]. Qed.

Lemma update_refines self results : entry_refines self (update self results).
Proof.
  unfold update. destruct (Qltb _ _) eqn:Hlt.
  - right. apply Qltb_lt. exact Hlt.
  - left. reflexivity.
Qed.

Definition map_refines (old new : gmap string (DistanceResultsData Q)) : Prop :=
  ∀ id e, old !! id = Some e → ∃ e', new !! id = Some e' ∧ entry_refines e e'.

Lemma map_refines_refl m : map_refines m m.
Proof. intros id e H. exists e. split; [exact H | apply entry_refines_refl]. Qed.

Lemma map_refines_trans m1 m2 m3 :
  map_refines m1 m2 → map_refines m2 m3 → map_refines m1 m3.
Proof.
  intros H12 H23 id e H.
  destruct (H12 id e H) as (e2 & H2 & Hr2).
  destruct (H23 id e2 H2) as (e3 & H3 & Hr3).
  exists e3. split; [exact H3 | eapply entry_refines_trans; eassumption].
Qed.

Lemma map_insert_refines id r (m : gmap string (DistanceResultsData Q)) :
  map_refines m (map_insert id r m).
Proof.
  unfold map_insert. destruct (m !! id) eqn:Hid; [apply map_refines_refl|].
  intros k e Hk. exists e. split; [|apply entry_refines_refl].
  rewrite lookup_insert_ne; [exact Hk | congruence].
Qed.

Lemma record_side_refines active it id r (m : gmap string (DistanceResultsData Q)) :
  map_refines m (record_side active it id r m).
Proof.
  unfold record_side. destruct active; [|apply map_refines_refl].
  destruct it as [e0|]; [|apply map_insert_refines].
  intros k e Hk. destruct (decide (k = id)) as [->|Hne].
  - exists (update e r). split; [|apply update_refines].
    rewrite lookup_alter_eq, Hk. reflexivity.
  - exists e. split; [|apply entry_refines_refl].
    rewrite lookup_alter_ne; [exact Hk | congruence].
Qed.

(** One callback refines the aggregate. *)
Lemma distanceDetailedCallback_refines o1 o2 cdata :
  let cdata' := (distanceDetailedCallback fcl_distance fresh o1 o2 cdata).1 in
  entry_refines (minimum_distance (res cdata)) (minimum_distance (res cdata'))
  ∧ map_refines (distance (res cdata)) (distance (res cdata')).
Proof.
  unfold distanceDetailedCallback.
  destruct (reaches_measurement _ _ _) as [[active1 active2]|]; simpl;
    [|split; [apply entry_refines_refl | apply map_refines_refl]].
  destruct (Qltb _ _); simpl;
    [|split; [apply entry_refines_refl | apply map_refines_refl]].
  destruct (global (req cdata)); simpl.
  - destruct (Qle_bool _ 0); simpl;
      (split; [apply update_refines | apply map_refines_refl]).
  - split; [apply update_refines|].
    eapply map_refines_trans; apply record_side_refines.
Qed.

Lemma broadphase_refines pairs :
  ∀ cdata,
    let cdata' := broadphase fcl_distance fresh pairs cdata in
    entry_refines (minimum_distance (res cdata)) (minimum_distance (res cdata'))
    ∧ map_refines (distance (res cdata)) (distance (res cdata')).
Proof.
  induction pairs as [|[o1 o2] rest IH]; intros cdata; simpl.
  - split; [apply entry_refines_refl | apply map_refines_refl].
  - pose proof (distanceDetailedCallback_refines o1 o2 cdata) as [Hm Hd].
    destruct (distanceDetailedCallback fcl_distance fresh o1 o2 cdata) as [cdata1 stop].
    simpl in Hm, Hd. destruct stop; [split; assumption|].
    destruct (IH cdata1) as [Hm' Hd']. split.
    + eapply entry_refines_trans; eassumption.
    + eapply map_refines_trans; eassumption.
Qed.

End CallbackFacts.

(** *** C4 *)

(** C4.  Over any run of the callback on the candidate pairs of one query,
    the global minimum-distance entry and every entry of the per-link map
    stay in place, and each is either the entry it was or an entry of
    strictly smaller distance; so the stored distances never increase. *)
Theorem stored_minimum_distance_never_increases
    (fcl_distance : CollisionCommon.FclDistance) (fresh : DistanceResultsData Q)
    (pairs : list (CollisionCommon.CollisionObject * CollisionCommon.CollisionObject))
    (cdata : CollisionCommon.DistanceData) :
  let before := CollisionCommon.res cdata in
  let after :=
    CollisionCommon.res (CollisionCommon.broadphase fcl_distance fresh pairs cdata) in
  (minimum_distance after = minimum_distance before
   ∨ (min_distance (minimum_distance after) < min_distance (minimum_distance before))%Q)
  ∧ (min_distance (minimum_distance after) <= min_distance (minimum_distance before))%Q
  ∧ ∀ id e, distance before !! id = Some e →
      ∃ e', distance after !! id = Some e'
            ∧ (e' = e ∨ (min_distance e' < min_distance e)%Q)
            ∧ (min_distance e' <= min_distance e)%Q.
Proof.
  intros before after.
  destruct (broadphase_refines fcl_distance fresh pairs cdata) as [Hm Hd].
  split; [exact Hm|]. split; [apply entry_refines_le, Hm|].
  intros id e He. destruct (Hd id e He) as (e' & He' & Hr).
  exists e'. split; [exact He'|]. split; [exact Hr | apply entry_refines_le, Hr].
Qed.

(** *** C3 *)

(** C3.  When the pair is measured and [fcl::distance] returns a value
    that is not below the bound it was given, the callback leaves the
    aggregate as it was: global minimum, per-link map, collision flag and
    done flag. *)
Theorem no_update_at_or_above_bound
    (fcl_distance : CollisionCommon.FclDistance) (fresh : DistanceResultsData Q)
    (o1 o2 : CollisionCommon.CollisionObject) (cdata : CollisionCommon.DistanceData)
    (active1 active2 : bool) :
  let cd1 := CollisionCommon.getUserData o1 in
  let cd2 := CollisionCommon.getUserData o2 in
  let bound :=
    CollisionCommon.select_dist_threshold (CollisionCommon.req cdata)
      (CollisionCommon.res cdata) cd1 cd2 active1 active2 in
  CollisionCommon.reaches_measurement (CollisionCommon.req cdata) cd1 cd2
    = Some (active1, active2) →
  (bound <= CollisionCommon.fcl_returned
              (fcl_distance o1 o2 (detailed (CollisionCommon.req cdata)) bound))%Q →
  let cdata' :=
    (CollisionCommon.distanceDetailedCallback fcl_distance fresh o1 o2 cdata).1 in
  minimum_distance (CollisionCommon.res cdata')
    = minimum_distance (CollisionCommon.res cdata)
  ∧ distance (CollisionCommon.res cdata') = distance (CollisionCommon.res cdata)
  ∧ collision (CollisionCommon.res cdata') = collision (CollisionCommon.res cdata)
  ∧ CollisionCommon.done cdata' = CollisionCommon.done cdata.
Proof.
  intros cd1 cd2 bound Hreach Hge cdata'. subst cdata'.
  unfold CollisionCommon.distanceDetailedCallback.
  fold cd1 cd2. rewrite Hreach. fold bound.
  apply Qltb_ge in Hge. rewrite Hge. simpl. auto.
Qed.

Module CallbackExamples.
Import CollisionCommon.
Local Open Scope Q_scope.

Definition origin : Vector3d := (0, 0, 0).

Definition fresh : DistanceResultsData Q :=
  {| min_distance := 1000000; nearest_points := (origin, origin);
     link_name := ("", ""); hasGradient := false; gradient := origin;
     hasNearestPoints := false |}.

(** An entry recording distance [d] between [a] and [b]. *)
Definition entry (d : Q) (a b : string) : DistanceResultsData Q :=
  {| min_distance := d; nearest_points := (origin, origin);
     link_name := (a, b); hasGradient := false; gradient := origin;
     hasNearestPoints := false |}.

Definition link_1 : CollisionObject :=
  {| getUserData := RobotLink "link_1"; collisionGeometry := 0 |}.
Definition box : CollisionObject :=
  {| getUserData := WorldObject "box"; collisionGeometry := 1 |}.
Definition shelf : CollisionObject :=
  {| getUserData := WorldObject "shelf"; collisionGeometry := 2 |}.

(** Per-link reporting restricted to the group whose only link with
    geometry is [link_1]; threshold 10. *)
Definition per_link_request : DistanceRequest Q :=
  {| detailed := true; global := false; group_name := "arm";
     active_components_only := Some ["link_1"]; acm := None;
     distance_threshold := 10; verbose := false; req_gradient := false |}.

(** [link_1] has a best distance of 3 on record and [box] one of 5. *)
Definition both_on_record : DistanceResult Q :=
  {| collision := false; minimum_distance := entry 3 "link_1" "shelf";
     distance := {[ "link_1" := entry 3 "link_1" "shelf";
                    "box" := entry 5 "box" "link_2" ]} |}.

(** Only [link_1] has a distance on record, from an earlier pair of the
    same query. *)
Definition link_on_record : DistanceResult Q :=
  {| collision := false; minimum_distance := entry 3 "link_1" "shelf";
     distance := {[ "link_1" := entry 3 "link_1" "shelf" ]} |}.

(** A measurement that returns 4 whatever it is asked. *)
Definition fcl_four : FclDistance :=
  λ _ _ _ _, {| fcl_returned := 4; fcl_min_distance := 4;
                fcl_nearest_points := (origin, origin) |}.

End CallbackExamples.

(** The theorem at the pair ([link_1], [box]) with a bound of 3 and a
    measurement of 4. *)
Lemma no_update_at_or_above_bound_witness :
  let cdata :=
    {| CollisionCommon.req := CallbackExamples.per_link_request;
       CollisionCommon.res := CallbackExamples.both_on_record;
       CollisionCommon.done := false |} in
  let cdata' :=
    (CollisionCommon.distanceDetailedCallback CallbackExamples.fcl_four
       CallbackExamples.fresh CallbackExamples.link_1 CallbackExamples.box cdata).1 in
  minimum_distance (CollisionCommon.res cdata')
    = minimum_distance (CollisionCommon.res cdata)
  ∧ distance (CollisionCommon.res cdata') = distance (CollisionCommon.res cdata)
  ∧ collision (CollisionCommon.res cdata') = collision (CollisionCommon.res cdata)
  ∧ CollisionCommon.done cdata' = CollisionCommon.done cdata.
Proof.
  intros cdata.
  apply (no_update_at_or_above_bound CallbackExamples.fcl_four CallbackExamples.fresh
           CallbackExamples.link_1 CallbackExamples.box cdata true false).
  - vm_compute. reflexivity.
  - vm_compute. discriminate.
Defined.

(** A measurement of 4 for the pair ([link_1], [box]) with 3 and 5 on
    record and no active-components restriction: the bound is 5, the
    measurement passes it, and [update] is called on both records; the
    record of [box] becomes 4, the record of [link_1] stays at 3. *)
Example measurement_between_two_records :
  let req :=
    CollisionCommon.set_active_components_only CallbackExamples.per_link_request None in
  let cdata :=
    {| CollisionCommon.req := req;
       CollisionCommon.res := CallbackExamples.both_on_record;
       CollisionCommon.done := false |} in
  let after :=
    CollisionCommon.res
      (CollisionCommon.distanceDetailedCallback CallbackExamples.fcl_four
         CallbackExamples.fresh CallbackExamples.link_1 CallbackExamples.box cdata).1 in
  min_distance <$> distance after !! "link_1" = Some 3%Q
  ∧ min_distance <$> distance after !! "box" = Some 4%Q
  ∧ min_distance (minimum_distance after) = 3%Q.
Proof. repeat split; vm_compute; reflexivity. Qed.

(** *** C2 *)

(** The bound as C2 words it: in global-only mode the global minimum, else
    the larger of what the two sides have on record, a side without a
    record counting as the request's distance threshold. *)
Definition claimed_bound (req : DistanceRequest Q) (res : DistanceResult Q)
    (cd1 cd2 : CollisionCommon.CollisionGeometryData) : Q :=
  let known cd :=
    default (distance_threshold req)
            (min_distance <$> distance res !! CollisionCommon.ptr_obj_id_ cd) in
  if global req then min_distance (minimum_distance res)
  else CollisionCommon.std_max (known cd1) (known cd2).

(** C2 fails as stated: under an active-components restriction with only
    the first side active, the bound is the first side's record (3) although
    the second side has the larger one (5). *)
Lemma dist_threshold_counterexample :
  let req := CallbackExamples.per_link_request in
  let res := CallbackExamples.both_on_record in
  let cd1 := CollisionCommon.RobotLink "link_1" in
  let cd2 := CollisionCommon.WorldObject "box" in
  CollisionCommon.reaches_measurement req cd1 cd2 = Some (true, false)
  ∧ CollisionCommon.select_dist_threshold req res cd1 cd2 true false = 3%Q
  ∧ claimed_bound req res cd1 cd2 = 5%Q
  ∧ ¬ (CollisionCommon.select_dist_threshold req res cd1 cd2 true false
       == claimed_bound req res cd1 cd2)%Q.
Proof.
  repeat split; try (vm_compute; reflexivity).
  vm_compute. discriminate.
Qed.

(** The same happens inside one query: after ([link_1], [shelf]) left 3 on
    record for [link_1], the pair ([link_1], [box]) is measured against 3,
    not against the threshold of 10 that the side without a record stands
    for. *)
Example dist_threshold_within_one_query :
  let req := CallbackExamples.per_link_request in
  let res := CallbackExamples.link_on_record in
  let cd1 := CollisionCommon.RobotLink "link_1" in
  let cd2 := CollisionCommon.WorldObject "box" in
  CollisionCommon.reaches_measurement req cd1 cd2 = Some (true, false)
  ∧ CollisionCommon.select_dist_threshold req res cd1 cd2 true false = 3%Q
  ∧ claimed_bound req res cd1 cd2 = 10%Q.
Proof. repeat split; vm_compute; reflexivity. Qed.

(** C2, as amended.  In global-only mode the bound is the global minimum.
    In per-link mode, when there is no active-components restriction or
    both sides are active, the bound is the larger of the two sides'
    recorded distances if both sides have one, else the request's distance
    threshold; when exactly one side is active, the bound is that side's
    recorded distance, or the threshold if it has none. *)
Theorem dist_threshold_by_mode (req : DistanceRequest Q) (res : DistanceResult Q)
    (cd1 cd2 : CollisionCommon.CollisionGeometryData) (active1 active2 : bool) :
  let bound := CollisionCommon.select_dist_threshold req res cd1 cd2 active1 active2 in
  let known cd := min_distance <$> distance res !! CollisionCommon.ptr_obj_id_ cd in
  let both :=
    match known cd1, known cd2 with
    | Some d1, Some d2 => CollisionCommon.std_max d1 d2
    | _, _ => distance_threshold req
    end in
  (global req = true → bound = min_distance (minimum_distance res))
  ∧ (global req = false → active_components_only req = None → bound = both)
  ∧ (global req = false → active1 = true → active2 = true → bound = both)
  ∧ (global req = false → is_Some (active_components_only req) →
     active1 = true → active2 = false →
     bound = default (distance_threshold req) (known cd1))
  ∧ (global req = false → is_Some (active_components_only req) →
     active1 = false → active2 = true →
     bound = default (distance_threshold req) (known cd2)).
Proof.
  intros bound known both. subst bound known both.
  unfold CollisionCommon.select_dist_threshold.
  repeat split.
  - intros ->. reflexivity.
  - intros -> ->. simpl.
    destruct (distance res !! _), (distance res !! _); reflexivity.
  - intros -> -> ->. simpl.
    destruct (active_components_only req);
      destruct (distance res !! _), (distance res !! _); reflexivity.
  - intros -> [set ->] -> ->. simpl. destruct (distance res !! _); reflexivity.
  - intros -> [set ->] -> ->. simpl. destruct (distance res !! _); reflexivity.
Qed.

(** The theorem at the request and the records of the example above. *)
Lemma dist_threshold_by_mode_witness :
  CollisionCommon.select_dist_threshold CallbackExamples.per_link_request
    CallbackExamples.both_on_record
    (CollisionCommon.RobotLink "link_1") (CollisionCommon.WorldObject "box") true false
  = 3%Q.
Proof.
  pose proof (dist_threshold_by_mode CallbackExamples.per_link_request
                CallbackExamples.both_on_record
                (CollisionCommon.RobotLink "link_1") (CollisionCommon.WorldObject "box")
                true false) as (_ & _ & _ & H & _).
  rewrite H.
  - vm_compute. reflexivity.
  - reflexivity.
  - eexists. reflexivity.
  - reflexivity.
  - reflexivity.
Defined.

(** ** [getDistanceInfo] *)

Section GetDistanceInfoFacts.
Import CollisionCommon.
Variable normalize : Vector3d → Vector3d.
Variable dist_info0 : DistanceInfo.
Variable tf : Vector3d → Vector3d.

Local Abbreviation step := (getDistanceInfo_step normalize dist_info0 tf).

(** The stored record names the key on neither side. *)
Definition mismatched (key : string) (dist : DistanceResultsData Q) : Prop :=
  (link_name dist).1 ≠ key ∧ (link_name dist).2 ≠ key.

Lemma map_items_lookup {T} (m : gmap string T) key dist :
  (key, dist) ∈ map_items m ↔ m !! key = Some dist.
Proof.
  unfold map_items. rewrite merge_sort_Permutation.
  apply elem_of_map_to_list.
Qed.

Lemma map_items_NoDup {T} (m : gmap string T) : NoDup (map_items m).*1.
Proof.
  unfold map_items. rewrite merge_sort_Permutation.
  apply NoDup_fst_map_to_list.
Qed.

Lemma step_status_mismatched s key dist :
  mismatched key dist → status (step s (key, dist)) = false.
Proof.
  intros [H1 H2]. unfold getDistanceInfo_step. simpl.
  rewrite !bool_decide_eq_false_2 by assumption. simpl.
  apply andb_false_r.
Qed.

Lemma step_status_false s it : status s = false → status (step s it) = false.
Proof.
  intros Hs. unfold getDistanceInfo_step.
  repeat case_bool_decide; simpl; rewrite Hs; reflexivity.
Qed.

Lemma steps_status_false l : ∀ s, status s = false → status (foldl step s l) = false.
Proof.
  induction l as [|it l IH]; intros s Hs; simpl; [exact Hs|].
  apply IH, step_status_false, Hs.
Qed.

Lemma step_map s it :
  ∃ dist_info,
    distance_info_map (step s it) = map_insert it.1 dist_info (distance_info_map s)
    ∧ (mismatched it.1 it.2 → dist_info = dist_info0).
Proof.
  unfold getDistanceInfo_step, mismatched.
  repeat case_bool_decide; simpl; eexists; (split; [reflexivity|]);
    intros [? ?]; congruence.
Qed.

Lemma steps_other_key l key :
  ∀ s, key ∉ l.*1 →
       distance_info_map (foldl step s l) !! key = distance_info_map s !! key.
Proof.
  induction l as [|it l IH]; intros s Hkey; simpl; [reflexivity|].
  rewrite fmap_cons in Hkey. apply not_elem_of_cons in Hkey as [Hne Hkey].
  rewrite IH by assumption.
  destruct (step_map s it) as (info & -> & _).
  unfold map_insert. destruct (distance_info_map s !! it.1); [reflexivity|].
  apply lookup_insert_ne. congruence.
Qed.

(** A mismatched entry makes the function return [false]. *)
Lemma getDistanceInfo_reports_mismatch distance_detailed out key dist :
  distance_detailed !! key = Some dist → mismatched key dist →
  status (getDistanceInfo normalize dist_info0 tf distance_detailed out) = false.
Proof.
  intros Hin Hmis. unfold getDistanceInfo.
  apply map_items_lookup, list_elem_of_split in Hin as (l1 & l2 & ->).
  rewrite foldl_app. simpl.
  apply steps_status_false, step_status_mismatched, Hmis.
Qed.

(** It still gets an entry of the output map: the [DistanceInfo] that was
    declared and never assigned. *)
Lemma getDistanceInfo_inserts_unassigned distance_detailed out key dist :
  distance_detailed !! key = Some dist → mismatched key dist → out !! key = None →
  distance_info_map (getDistanceInfo normalize dist_info0 tf distance_detailed out) !! key
  = Some dist_info0.
Proof.
  intros Hin Hmis Hout. unfold getDistanceInfo.
  pose proof (map_items_NoDup distance_detailed) as Hnd.
  apply map_items_lookup, list_elem_of_split in Hin as (l1 & l2 & Heq).
  rewrite Heq in *. clear Heq.
  rewrite fmap_app, fmap_cons in Hnd. simpl in Hnd.
  apply NoDup_app in Hnd as (_ & Hl1 & Hnd).
  apply NoDup_cons in Hnd as [Hl2 _].
  rewrite foldl_app. simpl.
  rewrite steps_other_key by assumption.
  destruct (step_map (foldl step {| distance_info_map := out; status := true;
                                    ros_errors := [] |} l1) (key, dist))
    as (info & -> & Hinfo).
  rewrite (Hinfo Hmis). simpl.
  unfold map_insert. rewrite steps_other_key.
  - simpl. rewrite Hout. apply lookup_insert_eq.
  - intros Hk. apply (Hl1 key Hk). left.
Qed.

End GetDistanceInfoFacts.

(** *** C9 *)

(** C9 at a map whose only entry, under the key "link_1", records the pair
    ("link_2", "box"): the function logs the error and returns [false],
    but it does not skip the entry; the output map receives the key
    "link_1" with the [DistanceInfo] that was declared and left
    unassigned. *)
Theorem mismatched_entry_is_not_skipped
    (normalize tf : CollisionCommon.Vector3d → CollisionCommon.Vector3d)
    (dist_info0 : CollisionCommon.DistanceInfo) :
  let distance_detailed : gmap string (DistanceResultsData Q) :=
    {[ "link_1" := CallbackExamples.entry 3 "link_2" "box" ]} in
  let r := CollisionCommon.getDistanceInfo normalize dist_info0 tf distance_detailed ∅ in
  CollisionCommon.status r = false
  ∧ CollisionCommon.ros_errors r
    = ["getDistanceInfo was unable to find link after match!"]
  ∧ CollisionCommon.distance_info_map r !! "link_1" = Some dist_info0.
Proof.
  intros distance_detailed r. subst r distance_detailed.
  unfold CollisionCommon.getDistanceInfo, map_items.
  rewrite map_to_list_singleton.
  repeat split.
Qed.

(** ** [distanceSelf] *)

Module SelfExamples.
Import DistanceField.
Local Open Scope R_scope.

Definition fresh : DistanceResultsData R :=
  {| min_distance := 1000000; nearest_points := (vzero, vzero);
     link_name := ("", ""); hasGradient := false; gradient := vzero;
     hasNearestPoints := false |}.

(** A grid that is at its background value everywhere. *)
Definition far_away (background : R) : SDFData :=
  {| worldToIndexNodeCentered := λ _, (0, 0, 0)%Z;
     getValue := λ _, background;
     applyIJT := λ v, v |}.

Definition home : RobotState := {| getGlobalLinkTransform := λ _ p, p |}.

Definition request (group : string) : DistanceRequest R :=
  {| detailed := true; global := false; group_name := group;
     active_components_only := None; acm := None;
     distance_threshold := 10; verbose := false; req_gradient := true |}.

Definition empty_result : DistanceResult R :=
  {| collision := false; minimum_distance := fresh; distance := ∅ |}.

(** Construct the robot with voxel size 1 and background 10, then ask for
    its self distance. *)
Definition construct_and_query (model : RobotModel)
    (fillWithSpheres : OpenVDBDistanceField → list Sphere → list Sphere)
    (group : string) : option (outcome (DistanceResult R)) :=
  robot ← CollisionRobotOpenVDB_new model 1 10 fillWithSpheres;
  Some (robot <~ robot ;;
        distanceSelf robot fresh (λ _ _, far_away 10) (request group) empty_result home).

End SelfExamples.

(** *** C5 *)

(** Whatever the robot, a request for a group the model does not have
    makes [distanceSelf] go through the null pointer. *)
Lemma distanceSelf_without_group robot fresh data req res state :
  getJointModelGroup (DistanceField.robot_model_ robot) (group_name req) = None →
  DistanceField.distanceSelf robot fresh data req res state
  = Undefined null_group_dereference.
Proof. intros H. unfold DistanceField.distanceSelf. rewrite H. reflexivity. Qed.

(** [enableGroup] asks [hasJointModelGroup] first and is always defined. *)
Lemma enableGroup_guards req kmodel :
  ∃ req', CollisionCommon.enableGroup req kmodel = Ok req'.
Proof.
  unfold CollisionCommon.enableGroup, hasJointModelGroup.
  case_bool_decide as Hhas; [|eauto].
  destruct Hhas as [group ->]. eauto.
Qed.

(** C5 at the robot of [Examples.arm_on_base] and a request that names the
    group "gripper", which the model does not have: the query neither
    aborts with a diagnostic nor returns, it dereferences the null group. *)
Theorem distanceSelf_dereferences_missing_group :
  getJointModelGroup Examples.arm_on_base "gripper" = None
  ∧ SelfExamples.construct_and_query Examples.arm_on_base
      FitExamples.fill_one_sphere "gripper"
    = Some (Undefined null_group_dereference).
Proof.
  split; [reflexivity|].
  unfold SelfExamples.construct_and_query, DistanceField.CollisionRobotOpenVDB_new.
  replace (Classifier.createStaticSDFs Examples.arm_on_base)
    with (Some ["base_link"]) by (vm_compute; reflexivity).
  simpl.
  reflexivity.
Qed.

(** *** C6 *)

(** With every query-plan entry marked empty and nothing in the result map
    on entry, the selection of the minimum starts from [begin()] of an
    empty map. *)
Lemma distanceSelf_with_empty_plan robot fresh data req res state group :
  getJointModelGroup (DistanceField.robot_model_ robot) (group_name req) = Some group →
  Forall (λ q, DistanceField.empty q = true) (DistanceField.dist_query_ robot) →
  distance res = ∅ →
  DistanceField.distanceSelf robot fresh data req res state
  = Undefined begin_of_empty_map.
Proof.
  intros Hgroup Hempty Hres. unfold DistanceField.distanceSelf. rewrite Hgroup.
  match goal with
  | |- context [foldl ?f (distance res) (imap ?g ?l)] =>
    assert (Hfold : foldl f (distance res) (imap g l) = ∅);
      [ rewrite Hres;
        assert (Hg : ∀ i q, DistanceField.empty (g i q) = DistanceField.empty q)
          by (intros i q; destruct (DistanceField.active_links_ robot !! i); reflexivity);
        revert Hg; generalize g | ]
  end.
  { induction Hempty as [|q qs Hq _ IH]; intros g Hg; simpl; [reflexivity|].
    rewrite Hg, Hq. simpl. apply IH. intros i q'. apply Hg. }
  rewrite Hfold. unfold map_items. rewrite map_to_list_empty. reflexivity.
Qed.

(** C6 at the robot of [Examples.arm_on_base] when the sphere fit finds
    nothing for either active link: both query-plan entries are empty, the
    result map stays empty, and the query reads [begin()->second] of it. *)
Theorem distanceSelf_reads_begin_of_empty_map :
  SelfExamples.construct_and_query Examples.arm_on_base FitExamples.fill_no_sphere "arm"
  = Some (Undefined begin_of_empty_map).
Proof.
  unfold SelfExamples.construct_and_query, DistanceField.CollisionRobotOpenVDB_new.
  replace (Classifier.createStaticSDFs Examples.arm_on_base)
    with (Some ["base_link"]) by (vm_compute; reflexivity).
  simpl.
  reflexivity.
Qed.

(** ** The gradient of [distanceSelfHelper] *)

Section GradientFacts.
Import DistanceField.
Local Open Scope R_scope.

Lemma Rltb_true a b : a < b → Rltb a b = true.
Proof. intros H. unfold Rltb. destruct (Rlt_dec a b); [reflexivity | contradiction]. Qed.

Lemma Rltb_false a b : ¬ a < b → Rltb a b = false.
Proof. intros H. unfold Rltb. destruct (Rlt_dec a b); [contradiction | reflexivity]. Qed.

Lemma Reqb_true a b : a = b → Reqb a b = true.
Proof. intros H. unfold Reqb. destruct (Req_dec_T a b); [reflexivity | contradiction]. Qed.

Lemma Reqb_false a b : a ≠ b → Reqb a b = false.
Proof. intros H. unfold Reqb. destruct (Req_dec_T a b); [contradiction | reflexivity]. Qed.

Lemma squaredNorm_nonneg v : 0 <= squaredNorm v.
Proof. destruct v as [[x y] z]. simpl. nra. Qed.

Lemma squaredNorm_zero v : squaredNorm v = 0 → v = vzero.
Proof.
  destruct v as [[x y] z]. simpl. intros H.
  assert (x = 0) by nra. assert (y = 0) by nra. assert (z = 0) by nra.
  subst. reflexivity.
Qed.

Lemma squaredNorm_pos v : v ≠ vzero → 0 < squaredNorm v.
Proof.
  intros Hv. destruct (Rle_lt_or_eq_dec _ _ (squaredNorm_nonneg v)) as [H|H]; [exact H|].
  exfalso. apply Hv, squaredNorm_zero. symmetry. exact H.
Qed.

Lemma vdiv_zero k : vdiv vzero k = vzero.
Proof. unfold vdiv, vzero. f_equal; [f_equal|]; lra. Qed.

Lemma vdiv_nonzero v k : k ≠ 0 → v ≠ vzero → vdiv v k ≠ vzero.
Proof.
  intros Hk Hv Hz. apply Hv. destruct v as [[x y] z].
  unfold vdiv, vzero in *. injection Hz as Hx Hy Hz.
  assert (∀ a, a / k = 0 → a = 0) as Hdiv.
  { intros a Ha. apply (f_equal (λ t, t * k)) in Ha.
    unfold Rdiv in Ha. rewrite Rmult_assoc, Rinv_l, Rmult_1_r, Rmult_0_l in Ha; auto. }
  rewrite (Hdiv x Hx), (Hdiv y Hy), (Hdiv z Hz). reflexivity.
Qed.

(** Eigen's [normalize()] leaves the zero vector alone and makes every
    other vector a unit vector. *)
Lemma Eigen_normalize_zero : Eigen_normalize vzero = vzero.
Proof.
  unfold Eigen_normalize. destruct (Rlt_dec 0 (squaredNorm vzero)) as [H|_]; [|reflexivity].
  exfalso. unfold squaredNorm, vzero in H. lra.
Qed.

Lemma Eigen_normalize_unit v : v ≠ vzero → vlength (Eigen_normalize v) = 1.
Proof.
  intros Hv. pose proof (squaredNorm_pos v Hv) as Hpos.
  unfold Eigen_normalize. destruct (Rlt_dec 0 (squaredNorm v)) as [_|H]; [|contradiction].
  unfold vlength. destruct v as [[x y] z]. unfold vdiv, squaredNorm in *.
  set (n := x * x + y * y + z * z) in *.
  assert (Hs : sqrt n * sqrt n = n) by (apply sqrt_sqrt; lra).
  assert (Hs0 : sqrt n ≠ 0) by (intros H0; rewrite H0 in Hs; lra).
  set (s := sqrt n) in *.
  replace (x / s * (x / s) + y / s * (y / s) + z / s * (z / s)) with 1; [apply sqrt_1|].
  replace (x / s * (x / s) + y / s * (y / s) + z / s * (z / s))
    with (n / (s * s)) by (unfold n; field; exact Hs0).
  rewrite Hs. field. lra.
Qed.

Lemma vlength_zero : vlength vzero = 0.
Proof.
  unfold vlength, squaredNorm, vzero.
  replace (0 * 0 + 0 * 0 + 0 * 0) with 0 by lra. apply sqrt_0.
Qed.

End GradientFacts.

(** *** C7 *)

(** C7, as amended.  Whenever [hasGradient] is set on return, the reported
    gradient is the zero vector if the total weight is zero or the weighted
    gradients add up to the zero vector, and a vector of length one in
    every other case.  (Real numbers stand for the floats; the length is
    then exactly one.) *)
Theorem reported_gradient_is_unit_or_zero (background_ : R)
    (data : DistanceField.DistanceQueryData)
    (sdfs_data : DistanceField.LinkType → nat → DistanceField.SDFData)
    (res0 : DistanceResultsData R) :
  let h := DistanceField.distanceSelfHelper_loop background_ data sdfs_data res0 in
  let r := DistanceField.distanceSelfHelper background_ data sdfs_data res0 in
  hasGradient r = true →
  (DistanceField.total_weights h = 0%R → gradient r = DistanceField.vzero)
  ∧ (DistanceField.gradient_sum h = DistanceField.vzero → gradient r = DistanceField.vzero)
  ∧ (DistanceField.total_weights h ≠ 0%R →
     DistanceField.gradient_sum h ≠ DistanceField.vzero →
     DistanceField.vlength (gradient r) = 1%R).
Proof.
  intros h r. subst r. unfold DistanceField.distanceSelfHelper. fold h.
  destruct (hasGradient (DistanceField.res h)) eqn:Hhas; [|intros H; congruence].
  intros _. unfold DistanceField.Reqb.
  destruct (Req_dec_T (DistanceField.total_weights h) 0) as [Hw|Hw]; simpl.
  - repeat split; auto. intros; contradiction.
  - repeat split.
    + intros; contradiction.
    + intros ->. rewrite vdiv_zero. apply Eigen_normalize_zero.
    + intros _ Hsum. apply Eigen_normalize_unit, vdiv_nonzero; assumption.
Qed.

Module GradientExamples.
Import DistanceField.
Local Open Scope R_scope.

(** The distance field of a wall across the [x] axis, three voxels away
    from the origin of the grid (voxel size 1, grid axes along the world
    axes): the value grows by [slope] per voxel along [x], with [slope = 1]
    for a wall at [x = -3] and [slope = -1] for a wall at [x = 3]. *)
Definition wall (slope : R) : SDFData :=
  {| worldToIndexNodeCentered := λ _, (0, 0, 0)%Z;
     getValue := λ '(i, _, _), 3 + slope * IZR i;
     applyIJT := λ v, v |}.

(** Dynamic body 0 is the wall at [x = -3], dynamic body 1 the wall at
    [x = 3]; the link sits half way between them. *)
Definition between_two_bodies (type : LinkType) (index : nat) : SDFData :=
  match index with
  | O => wall 1
  | S _ => wall (-1)
  end.

Definition left_body : Child :=
  {| child_name := "left"; child_index := 0; child_type := Dynamic |}.
Definition right_body : Child :=
  {| child_name := "right"; child_index := 1; child_type := Dynamic |}.

(** The plan of a link approximated by one unit sphere, gradient asked. *)
Definition plan (children : list Child) : DistanceQueryData :=
  {| parent_name := "link_1"; children := children;
     spheres := [((0, 0, 0), 1)]; query_gradient := true; empty := false |}.

End GradientExamples.

Section GradientExampleFacts.
Import DistanceField GradientExamples.
Local Open Scope R_scope.

Lemma approxEqual_far a b : 1 / 100000 <= b - a → approxEqual a b = false.
Proof.
  intros H. unfold approxEqual. apply Rltb_false.
  rewrite Rabs_left by lra. lra.
Qed.

Lemma vlength_unit_x : vlength (1, 0, 0) = 1.
Proof.
  unfold vlength, squaredNorm.
  replace (1 * 1 + 0 * 0 + 0 * 0) with 1 by lra. apply sqrt_1.
Qed.

Lemma vlength_unit_neg_x : vlength (-1, 0, 0) = 1.
Proof.
  unfold vlength, squaredNorm.
  replace (-1 * -1 + 0 * 0 + 0 * 0) with 1 by lra. apply sqrt_1.
Qed.

Lemma openvdb_normalize_unit v : vlength v = 1 → openvdb_normalize v = vscale (1 / 1) v.
Proof.
  intros Hv. unfold openvdb_normalize. rewrite Hv.
  destruct (Rle_dec (Rabs (1 - 0)) (1 / 10000000)) as [H|_]; [|reflexivity].
  exfalso. rewrite Rabs_right in H by lra. lra.
Qed.

Lemma ISGradient_wall slope : ISGradient (wall slope) (0, 0, 0)%Z = (slope, 0, 0).
Proof.
  unfold ISGradient, wall. simpl.
  change (IZR (0 + 1)) with 1. change (IZR (0 - 1)) with (-1).
  f_equal; [f_equal|]; lra.
Qed.

(** What one child contributes when its grid is [wall slope] with [slope]
    one or minus one. *)
Lemma child_step_wall (children : list Child) sdfs_data h c slope :
  sdfs_data (child_type c) (child_index c) = wall slope →
  vlength (slope, 0, 0) = 1 → slope ≠ 0 →
  child_step 10 (plan children) sdfs_data h c
  = {| res := {| min_distance :=
                   if Rltb 2 (min_distance (res h)) then 2 else min_distance (res h);
                 nearest_points := nearest_points (res h);
                 link_name :=
                   if Rltb 2 (min_distance (res h))
                   then ((link_name (res h)).1, child_name c) else link_name (res h);
                 hasGradient := true;
                 gradient := gradient (res h);
                 hasNearestPoints := hasNearestPoints (res h) |};
       gradient_sum := vadd (gradient_sum h) (vscale 8 (vscale (1 / 1) (slope, 0, 0)));
       total_weights := total_weights h + 8 |}.
Proof.
  intros Hsdf Hg Hslope. unfold child_step. rewrite Hsdf.
  cbn [plan spheres foldl query_gradient].
  unfold sphere_step.
  cbn [wall worldToIndexNodeCentered getValue fst snd
       child_min child_min_ijk dist_found].
  replace (3 + slope * 0) with 3 by lra.
  rewrite approxEqual_far by lra.
  cbn [negb].
  rewrite (Rltb_true (3 - 1) 10) by lra.
  cbn [child_min child_min_ijk dist_found].
  change {| worldToIndexNodeCentered := λ _ : Vec3, (0, 0, 0)%Z;
            getValue := λ '(i, _, _), 3 + slope * IZR i;
            applyIJT := λ v : Vec3, v |} with (wall slope).
  rewrite ISGradient_wall.
  rewrite (Reqb_false (vsum (slope, 0, 0)) 0) by (simpl; lra).
  cbn [negb wall applyIJT].
  rewrite openvdb_normalize_unit by assumption.
  replace (3 - 1) with 2 by lra. replace (10 - 2) with 8 by lra.
  destruct (Rltb 2 (min_distance (res h))); reflexivity.
Qed.

End GradientExampleFacts.

Section GradientCounterexample.
Import DistanceField GradientExamples.
Local Open Scope R_scope.

(** The loop over the two bodies: minimum 2 against the first of them, a
    total weight of 16, and weighted gradients that cancel. *)
Lemma between_two_bodies_loop :
  let h := distanceSelfHelper_loop 10 (plan [left_body; right_body])
             between_two_bodies SelfExamples.fresh in
  min_distance (res h) = 2
  ∧ link_name (res h) = ("link_1", "left")
  ∧ hasGradient (res h) = true
  ∧ total_weights h = 16
  ∧ gradient_sum h = vzero.
Proof.
  unfold distanceSelfHelper_loop. cbn [plan children foldl parent_name].
  rewrite (child_step_wall _ _ _ left_body 1)
    by (try reflexivity; try apply vlength_unit_x; lra).
  rewrite (child_step_wall _ _ _ right_body (-1))
    by (try reflexivity; try apply vlength_unit_neg_x; lra).
  cbn [res min_distance link_name hasGradient total_weights gradient_sum
       SelfExamples.fresh child_name left_body right_body fst snd].
  rewrite (Rltb_true 2 10) by lra.
  rewrite (Rltb_false 2 2) by lra.
  repeat split.
  - lra.
  - unfold vadd, vscale, vzero. f_equal; [f_equal|]; lra.
Qed.

End GradientCounterexample.

(** C7 fails as stated: for a link half way between two walls, whose
    gradients are opposite, [hasGradient] is set and the total weight is 16,
    yet the weighted gradients cancel and the reported gradient is the zero
    vector, whose length is not one. *)
Lemma reported_gradient_counterexample :
  let data := GradientExamples.plan [GradientExamples.left_body; GradientExamples.right_body] in
  let h := DistanceField.distanceSelfHelper_loop 10 data
             GradientExamples.between_two_bodies SelfExamples.fresh in
  let r := DistanceField.distanceSelfHelper 10 data
             GradientExamples.between_two_bodies SelfExamples.fresh in
  hasGradient r = true
  ∧ DistanceField.total_weights h = 16%R
  ∧ gradient r = DistanceField.vzero
  ∧ ¬ (DistanceField.total_weights h ≠ 0%R → DistanceField.vlength (gradient r) = 1%R).
Proof.
  intros data h r.
  destruct between_two_bodies_loop as (_ & _ & Hhas & Hw & Hsum).
  fold data in Hhas, Hw, Hsum. fold h in Hhas, Hw, Hsum.
  assert (Hr : r = DistanceField.set_gradient (DistanceField.res h) DistanceField.vzero).
  { subst r. unfold DistanceField.distanceSelfHelper. fold data. fold h.
    rewrite Hhas, Hw, Hsum.
    rewrite Reqb_false by lra.
    rewrite vdiv_zero, Eigen_normalize_zero. reflexivity. }
  rewrite Hr. simpl. repeat split; auto.
  intros H.
  assert (Hone : DistanceField.vlength DistanceField.vzero = 1%R)
    by (apply H; rewrite Hw; lra).
  rewrite vlength_zero in Hone. lra.
Qed.

(** The theorem at a link with a single body beside it. *)
Lemma reported_gradient_is_unit_or_zero_witness :
  let data := GradientExamples.plan [GradientExamples.left_body] in
  let h := DistanceField.distanceSelfHelper_loop 10 data
             GradientExamples.between_two_bodies SelfExamples.fresh in
  let r := DistanceField.distanceSelfHelper 10 data
             GradientExamples.between_two_bodies SelfExamples.fresh in
  hasGradient r = true
  ∧ (DistanceField.total_weights h = 0%R → gradient r = DistanceField.vzero)
  ∧ (DistanceField.gradient_sum h = DistanceField.vzero → gradient r = DistanceField.vzero)
  ∧ (DistanceField.total_weights h ≠ 0%R →
     DistanceField.gradient_sum h ≠ DistanceField.vzero →
     DistanceField.vlength (gradient r) = 1%R).
Proof.
  intros data h r.
  assert (Hhas : hasGradient r = true).
  { subst r. unfold DistanceField.distanceSelfHelper, DistanceField.distanceSelfHelper_loop.
    subst data. cbn [GradientExamples.plan DistanceField.children foldl].
    rewrite (child_step_wall _ _ _ GradientExamples.left_body 1%R)
      by (try reflexivity; try apply vlength_unit_x; lra).
    cbn [DistanceField.res hasGradient].
    destruct (DistanceField.Reqb _ _); reflexivity. }
  split; [exact Hhas|].
  exact (reported_gradient_is_unit_or_zero 10 data
           GradientExamples.between_two_bodies SelfExamples.fresh Hhas).
Defined.

(** The same happens for a robot without any active link, whatever the
    sphere fit does. *)
Example distanceSelf_without_active_links :
  SelfExamples.construct_and_query Examples.arm_without_geometry
    FitExamples.fill_one_sphere "arm"
  = Some (Undefined begin_of_empty_map).
Proof.
  unfold SelfExamples.construct_and_query, DistanceField.CollisionRobotOpenVDB_new.
  replace (Classifier.createStaticSDFs Examples.arm_without_geometry)
    with (Some ["base_link"]) by (vm_compute; reflexivity).
  simpl.
  reflexivity.
Qed.

(** ** Further facts about the self-distance engine *)

Section HelperFacts.
Import DistanceField.
Local Open Scope R_scope.
Variable background_ : R.
Variable data : DistanceQueryData.
Variable sdfs_data : LinkType → nat → SDFData.

(** [distanceSelfHelper] lowers [res.min_distance] only: each child leaves
    it alone or replaces it by a strictly smaller value. *)
Lemma child_step_min_distance h c :
  let h' := child_step background_ data sdfs_data h c in
  min_distance (res h') = min_distance (res h)
  ∨ min_distance (res h') < min_distance (res h).
Proof.
  unfold child_step.
  destruct (dist_found _); [|left; reflexivity].
  destruct (Rltb _ (min_distance (res h))) eqn:Hlt.
  - right. unfold Rltb in Hlt. destruct (Rlt_dec _ _) as [H|H]; [|discriminate].
    destruct (query_gradient data); [destruct (negb _)|]; simpl; exact H.
  - left. destruct (query_gradient data); [destruct (negb _)|]; reflexivity.
Qed.

Lemma distanceSelfHelper_loop_min_distance res0 :
  min_distance (res (distanceSelfHelper_loop background_ data sdfs_data res0))
  <= background_.
Proof.
  unfold distanceSelfHelper_loop.
  set (h0 := {| res := _; gradient_sum := vzero; total_weights := 0 |}).
  assert (H0 : min_distance (res h0) <= background_) by (simpl; lra).
  revert H0. generalize h0. clear h0.
  induction (children data) as [|c cs IH]; intros h Hh; simpl; [exact Hh|].
  apply IH. destruct (child_step_min_distance h c) as [Heq|Hlt]; lra.
Qed.

End HelperFacts.

(** The robot of the C6 example: both active links end up without spheres,
    an error is logged for each, and both plan entries are empty. *)
Example robot_without_spheres :
  ∃ robot,
    DistanceField.CollisionRobotOpenVDB_new Examples.arm_on_base 1 10
      FitExamples.fill_no_sphere = Some (Ok robot)
    ∧ DistanceField.static_links_ robot = ["base_link"]
    ∧ DistanceField.active_links_ robot = ["link_1"; "link_2"]
    ∧ DistanceField.dynamic_links_ robot = ["camera"]
    ∧ DistanceField.active_spheres_ robot = [[]; []]
    ∧ DistanceField.empty <$> DistanceField.dist_query_ robot = [true; true]
    ∧ DistanceField.ros_errors robot
      = ["Unable to generate spheres for link: link_1";
         "Unable to generate spheres for link: link_2"].
Proof.
  unfold DistanceField.CollisionRobotOpenVDB_new.
  replace (Classifier.createStaticSDFs Examples.arm_on_base)
    with (Some ["base_link"]) by (vm_compute; reflexivity).
  simpl. eexists. split; [reflexivity|]. simpl. repeat split.
Qed.

(** ** [identifyStaticLinks] lists no link twice *)

Section IdentifyFacts.
Variable M : RobotModel.
Hypothesis M_wf : RobotModel_wf M.
Import Classifier.

Definition identify_inv (in_set considered : list LinkModel) : Prop :=
  NoDup considered
  ∧ considered ⊆ getLinkModels M
  ∧ NoDup in_set
  ∧ in_set ⊆ considered
  ∧ in_set ⊆ links_ M.

Lemma identify_inv_push in_set considered it :
  identify_inv in_set considered → it ∈ getLinkModels M → it ∉ considered →
  identify_inv (if hasCollisionGeometry M it then in_set ++ [it] else in_set)
               (considered ++ [it]).
Proof.
  intros (Hc & Hcs & Hi & Hic & Hil) Hit Hnew.
  assert (Hc' : NoDup (considered ++ [it])).
  { apply NoDup_app. repeat split; auto using NoDup_singleton.
    intros x Hx Hx'. apply list_elem_of_singleton in Hx'. subst x. auto. }
  assert (Hcs' : considered ++ [it] ⊆ getLinkModels M).
  { intros x Hx. apply elem_of_app in Hx as [Hx|Hx]; auto.
    apply list_elem_of_singleton in Hx. subst x. auto. }
  unfold hasCollisionGeometry. case_bool_decide as Hgeo.
  - repeat split; auto.
    + apply NoDup_app. repeat split; auto using NoDup_singleton.
      intros x Hx Hx'. apply list_elem_of_singleton in Hx'. subst x. auto.
    + intros x Hx. apply elem_of_app. apply elem_of_app in Hx as [Hx|Hx]; auto.
    + intros x Hx. apply elem_of_app in Hx as [Hx|Hx]; auto.
      apply list_elem_of_singleton in Hx. subst x. auto.
  - repeat split; auto.
    intros x Hx. apply elem_of_app. auto.
Qed.

Lemma associated_links_loop_total recurse (n : nat) :
  (∀ link in_set considered, identify_inv in_set considered →
     length (getLinkModels M) < n + length considered →
     ∃ in_set' considered',
       recurse link in_set considered = Some (in_set', considered')
       ∧ identify_inv in_set' considered'
       ∧ length considered ≤ length considered') →
  ∀ fixed_attached in_set considered,
    fixed_attached ⊆ getLinkModels M →
    identify_inv in_set considered →
    length (getLinkModels M) < S n + length considered →
    ∃ in_set' considered',
      associated_links_loop M recurse fixed_attached in_set considered
      = Some (in_set', considered')
      ∧ identify_inv in_set' considered'
      ∧ length considered ≤ length considered'.
Proof.
  intros Hrec fixed_attached.
  induction fixed_attached as [|it rest IH]; intros in_set considered Hsub Hinv Hlen; simpl.
  - exists in_set, considered. auto.
  - assert (Hit : it ∈ getLinkModels M) by (apply Hsub; left).
    assert (Hrest : rest ⊆ getLinkModels M)
      by (intros x Hx; apply Hsub; right; exact Hx).
    case_bool_decide as Hseen; simpl.
    + apply IH; auto.
    + pose proof (identify_inv_push in_set considered it Hinv Hit Hseen) as Hinv1.
      destruct (Hrec it _ _ Hinv1) as (in2 & co2 & Hr2 & Hinv2 & Hlen2).
      { rewrite length_app. simpl. lia. }
      rewrite Hr2. rewrite length_app in Hlen2. simpl in Hlen2.
      destruct (IH in2 co2 Hrest Hinv2) as (in3 & co3 & Hr3 & Hinv3 & Hlen3); [lia|].
      exists in3, co3. repeat split; try apply Hinv3; auto. lia.
Qed.

Lemma identifyStaticLinksHelper_total (fuel : nat) :
  ∀ link in_set considered, identify_inv in_set considered →
    length (getLinkModels M) < fuel + length considered →
    ∃ in_set' considered',
      identifyStaticLinksHelper M fuel link in_set considered = Some (in_set', considered')
      ∧ identify_inv in_set' considered'
      ∧ length considered ≤ length considered'.
Proof.
  induction fuel as [|fuel IH]; intros link in_set considered Hinv Hlen.
  - destruct Hinv as (Hc & Hcs & _).
    pose proof (submseteq_length _ _ (NoDup_submseteq _ _ Hc Hcs)). simpl in Hlen. lia.
  - simpl. apply (associated_links_loop_total _ fuel); auto.
    intros x Hx. eapply wf_fixed_closed; eauto.
Qed.

(** [identifyStaticLinks] returns, lists links with collision geometry
    only, and lists none of them twice. *)
Lemma identifyStaticLinks_NoDup :
  ∃ static, identifyStaticLinks M = Some static ∧ NoDup static ∧ static ⊆ links_ M.
Proof.
  unfold identifyStaticLinks.
  set (root := getRootLink M).
  assert (Hinv : identify_inv (if hasCollisionGeometry M root then [root] else []) [root]).
  { unfold identify_inv, hasCollisionGeometry. repeat split.
    - apply NoDup_singleton.
    - intros x Hx. apply list_elem_of_singleton in Hx. subst x. apply M_wf.
    - case_bool_decide; [apply NoDup_singleton | apply NoDup_nil_2].
    - case_bool_decide; intros x Hx; [exact Hx | inversion Hx].
    - case_bool_decide; intros x Hx; [|inversion Hx].
      apply list_elem_of_singleton in Hx. subst x. assumption. }
  destruct (identifyStaticLinksHelper_total (walk_fuel M) root _ _ Hinv)
    as (in_set & considered & Hr & (_ & _ & Hnd & _ & Hl) & _).
  { unfold walk_fuel. simpl. lia. }
  rewrite Hr. simpl. exists in_set. auto.
Qed.

End IdentifyFacts.

(** * More of the code

    ** What the walk over the fixed transforms collects *)

(** A fixed transform leads from [a] to [b]. *)
Definition fixed_edge (M : RobotModel) (a b : LinkModel) : Prop :=
  b ∈ getAssociatedFixedTransforms M a.

Section WalkCollects.
Variable M : RobotModel.
Import Classifier.

(** What a walk from [link] has done when it turns [w] into [w']. *)
Record walk_post (link : LinkModel) (w w' : walk) : Prop := {
  post_grows : links_so_far w ⊆ links_so_far w';
  post_reached :
    ∀ x, x ∈ links_so_far w' →
         (x ∈ links_so_far w) ∨ (tc (fixed_edge M) link x);
  post_children : ∀ x, fixed_edge M link x → x ∈ links_so_far w';
  post_closed :
    ∀ y x, y ∈ links_so_far w' → y ∉ links_so_far w → fixed_edge M y x →
           x ∈ links_so_far w';
  post_static :
    ∀ x, x ∈ static_links_ w' ↔
         x ∈ static_links_ w
         ∨ (x ∈ links_so_far w' ∧ (x ∉ links_so_far w) ∧ x ∈ links_ M);
}.

(** The same for the loop over a list of children. *)
Record loop_post (fixed_attached : list LinkModel) (w w' : walk) : Prop := {
  loop_grows : links_so_far w ⊆ links_so_far w';
  loop_reached :
    ∀ x, x ∈ links_so_far w' →
         (x ∈ links_so_far w)
         ∨ (∃ it, it ∈ fixed_attached ∧ (x = it ∨ tc (fixed_edge M) it x));
  loop_children : ∀ it, it ∈ fixed_attached → it ∈ links_so_far w';
  loop_closed :
    ∀ y x, y ∈ links_so_far w' → y ∉ links_so_far w → fixed_edge M y x →
           x ∈ links_so_far w';
  loop_static :
    ∀ x, x ∈ static_links_ w' ↔
         x ∈ static_links_ w
         ∨ (x ∈ links_so_far w' ∧ (x ∉ links_so_far w) ∧ x ∈ links_ M);
}.

Lemma fixed_attached_loop_post recurse :
  (∀ link w w', recurse link w = Some w' → walk_post link w w') →
  ∀ fixed_attached w w',
    fixed_attached_loop M recurse fixed_attached w = Some w' →
    loop_post fixed_attached w w'.
Proof.
  intros Hrec fixed_attached.
  induction fixed_attached as [|it rest IH]; intros w w' Hrun; simpl in Hrun.
  - injection Hrun as <-. split; auto.
    + intros x Hx. inversion Hx.
    + intros; contradiction.
    + intros x. split; [auto|]. intros [?|(? & ? & _)]; [assumption | contradiction].
  - case_bool_decide as Hseen.
    + destruct (IH _ _ Hrun) as [Hg Hr Hc Hcl Hs]. split; auto.
      * intros x Hx. destruct (Hr x Hx) as [?|(it' & Hit' & Hx')]; [auto|].
        right. exists it'. split; [right; exact Hit' | exact Hx'].
      * intros it' Hit'. apply elem_of_cons in Hit' as [->|Hit']; auto.
    + set (w1 := if bool_decide (it ∈ links_ M) then _ else _) in Hrun.
      assert (Hso : links_so_far w1 = links_so_far w ++ [it])
        by (subst w1; case_bool_decide; reflexivity).
      assert (Hst : ∀ x, x ∈ static_links_ w1 ↔
                         x ∈ static_links_ w ∨ (x = it ∧ x ∈ links_ M)).
      { intros x. subst w1. case_bool_decide as Hgeo; simpl.
        - rewrite elem_of_app, list_elem_of_singleton. split.
          + intros [?| ->]; auto.
          + intros [?|[-> _]]; auto.
        - split; [auto|]. intros [?|[-> ?]]; [assumption | contradiction]. }
      destruct (recurse it w1) as [w2|] eqn:Hrec2; [|discriminate].
      destruct (Hrec _ _ _ Hrec2) as [Hg2 Hr2 Hc2 Hcl2 Hs2].
      destruct (IH _ _ Hrun) as [Hg3 Hr3 Hc3 Hcl3 Hs3].
      rewrite Hso in *.
      assert (Hin1 : ∀ x, x ∈ links_so_far w ++ [it] ↔ x ∈ links_so_far w ∨ x = it)
        by (intros x; rewrite elem_of_app, list_elem_of_singleton; reflexivity).
      split.
      * intros x Hx. apply Hg3, Hg2, Hin1. auto.
      * intros x Hx. destruct (Hr3 x Hx) as [Hx2|(it' & Hit' & Hx')].
        -- destruct (Hr2 x Hx2) as [Hx1|Htc].
           ++ apply Hin1 in Hx1 as [?| ->]; [auto|].
              right. exists it. split; [left | auto].
           ++ right. exists it. split; [left | auto].
        -- right. exists it'. split; [right; exact Hit' | exact Hx'].
      * intros it' Hit'. apply elem_of_cons in Hit' as [->|Hit']; [|auto].
        apply Hg3, Hg2, Hin1. auto.
      * intros y x Hy Hny Hedge.
        destruct (decide (y ∈ links_so_far w2)) as [Hy2|Hy2]; [|eauto].
        apply Hg3.
        destruct (decide (y ∈ links_so_far w ++ [it])) as [Hy1|Hy1]; [|eauto].
        apply Hin1 in Hy1 as [?| ->]; [contradiction|]. auto.
      * intros x. rewrite Hs3, Hs2, Hst. split.
        -- intros [[[?|[-> Hgeo]]|(Hx2 & Hx1 & Hgeo)]|(Hx3 & Hx2 & Hgeo)]; auto.
           ++ right. repeat split; auto. apply Hg3, Hg2, Hin1. auto.
           ++ right. repeat split; auto. intros Hx. apply Hx1, Hin1. auto.
           ++ right. repeat split; auto. intros Hx. apply Hx2, Hg2, Hin1. auto.
        -- intros [?|(Hx3 & Hx & Hgeo)]; [auto|].
           destruct (decide (x ∈ links_so_far w2)) as [Hx2|Hx2]; [|auto].
           left.
           destruct (decide (x ∈ links_so_far w ++ [it])) as [Hx1|Hx1]; [|auto].
           apply Hin1 in Hx1 as [?| ->]; [contradiction|]. auto.
Qed.

Lemma addAssociatedFixedTransforms_post (fuel : nat) :
  ∀ link w w', addAssociatedFixedTransforms M fuel link w = Some w' →
               walk_post link w w'.
Proof.
  induction fuel as [|fuel IH]; intros link w w' Hrun; simpl in Hrun; [discriminate|].
  destruct (fixed_attached_loop_post _ IH _ _ _ Hrun) as [Hg Hr Hc Hcl Hs].
  split; auto.
  intros x Hx. destruct (Hr x Hx) as [?|(it & Hit & [->|Htc])]; [auto| |].
  - right. apply tc_once. exact Hit.
  - right. eapply tc_l; [exact Hit | exact Htc].
Qed.

(** A walk that starts at the root with [seed] as its visited list ends
    with every link that fixed transforms lead to from the root. *)
Lemma walk_from_root_reaches seed w' :
  seed ⊆ [getRootLink M] →
  walk_post (getRootLink M) {| static_links_ := static_links_ w'; links_so_far := seed |} w' →
  ∀ x, tc (fixed_edge M) (getRootLink M) x → x ∈ links_so_far w'.
Proof.
  intros Hseed [Hg Hr Hc Hcl Hs]. simpl in *.
  apply (tc_ind_r (λ z, z ∈ links_so_far w')); [auto|].
  intros y z _ Hedge Hy.
  destruct (decide (y ∈ seed)) as [Hy'|Hy']; [|eauto].
  apply Hseed, list_elem_of_singleton in Hy'. subst y. auto.
Qed.

End WalkCollects.

Section StaticLinks.
Variable M : RobotModel.
Import Classifier.

Definition walk_pair (w : walk) : list LinkModel * list LinkModel :=
  (static_links_ w, links_so_far w).

Lemma associated_links_loop_as_walk recurse1 recurse2 :
  (∀ link in_set considered,
     recurse2 link in_set considered
     = walk_pair <$> recurse1 link {| static_links_ := in_set; links_so_far := considered |}) →
  ∀ fixed_attached in_set considered,
    associated_links_loop M recurse2 fixed_attached in_set considered
    = walk_pair <$> fixed_attached_loop M recurse1 fixed_attached
                      {| static_links_ := in_set; links_so_far := considered |}.
Proof.
  intros Hrec fixed_attached.
  induction fixed_attached as [|it rest IH]; intros in_set considered; simpl;
    [reflexivity|].
  case_bool_decide as Hseen; simpl; [apply IH|].
  rewrite Hrec. unfold hasCollisionGeometry.
  case_bool_decide as Hgeo; simpl;
    (destruct (recurse1 it _) as [[in2 co2]|]; simpl; [apply IH | reflexivity]).
Qed.

Lemma identifyStaticLinksHelper_as_walk (fuel : nat) :
  ∀ link in_set considered,
    identifyStaticLinksHelper M fuel link in_set considered
    = walk_pair <$> addAssociatedFixedTransforms M fuel link
                      {| static_links_ := in_set; links_so_far := considered |}.
Proof.
  induction fuel as [|fuel IH]; intros link in_set considered; simpl; [reflexivity|].
  apply associated_links_loop_as_walk. exact IH.
Qed.

Lemma identifyStaticLinks_as_walk :
  identifyStaticLinks M
  = static_links_ <$>
      addAssociatedFixedTransforms M (walk_fuel M) (getRootLink M)
        {| static_links_ :=
             if bool_decide (getRootLink M ∈ links_ M) then [getRootLink M] else [];
           links_so_far := [getRootLink M] |}.
Proof.
  unfold identifyStaticLinks. rewrite identifyStaticLinksHelper_as_walk.
  unfold hasCollisionGeometry.
  destruct (addAssociatedFixedTransforms _ _ _ _) as [w|]; reflexivity.
Qed.

Hypothesis M_wf : RobotModel_wf M.

Lemma createStaticSDFs_members :
  ∃ static,
    createStaticSDFs M = Some static
    ∧ ∀ l, l ∈ static ↔
           l ∈ links_ M
           ∧ (l = getRootLink M ∨ tc (fixed_edge M) (getRootLink M) l).
Proof.
  unfold createStaticSDFs.
  set (w0 := {| static_links_ := _; links_so_far := [] |}).
  destruct (addAssociatedFixedTransforms_total M M_wf (walk_fuel M) (getRootLink M) w0)
    as (w' & Hw' & _ & _).
  { unfold walk_inv, w0. simpl. repeat split.
    - apply NoDup_nil_2.
    - intros x Hx. inversion Hx.
    - case_bool_decide; intros x Hx.
      + apply list_elem_of_singleton in Hx. subst x. auto.
      + inversion Hx. }
  { unfold walk_fuel, w0. simpl. lia. }
  rewrite Hw'. simpl. exists (static_links_ w'). split; [reflexivity|].
  pose proof (addAssociatedFixedTransforms_post M _ _ _ _ Hw') as Hpost.
  assert (Hreach : ∀ x, tc (fixed_edge M) (getRootLink M) x → x ∈ links_so_far w').
  { destruct Hpost as [Hg Hr Hc Hcl Hs]. simpl in *.
    apply (tc_ind_r (λ z, z ∈ links_so_far w')); [auto|].
    intros y z _ Hedge Hy. apply (Hcl y z); auto. intros H; inversion H. }
  destruct Hpost as [Hg Hr Hc Hcl Hs]. simpl in *.
  intros l. rewrite Hs. split.
  - intros [Hl|(Hl & _ & Hgeo)].
    + case_bool_decide as Hroot; [|inversion Hl].
      apply list_elem_of_singleton in Hl. subst l. auto.
    + split; [exact Hgeo|]. destruct (Hr l Hl) as [H|H]; [inversion H | auto].
  - intros [Hgeo [->|Htc]].
    + left. rewrite bool_decide_eq_true_2 by assumption. left.
    + right. repeat split; auto. intros H; inversion H.
Qed.

Lemma identifyStaticLinks_members :
  ∃ static,
    identifyStaticLinks M = Some static
    ∧ NoDup static
    ∧ ∀ l, l ∈ static ↔
           l ∈ links_ M
           ∧ (l = getRootLink M ∨ tc (fixed_edge M) (getRootLink M) l).
Proof.
  destruct (identifyStaticLinks_NoDup M M_wf) as (static & Hrun & Hnd & _).
  exists static. split; [exact Hrun|]. split; [exact Hnd|].
  rewrite identifyStaticLinks_as_walk in Hrun.
  destruct (addAssociatedFixedTransforms _ _ _ _) as [w'|] eqn:Hw'; [|discriminate].
  simpl in Hrun. injection Hrun as <-.
  pose proof (addAssociatedFixedTransforms_post M _ _ _ _ Hw') as Hpost.
  assert (Hreach : ∀ x, tc (fixed_edge M) (getRootLink M) x → x ∈ links_so_far w').
  { destruct Hpost as [Hg Hr Hc Hcl Hs]. simpl in *.
    apply (tc_ind_r (λ z, z ∈ links_so_far w')); [auto|].
    intros y z _ Hedge Hy.
    destruct (decide (y = getRootLink M)) as [->|Hy']; [auto|].
    apply (Hcl y z); auto. intros H. apply list_elem_of_singleton in H. auto. }
  destruct Hpost as [Hg Hr Hc Hcl Hs]. simpl in *.
  intros l. rewrite Hs. split.
  - intros [Hl|(Hl & Hnr & Hgeo)].
    + case_bool_decide as Hroot; [|inversion Hl].
      apply list_elem_of_singleton in Hl. subst l. auto.
    + split; [exact Hgeo|]. destruct (Hr l Hl) as [H|H]; [contradiction | auto].
  - intros [Hgeo [->|Htc]].
    + left. rewrite bool_decide_eq_true_2 by assumption. left.
    + destruct (decide (l = getRootLink M)) as [->|Hne].
      * left. rewrite bool_decide_eq_true_2 by assumption. left.
      * right. repeat split; auto. intros H. apply list_elem_of_singleton in H. auto.
Qed.

End StaticLinks.

(** X1.  [identifyStaticLinks] is the walk of the constructor with another
    seed: it runs [addAssociatedFixedTransforms] from the root with the root
    already in the visited list, where [createStaticSDFs] starts with an
    empty one. *)
Theorem identifyStaticLinks_is_the_seeded_walk (M : RobotModel) :
  Classifier.identifyStaticLinks M
  = Classifier.static_links_ <$>
      Classifier.addAssociatedFixedTransforms M (Classifier.walk_fuel M) (getRootLink M)
        {| Classifier.static_links_ :=
             if bool_decide (getRootLink M ∈ Classifier.links_ M)
             then [getRootLink M] else [];
           Classifier.links_so_far := [getRootLink M] |}.
Proof. apply identifyStaticLinks_as_walk. Qed.

(** X2.  For a well-formed model [createStaticSDFs] returns, and
    [static_links_] holds exactly the links with collision geometry that
    are the root or that a chain of fixed transforms leads to from the
    root. *)
Theorem static_links_are_the_fixed_links (M : RobotModel) :
  RobotModel_wf M →
  ∃ static,
    Classifier.createStaticSDFs M = Some static
    ∧ ∀ l, l ∈ static ↔
           l ∈ Classifier.links_ M
           ∧ (l = getRootLink M ∨ tc (fixed_edge M) (getRootLink M) l).
Proof. intros Hwf. apply createStaticSDFs_members, Hwf. Qed.

Lemma static_links_are_the_fixed_links_witness :
  ∃ static,
    Classifier.createStaticSDFs Examples.arm_on_base = Some static
    ∧ ∀ l, l ∈ static ↔
           l ∈ Classifier.links_ Examples.arm_on_base
           ∧ (l = "world" ∨ tc (fixed_edge Examples.arm_on_base) "world" l).
Proof.
  exact (static_links_are_the_fixed_links Examples.arm_on_base Examples.arm_on_base_wf).
Defined.

(** X3.  For a well-formed model [identifyStaticLinks] returns a sequence
    without repetition that holds the same links as the [static_links_] of
    the constructor. *)
Theorem identifyStaticLinks_lists_the_static_links_once (M : RobotModel) :
  RobotModel_wf M →
  ∃ identified static,
    Classifier.identifyStaticLinks M = Some identified
    ∧ Classifier.createStaticSDFs M = Some static
    ∧ NoDup identified
    ∧ ∀ l, l ∈ identified ↔ l ∈ static.
Proof.
  intros Hwf.
  destruct (identifyStaticLinks_members M Hwf) as (identified & Hi & Hnd & Him).
  destruct (createStaticSDFs_members M Hwf) as (static & Hs & Hsm).
  exists identified, static. repeat split; auto.
  - intros Hl. apply Hsm, Him, Hl.
  - intros Hl. apply Him, Hsm, Hl.
Qed.

Lemma identifyStaticLinks_lists_the_static_links_once_witness :
  ∃ identified static,
    Classifier.identifyStaticLinks Examples.root_with_geometry = Some identified
    ∧ Classifier.createStaticSDFs Examples.root_with_geometry = Some static
    ∧ NoDup identified
    ∧ ∀ l, l ∈ identified ↔ l ∈ static.
Proof.
  apply (identifyStaticLinks_lists_the_static_links_once Examples.root_with_geometry).
  split.
  - by_compute.
  - by_compute.
  - intros l x. simpl. repeat case_bool_decide; intros Hx;
      first [ by inversion Hx
            | apply list_elem_of_singleton in Hx; subst x; by_compute ].
Defined.

(** ** Active and dynamic links *)

Section ActiveDynamic.
Variable M : RobotModel.
Import Classifier.

Lemma collect_group_links_members (links acc : list LinkModel) l :
  l ∈ collect_group_links M acc links ↔ l ∈ acc ∨ (l ∈ links ∧ l ∈ links_ M).
Proof.
  revert acc. induction links as [|x links IH]; intros acc; simpl.
  - split; [auto|]. intros [?|[H _]]; [assumption | inversion H].
  - rewrite IH. rewrite elem_of_cons.
    destruct (decide (x ∈ acc)) as [Hold|Hnew].
    + rewrite (bool_decide_eq_false_2 (x ∉ acc)) by auto. simpl. split.
      * intros [?|[? ?]]; auto.
      * intros [?|[[->|?] ?]]; auto.
    + rewrite (bool_decide_eq_true_2 (x ∉ acc)) by assumption. simpl.
      case_bool_decide as Hgeo.
      * rewrite elem_of_app, list_elem_of_singleton. split.
        -- intros [[?| ->]|[? ?]]; auto.
        -- intros [?|[[->|?] ?]]; auto.
      * split.
        -- intros [?|[? ?]]; auto.
        -- intros [?|[[->|?] ?]]; auto. contradiction.
Qed.

Lemma collect_active_links_members l :
  l ∈ collect_active_links M ↔
  l ∈ links_ M ∧ ∃ g, g ∈ getJointModelGroups M ∧ l ∈ group_getLinkModels g.
Proof.
  unfold collect_active_links.
  assert (H : ∀ gs acc,
    l ∈ foldl (λ a g, collect_group_links M a (group_getLinkModels g)) acc gs ↔
    l ∈ acc ∨ (l ∈ links_ M ∧ ∃ g, g ∈ gs ∧ l ∈ group_getLinkModels g)).
  { induction gs as [|g gs IH]; intros acc; simpl.
    - split; [auto|]. intros [?|(_ & g & Hg & _)]; [assumption | inversion Hg].
    - rewrite IH, collect_group_links_members. split.
      + intros [[?|[? ?]]|(? & g' & ? & ?)]; auto.
        * right. split; [assumption|]. exists g. split; [left | assumption].
        * right. split; [assumption|]. exists g'. split; [right|]; assumption.
      + intros [?|(Hgeo & g' & Hg' & Hl)]; auto.
        apply elem_of_cons in Hg' as [->|Hg']; auto.
        right. split; [assumption|]. exists g'. auto. }
  rewrite H. split.
  - intros [Hx|?]; [inversion Hx | assumption].
  - auto.
Qed.

(** [erase(remove(..))] for each element of [xs] is defined exactly when
    [xs] lists elements of [v], each once; what is left is [v] without them,
    in the order of [v]. *)
Lemma erase_each_Ok (xs : list LinkModel) :
  ∀ v v', NoDup v →
    (erase_each xs v = Ok v' ↔
     NoDup xs ∧ xs ⊆ v ∧ v' = filter (λ y, y ∉ xs) v).
Proof.
  induction xs as [|x xs IH]; intros v v' Hv; simpl.
  - split.
    + intros [= <-]. repeat split; [apply NoDup_nil_2 | intros y Hy; inversion Hy |].
      symmetry. induction v as [|a v IHv]; [reflexivity|].
      apply NoDup_cons in Hv as [_ Hv].
      rewrite filter_cons_True by (intros H; inversion H). f_equal. auto.
    + intros (_ & _ & ->). f_equal.
      clear Hv. induction v as [|a v IHv]; [reflexivity|].
      rewrite filter_cons_True by (intros H; inversion H). f_equal. auto.
  - destruct (decide (x ∈ v)) as [Hx|Hx].
    + rewrite erase_remove_present by assumption. simpl.
      destruct (filter_present x v Hv Hx) as [_ Hperm].
      assert (Hk : NoDup (filter (λ y, y ≠ x) v)).
      { rewrite <- Hperm in Hv. apply NoDup_cons in Hv. apply Hv. }
      rewrite (IH _ v' Hk). rewrite list_filter_filter.
      assert (Hf : filter (λ a, (a ∉ xs) ∧ a ≠ x) v = filter (λ y, y ∉ x :: xs) v).
      { apply list_filter_iff. intros y. rewrite not_elem_of_cons. tauto. }
      rewrite Hf. rewrite NoDup_cons. split.
      * intros (Hnd & Hsub & ->). repeat split; auto.
        -- intros Hxx. apply Hsub, list_elem_of_filter in Hxx as [Hne _]. congruence.
        -- intros y Hy. apply elem_of_cons in Hy as [->|Hy]; [assumption|].
           apply Hsub, list_elem_of_filter in Hy as [_ Hy]. exact Hy.
      * intros ([Hxx Hnd] & Hsub & ->). repeat split; auto.
        intros y Hy. apply list_elem_of_filter. split.
        -- intros ->. contradiction.
        -- apply Hsub. right. exact Hy.
    + rewrite erase_remove_absent by assumption. simpl. split; [discriminate|].
      intros (_ & Hsub & _). exfalso. apply Hx, Hsub. left.
Qed.

End ActiveDynamic.

(** X4.  [active_links_] has no repeated entry and holds exactly the links
    with collision geometry that are members of some planning group. *)
Theorem active_links_are_the_group_links (M : RobotModel) :
  NoDup (Classifier.collect_active_links M)
  ∧ ∀ l, l ∈ Classifier.collect_active_links M ↔
         l ∈ Classifier.links_ M
         ∧ ∃ g, g ∈ getJointModelGroups M ∧ l ∈ group_getLinkModels g.
Proof.
  split; [apply collect_active_links_inv | apply collect_active_links_members].
Qed.

(** X5.  When [links_] has no repeated entry, [createDynamicSDFs] is defined
    exactly when [static_links_] and [active_links_] list links of [links_],
    each once and none in both; [dynamic_links_] is then [links_] without
    them, in the order of [links_]. *)
Theorem dynamic_links_defined_iff (M : RobotModel) (static active dynamic : list LinkModel) :
  NoDup (Classifier.links_ M) →
  (Classifier.createDynamicSDFs M static active = Ok dynamic ↔
   NoDup static ∧ NoDup active
   ∧ static ⊆ Classifier.links_ M ∧ active ⊆ Classifier.links_ M
   ∧ (∀ l, l ∈ static → l ∉ active)
   ∧ dynamic = filter (λ l, (l ∉ static) ∧ l ∉ active) (Classifier.links_ M)).
Proof.
  intros Hnd. unfold Classifier.createDynamicSDFs.
  assert (Hf : ∀ v : list LinkModel,
    filter (λ y, y ∉ active) (filter (λ y, y ∉ static) v)
    = filter (λ l, (l ∉ static) ∧ l ∉ active) v).
  { intros v. rewrite list_filter_filter. apply list_filter_iff. intros y. tauto. }
  split.
  - destruct (Classifier.erase_each static (Classifier.links_ M)) as [d1| |] eqn:Hd1;
      simpl; try discriminate.
    apply erase_each_Ok in Hd1 as (Hs & Hss & ->); [|assumption].
    intros Hd. apply erase_each_Ok in Hd as (Ha & Has & ->);
      [|apply NoDup_filter; assumption].
    repeat split; auto.
    + intros l Hl. apply Has, list_elem_of_filter in Hl. apply Hl.
    + intros l Hl Hl'. apply Has, list_elem_of_filter in Hl' as [Hl' _]. contradiction.
  - intros (Hs & Ha & Hss & Has & Hdisj & ->).
    assert (Hd1 : Classifier.erase_each static (Classifier.links_ M)
                  = Ok (filter (λ y, y ∉ static) (Classifier.links_ M)))
      by (apply erase_each_Ok; auto).
    rewrite Hd1. simpl. apply erase_each_Ok; [apply NoDup_filter; assumption|].
    repeat split; auto.
    intros l Hl. apply list_elem_of_filter. split; [|auto].
    intros Hl'. exact (Hdisj l Hl' Hl).
Qed.

Lemma dynamic_links_defined_iff_witness :
  Classifier.createDynamicSDFs Examples.arm_on_base ["base_link"] ["link_1"; "link_2"]
  = Ok ["camera"].
Proof.
  apply (dynamic_links_defined_iff Examples.arm_on_base).
  - by_compute.
  - repeat split; try by_compute.
    intros l Hl. apply list_elem_of_singleton in Hl. subst l. by_compute.
Defined.

(** ** The default collision matrix and the query plan *)

(** X6.  The matrix of [createDefaultAllowedCollisionMatrix] answers the
    same for a pair in either order, and [isCollisionAllowed] holds for a
    pair exactly when the SRDF lists it, in either order, as disabled;
    without a matrix nothing is allowed. *)
Theorem default_matrix_is_symmetric (M : RobotModel) (a b : string) :
  let acm := DistanceField.createDefaultAllowedCollisionMatrix M in
  acm a b = acm b a
  ∧ DistanceField.isCollisionAllowed a b (Some acm)
    = DistanceField.isCollisionAllowed b a (Some acm)
  ∧ (DistanceField.isCollisionAllowed a b (Some acm) = true ↔
     (a, b) ∈ getDisabledCollisionPairs M ∨ (b, a) ∈ getDisabledCollisionPairs M)
  ∧ DistanceField.isCollisionAllowed a b None = false.
Proof.
  intros acm.
  assert (Hsym : acm a b = acm b a).
  { subst acm. unfold DistanceField.createDefaultAllowedCollisionMatrix.
    repeat case_bool_decide; try reflexivity; exfalso; tauto. }
  split; [exact Hsym|]. split.
  - unfold DistanceField.isCollisionAllowed. rewrite Hsym. reflexivity.
  - split; [|reflexivity].
    subst acm.
    unfold DistanceField.isCollisionAllowed, DistanceField.createDefaultAllowedCollisionMatrix.
    repeat case_bool_decide; split; intros; try tauto; try congruence; discriminate.
Qed.

Section QueryPlan.
Import DistanceField.
Variable static_links_ active_links_ dynamic_links_ : list LinkModel.
Variable active_spheres_ : list (list Sphere).
Variable acm_ : AllowedCollisionMatrix.

(** The vector a child index of the given type points into. *)
Definition role_links (type : LinkType) : list LinkModel :=
  match type with
  | Static => static_links_
  | Dynamic => dynamic_links_
  | Active => active_links_
  end.

Lemma plan_children_members type skip parent links c :
  c ∈ plan_children type skip parent acm_ links ↔
  child_type c = type
  ∧ links !! child_index c = Some (child_name c)
  ∧ skip (child_index c) = false
  ∧ isCollisionAllowed (child_name c) parent (Some acm_) = false.
Proof.
  unfold plan_children. rewrite list_elem_of_omap. split.
  - intros (o & Ho & ->). apply elem_of_lookup_imap in Ho as (i & link & Hc & Hi).
    destruct (skip i) eqn:Hskip; cbn [negb andb] in Hc; [discriminate|].
    destruct (isCollisionAllowed link parent (Some acm_)) eqn:Hallow;
      cbn [negb andb] in Hc; [discriminate|].
    injection Hc as ->. cbn [child_type child_index child_name]. auto.
  - intros (Htype & Hi & Hskip & Hallow). exists (Some c). split; [|reflexivity].
    apply elem_of_lookup_imap. exists (child_index c), (child_name c).
    split; [|exact Hi]. rewrite Hskip, Hallow. cbn [negb andb]. f_equal.
    destruct c. cbn [child_type] in Htype. subst. reflexivity.
Qed.

Lemma query_plan_entry j parent :
  active_links_ !! j = Some parent →
  ∃ q,
    createDefaultDistanceQuery static_links_ active_links_ dynamic_links_
      active_spheres_ acm_ !! j = Some q
    ∧ parent_name q = parent
    ∧ (empty q = true ↔ active_spheres_ !!! j = [])
    ∧ (empty q = true → children q = [])
    ∧ (empty q = false →
       ∀ c, c ∈ children q ↔
            role_links (child_type c) !! child_index c = Some (child_name c)
            ∧ isCollisionAllowed (child_name c) parent (Some acm_) = false
            ∧ (child_type c = Active → child_index c ≠ j)).
Proof.
  intros Hj. unfold createDefaultDistanceQuery.
  rewrite list_lookup_imap, Hj. cbn [fmap option_fmap option_map].
  case_bool_decide as Hempty; eexists; (split; [reflexivity|]);
    cbn [parent_name empty children].
  - split; [reflexivity|].
    split; [split; [intros _; apply length_zero_iff_nil, Hempty | reflexivity]|].
    split; [reflexivity|]. discriminate.
  - split; [reflexivity|].
    split; [split; [discriminate | intros Hnil; rewrite Hnil in Hempty; contradiction]|].
    split; [discriminate|].
    intros _ c. rewrite !elem_of_app, !plan_children_members. split.
    + intros [(Ht & Hi & Hs & Ha)|[(Ht & Hi & _ & Ha)|(Ht & Hi & _ & Ha)]];
        rewrite Ht; cbn [role_links]; repeat split; auto; try discriminate.
      intros _. apply bool_decide_eq_false in Hs. exact Hs.
    + intros (Hi & Ha & Hself).
      destruct (child_type c) eqn:Ht; cbn [role_links] in Hi.
      * right. right. auto.
      * right. left. auto.
      * left. repeat split; auto. apply bool_decide_eq_false. auto.
Qed.

End QueryPlan.

(** X7.  [createDefaultDistanceQuery] makes one plan entry per active
    link, with that link as parent.  The entry is marked empty exactly when
    the link has no spheres, and then has no children; otherwise its
    children are exactly the triples (name, index, type) such that the
    vector of that type holds that name at that index, the collision of the
    pair is not allowed, and the child is not the parent's own slot among
    the active links. *)
Theorem query_plan_is_sound_and_complete
    (static_links_ active_links_ dynamic_links_ : list LinkModel)
    (active_spheres_ : list (list DistanceField.Sphere)) (acm_ : AllowedCollisionMatrix)
    (j : nat) (parent : LinkModel) :
  active_links_ !! j = Some parent →
  length (DistanceField.createDefaultDistanceQuery static_links_ active_links_
            dynamic_links_ active_spheres_ acm_) = length active_links_
  ∧ ∃ q,
      DistanceField.createDefaultDistanceQuery static_links_ active_links_
        dynamic_links_ active_spheres_ acm_ !! j = Some q
      ∧ DistanceField.parent_name q = parent
      ∧ (DistanceField.empty q = true ↔ active_spheres_ !!! j = [])
      ∧ (DistanceField.empty q = true → DistanceField.children q = [])
      ∧ (DistanceField.empty q = false →
         ∀ c, c ∈ DistanceField.children q ↔
              role_links static_links_ active_links_ dynamic_links_
                (DistanceField.child_type c) !! DistanceField.child_index c
              = Some (DistanceField.child_name c)
              ∧ DistanceField.isCollisionAllowed (DistanceField.child_name c) parent
                  (Some acm_) = false
              ∧ (DistanceField.child_type c = DistanceField.Active →
                 DistanceField.child_index c ≠ j)).
Proof.
  intros Hj. split.
  - unfold DistanceField.createDefaultDistanceQuery. apply length_imap.
  - apply query_plan_entry, Hj.
Qed.

Lemma query_plan_is_sound_and_complete_witness :
  let plan :=
    DistanceField.createDefaultDistanceQuery ["base_link"] ["link_1"; "link_2"] ["camera"]
      [[((0, 0, 0), 1)]; []]%R
      (DistanceField.createDefaultAllowedCollisionMatrix Examples.arm_on_base) in
  length plan = 2
  ∧ ∃ q,
      plan !! 0 = Some q
      ∧ DistanceField.parent_name q = "link_1"
      ∧ (DistanceField.empty q = true ↔ [[((0, 0, 0), 1)]; []]%R !!! 0 = [])
      ∧ (DistanceField.empty q = true → DistanceField.children q = [])
      ∧ (DistanceField.empty q = false →
         ∀ c, c ∈ DistanceField.children q ↔
              role_links ["base_link"] ["link_1"; "link_2"] ["camera"]
                (DistanceField.child_type c) !! DistanceField.child_index c
              = Some (DistanceField.child_name c)
              ∧ DistanceField.isCollisionAllowed (DistanceField.child_name c) "link_1"
                  (Some (DistanceField.createDefaultAllowedCollisionMatrix
                           Examples.arm_on_base)) = false
              ∧ (DistanceField.child_type c = DistanceField.Active →
                 DistanceField.child_index c ≠ 0)).
Proof.
  intros plan.
  apply (query_plan_is_sound_and_complete ["base_link"] ["link_1"; "link_2"] ["camera"]).
  reflexivity.
Defined.

(** ** The retry loop of the sphere fit, for any fit *)

Section FitLoop.
Import DistanceField.
Local Open Scope R_scope.
Variable background_ : R.
Variable fillWithSpheres : OpenVDBDistanceField → list Sphere → list Sphere.
Variable link : LinkModel.

Lemma sphere_fit_loop_result (n : nat) :
  ∀ v sdf spheres attempts,
    ∃ (k : nat) (old : list Sphere),
      (k ≤ n)%nat
      ∧ sphere_fit_loop background_ fillWithSpheres link (S n) v sdf spheres attempts
        = (Some (field_at background_ link (v * (1 / 2) ^ k)),
           fillWithSpheres (field_at background_ link (v * (1 / 2) ^ k)) old,
           (attempts + S k)%nat)
      ∧ ((k < n)%nat →
         (1 < length (fillWithSpheres (field_at background_ link (v * (1 / 2) ^ k)) old))%nat).
Proof.
  induction n as [|n IH]; intros v sdf spheres attempts.
  - exists 0%nat, spheres. split; [lia|]. split; [|lia].
    simpl. unfold field_at. replace (v * 1) with v by lra.
    case_bool_decide; f_equal; lia.
  - change (sphere_fit_loop background_ fillWithSpheres link (S (S n)) v sdf spheres attempts)
      with (let sdf := field_at background_ link v in
            let spheres := fillWithSpheres sdf spheres in
            if bool_decide (1 < length spheres)%nat then (Some sdf, spheres, S attempts)
            else sphere_fit_loop background_ fillWithSpheres link (S n) (v * (1 / 2))
                   (Some sdf) spheres (S attempts)).
    cbv zeta. case_bool_decide as Hfit.
    + exists 0%nat, spheres. split; [lia|].
      replace (v * (1 / 2) ^ 0) with v by (simpl; lra).
      split; [f_equal; lia | auto].
    + destruct (IH (v * (1 / 2)) (Some (field_at background_ link v))
                   (fillWithSpheres (field_at background_ link v) spheres) (S attempts))
        as (k & old & Hk & Hrun & Hearly).
      exists (S k), old. split; [lia|].
      replace (v * (1 / 2) ^ S k) with (v * (1 / 2) * (1 / 2) ^ k) by (simpl; lra).
      split; [rewrite Hrun; f_equal; lia|].
      intros Hlt. apply Hearly. lia.
Qed.

End FitLoop.

(** X8.  Whatever the fit returns, the fit of an active link is made at
    least once and at most ten times; the field that is kept is the one of
    the last fit, built with the voxel size halved once per earlier fit;
    fewer than ten fits are made only when the last one found more than one
    sphere; and an error line is logged exactly when no sphere is stored,
    never more than one per link. *)
Theorem sphere_fit_retries (voxel_size_ background_ : R)
    (fillWithSpheres : DistanceField.OpenVDBDistanceField
                       → list DistanceField.Sphere → list DistanceField.Sphere)
    (link : LinkModel) :
  let r := DistanceField.fit_active_link voxel_size_ background_ fillWithSpheres link in
  1 ≤ DistanceField.fit_attempts r ≤ 10
  ∧ DistanceField.fit_sdf r
    = Some (field_at background_ link
              (voxel_size_ * (1 / 2) ^ (DistanceField.fit_attempts r - 1))%R)
  ∧ (DistanceField.fit_attempts r < 10 → 1 < length (DistanceField.fit_spheres r))
  ∧ (DistanceField.fit_errors r ≠ [] ↔ DistanceField.fit_spheres r = [])
  ∧ length (DistanceField.fit_errors r) ≤ 1.
Proof.
  intros r. subst r. unfold DistanceField.fit_active_link.
  destruct (sphere_fit_loop_result background_ fillWithSpheres link 9 voxel_size_ None [] 0)
    as (k & old & Hk & -> & Hearly).
  cbv beta iota zeta.
  cbn [DistanceField.fit_attempts DistanceField.fit_sdf DistanceField.fit_spheres
       DistanceField.fit_errors].
  replace (0 + S k - 1) with k by lia.
  split; [lia|]. split; [reflexivity|]. split; [intros Hlt; apply Hearly; lia|].
  case_bool_decide as Hempty.
  - apply length_zero_iff_nil in Hempty. rewrite Hempty.
    split; [split; [reflexivity | discriminate] | simpl; lia].
  - split; [|simpl; lia]. split; [intros H; contradiction|].
    intros Hnil. rewrite Hnil in Hempty. contradiction.
Qed.

(** ** What [distanceSelfHelper] reports *)

Section HelperReports.
Import DistanceField.
Local Open Scope R_scope.
Variable background_ : R.
Variable data : DistanceQueryData.
Variable sdfs_data : LinkType → nat → SDFData.

(** The grid value of a child at the cell of a sphere centre. *)
Definition sample (child_data : SDFData) (sphere : Sphere) : R :=
  getValue child_data (worldToIndexNodeCentered child_data sphere.1).

(** The value carries information: it is not the background value. *)
Definition informative (value : R) : Prop := approxEqual value background_ = false.

Lemma sphere_scan (child_data : SDFData) (spheres : list Sphere) :
  ∀ s,
    let s' := foldl (sphere_step background_ child_data) s spheres in
    child_min s' <= child_min s
    ∧ (∀ sp, sp ∈ spheres → informative (sample child_data sp) →
             child_min s' <= sample child_data sp - sp.2)
    ∧ (s' = s
       ∨ (dist_found s' = true ∧ child_min s' < child_min s
          ∧ ∃ sp, sp ∈ spheres ∧ informative (sample child_data sp)
                  ∧ child_min s' = sample child_data sp - sp.2)).
Proof.
  induction spheres as [|sp spheres IH]; intros s; simpl.
  - split; [lra|]. split; [|auto]. intros sp Hsp. inversion Hsp.
  - set (s1 := sphere_step background_ child_data s sp).
    destruct (IH s1) as (Hle & Hall & Hatt).
    assert (H1 : child_min s1 <= child_min s
                 ∧ (informative (sample child_data sp) →
                    child_min s1 <= sample child_data sp - sp.2)
                 ∧ (s1 = s
                    ∨ (dist_found s1 = true ∧ child_min s1 < child_min s
                       ∧ informative (sample child_data sp)
                       ∧ child_min s1 = sample child_data sp - sp.2))).
    { subst s1. unfold sphere_step, informative, sample.
      destruct (approxEqual _ background_) eqn:Happrox; cbn [negb].
      - split; [lra|]. split; [discriminate | auto].
      - unfold Rltb. destruct (Rlt_dec _ (child_min s)) as [Hlt|Hge]; simpl.
        + split; [lra|]. split; [lra|]. right. auto.
        + split; [lra|]. split; [lra | auto]. }
    destruct H1 as (Hle1 & Hsp1 & Hatt1).
    split; [lra|]. split.
    + intros sp' Hsp' Hinf. apply elem_of_cons in Hsp' as [->|Hsp']; [|auto].
      specialize (Hsp1 Hinf). lra.
    + destruct Hatt as [->|(Hf & Hlt & sp' & Hsp' & Hinf & Heq)].
      * destruct Hatt1 as [->|(Hf & Hlt & Hinf & Heq)]; [auto|].
        right. split; [exact Hf|]. split; [exact Hlt|].
        exists sp. split; [left | auto].
      * right. split; [exact Hf|]. split; [lra|].
        exists sp'. split; [right; exact Hsp' | auto].
Qed.

(** What the loop over the children keeps true of its variables. *)
Record helper_inv (res0 : DistanceResultsData R) (seen : list Child) (h : HelperVars)
  : Prop := {
  inv_cap : min_distance (res h) <= background_;
  inv_lower :
    ∀ c sp, c ∈ seen → sp ∈ spheres data →
      informative (sample (sdfs_data (child_type c) (child_index c)) sp) →
      min_distance (res h)
      <= sample (sdfs_data (child_type c) (child_index c)) sp - sp.2;
  inv_attained :
    (min_distance (res h) = background_ ∧ (link_name (res h)).2 = (link_name res0).2)
    ∨ (∃ c sp, c ∈ seen ∧ sp ∈ spheres data
         ∧ informative (sample (sdfs_data (child_type c) (child_index c)) sp)
         ∧ min_distance (res h)
           = sample (sdfs_data (child_type c) (child_index c)) sp - sp.2
         ∧ (link_name (res h)).2 = child_name c);
  inv_parent : (link_name (res h)).1 = parent_name data;
  inv_points : nearest_points (res h) = nearest_points res0;
  inv_gradient : gradient (res h) = gradient res0;
  inv_nearest : hasNearestPoints (res h) = false;
  inv_weights : 0 <= total_weights h;
  inv_flag_kept : hasGradient res0 = true → hasGradient (res h) = true;
  inv_flag_set :
    hasGradient (res h) = true →
    hasGradient res0 = true ∨ (query_gradient data = true ∧ 0 < total_weights h);
}.

Lemma child_step_inv res0 seen h c :
  helper_inv res0 seen h →
  helper_inv res0 (seen ++ [c]) (child_step background_ data sdfs_data h c).
Proof.
  intros [Hcap Hlow Hatt Hpar Hpts Hgr Hnp Hw Hkept Hset].
  unfold child_step.
  set (child_data := sdfs_data (child_type c) (child_index c)).
  set (s0 := {| child_min := background_; child_min_ijk := (0, 0, 0)%Z;
                dist_found := false |}).
  destruct (sphere_scan child_data (spheres data) s0) as (Hle & Hall & Hscan).
  set (scan := foldl (sphere_step background_ child_data) s0 (spheres data)) in *.
  simpl in Hle.
  assert (Hmem : ∀ c', c' ∈ seen ++ [c] ↔ c' ∈ seen ∨ c' = c)
    by (intros c'; rewrite elem_of_app, list_elem_of_singleton; reflexivity).
  destruct (dist_found scan) eqn:Hfound.
  - destruct Hscan as [Hsame|(_ & Hlt & sp0 & Hsp0 & Hinf0 & Heq0)];
      [rewrite Hsame in Hfound; discriminate|].
    simpl in Hlt.
    set (res1 := if Rltb (child_min scan) (min_distance (res h)) then _ else res h).
    assert (Hres1 :
      min_distance res1 <= min_distance (res h)
      ∧ min_distance res1 <= child_min scan
      ∧ ((res1 = res h)
         ∨ (min_distance res1 = child_min scan ∧ (link_name res1).2 = child_name c))
      ∧ (link_name res1).1 = (link_name (res h)).1
      ∧ nearest_points res1 = nearest_points (res h)
      ∧ gradient res1 = gradient (res h)
      ∧ hasNearestPoints res1 = hasNearestPoints (res h)
      ∧ hasGradient res1 = hasGradient (res h)).
    { subst res1. unfold Rltb.
      destruct (Rlt_dec (child_min scan) (min_distance (res h))); simpl;
        repeat split; auto; lra. }
    destruct Hres1 as (H1 & H2 & H3 & H4 & H5 & H6 & H7 & H8).
    assert (Hcommon : ∀ h',
      min_distance (res h') = min_distance res1 →
      link_name (res h') = link_name res1 →
      nearest_points (res h') = nearest_points res1 →
      gradient (res h') = gradient res1 →
      hasNearestPoints (res h') = hasNearestPoints res1 →
      0 <= total_weights h' →
      (hasGradient res0 = true → hasGradient (res h') = true) →
      (hasGradient (res h') = true →
       hasGradient res0 = true ∨ (query_gradient data = true ∧ 0 < total_weights h')) →
      helper_inv res0 (seen ++ [c]) h').
    { intros h' Em El Ep Eg En Ew Ek Es. split; auto.
      - rewrite Em. lra.
      - rewrite Em. intros c' sp Hc' Hsp Hinf. apply Hmem in Hc' as [Hc'| ->].
        + specialize (Hlow c' sp Hc' Hsp Hinf). lra.
        + specialize (Hall sp Hsp Hinf). fold child_data. lra.
      - rewrite Em, El. destruct H3 as [->|[Hm Hn]].
        + destruct Hatt as [?|(c' & sp & Hc' & Hrest)]; [auto|].
          right. exists c', sp. split; [apply Hmem; auto | exact Hrest].
        + right. exists c, sp0. split; [apply Hmem; auto|].
          split; [exact Hsp0|]. split; [exact Hinf0|].
          split; [rewrite Hm; exact Heq0 | exact Hn].
      - rewrite El, H4. exact Hpar.
      - rewrite Ep, H5. exact Hpts.
      - rewrite Eg, H6. exact Hgr.
      - rewrite En, H7. exact Hnp. }
    destruct (query_gradient data) eqn:Hq.
    + destruct (negb _) eqn:Hnz.
      * apply Hcommon; cbn [res total_weights min_distance link_name nearest_points
                            gradient hasNearestPoints hasGradient]; auto; try lra;
          try (intros _; right; split; [reflexivity | lra]).
      * apply Hcommon; cbn [res total_weights]; auto.
        -- rewrite H8. exact Hkept.
        -- rewrite H8. exact Hset.
    + apply Hcommon; cbn [res total_weights]; auto.
      * rewrite H8. exact Hkept.
      * rewrite H8. exact Hset.
  - destruct Hscan as [Hsame|(Hf & _)]; [|rewrite Hf in Hfound; discriminate].
    split; auto.
    + intros c' sp Hc' Hsp Hinf. apply Hmem in Hc' as [Hc'| ->]; [auto|].
      specialize (Hall sp Hsp Hinf). rewrite Hsame in Hall. simpl in Hall.
      fold child_data. lra.
    + destruct Hatt as [?|(c' & sp & Hc' & Hrest)]; [auto|].
      right. exists c', sp. split; [apply Hmem; auto | exact Hrest].
Qed.

Lemma distanceSelfHelper_loop_inv res0 :
  helper_inv res0 (children data)
             (distanceSelfHelper_loop background_ data sdfs_data res0).
Proof.
  unfold distanceSelfHelper_loop.
  set (h0 := {| res := _; gradient_sum := vzero; total_weights := 0 |}).
  assert (H0 : helper_inv res0 [] h0).
  { subst h0. split; simpl; auto; try lra.
    - intros c sp Hc. inversion Hc. }
  revert H0. generalize h0. clear h0.
  change (children data) with ([] ++ children data) at 1.
  generalize (@nil Child).
  induction (children data) as [|c cs IH]; intros seen h Hh; simpl.
  - rewrite app_nil_r. exact Hh.
  - replace (seen ++ c :: cs) with ((seen ++ [c]) ++ cs)
      by (rewrite <- app_assoc; reflexivity).
    apply IH, child_step_inv, Hh.
Qed.

End HelperReports.

(** X9.  The distance [distanceSelfHelper] reports is the smallest of the
    background value and of all the informative samples (grid value of a
    child at a sphere centre, not the background value) minus the sphere
    radius: it is below or equal to each of them, and it is either the
    background value or one of them, in which case [link_name[1]] names the
    child it was sampled from. *)
Theorem distanceSelfHelper_reports_the_minimum (background_ : R)
    (data : DistanceField.DistanceQueryData)
    (sdfs_data : DistanceField.LinkType → nat → DistanceField.SDFData)
    (res0 : DistanceResultsData R) :
  let r := DistanceField.distanceSelfHelper background_ data sdfs_data res0 in
  let value c sp :=
    sample (sdfs_data (DistanceField.child_type c) (DistanceField.child_index c)) sp in
  (min_distance r <= background_)%R
  ∧ (∀ c sp, c ∈ DistanceField.children data → sp ∈ DistanceField.spheres data →
             informative background_ (value c sp) →
             (min_distance r <= value c sp - sp.2)%R)
  ∧ ((min_distance r = background_ ∧ (link_name r).2 = (link_name res0).2)
     ∨ (∃ c sp, c ∈ DistanceField.children data ∧ sp ∈ DistanceField.spheres data
          ∧ informative background_ (value c sp)
          ∧ min_distance r = (value c sp - sp.2)%R
          ∧ (link_name r).2 = DistanceField.child_name c)).
Proof.
  intros r value.
  destruct (distanceSelfHelper_loop_inv background_ data sdfs_data res0)
    as [Hcap Hlow Hatt _ _ _ _ _ _ _].
  assert (Hr : min_distance r
               = min_distance (DistanceField.res
                   (DistanceField.distanceSelfHelper_loop background_ data sdfs_data res0))
             ∧ link_name r
               = link_name (DistanceField.res
                   (DistanceField.distanceSelfHelper_loop background_ data sdfs_data res0))).
  { subst r. unfold DistanceField.distanceSelfHelper.
    destruct (hasGradient _); [destruct (DistanceField.Reqb _ _)|]; split; reflexivity. }
  destruct Hr as [-> ->]. auto.
Qed.

(** X10.  [distanceSelfHelper] names the parent in [link_name[0]], clears
    [hasNearestPoints] and leaves the nearest points alone.  It never clears
    [hasGradient]: a flag that is set on entry is still set on return.  When
    the flag is clear on entry and set on return, the gradient was asked for
    and the total weight is positive, so the zero-weight case can only be
    met with a flag left over from before; when the flag is clear on return
    the gradient is the one of entry. *)
Theorem distanceSelfHelper_flags (background_ : R)
    (data : DistanceField.DistanceQueryData)
    (sdfs_data : DistanceField.LinkType → nat → DistanceField.SDFData)
    (res0 : DistanceResultsData R) :
  let h := DistanceField.distanceSelfHelper_loop background_ data sdfs_data res0 in
  let r := DistanceField.distanceSelfHelper background_ data sdfs_data res0 in
  (link_name r).1 = DistanceField.parent_name data
  ∧ hasNearestPoints r = false
  ∧ nearest_points r = nearest_points res0
  ∧ (hasGradient res0 = true → hasGradient r = true)
  ∧ (hasGradient res0 = false → hasGradient r = true →
     DistanceField.query_gradient data = true ∧ (0 < DistanceField.total_weights h)%R)
  ∧ (hasGradient r = false → gradient r = gradient res0).
Proof.
  intros h r.
  destruct (distanceSelfHelper_loop_inv background_ data sdfs_data res0)
    as [_ _ _ Hpar Hpts Hgr Hnp _ Hkept Hset].
  fold h in Hpar, Hpts, Hgr, Hnp, Hkept, Hset.
  assert (Hr : link_name r = link_name (DistanceField.res h)
               ∧ hasNearestPoints r = hasNearestPoints (DistanceField.res h)
               ∧ nearest_points r = nearest_points (DistanceField.res h)
               ∧ hasGradient r = hasGradient (DistanceField.res h)
               ∧ (hasGradient r = false → gradient r = gradient (DistanceField.res h))).
  { subst r. unfold DistanceField.distanceSelfHelper. fold h.
    destruct (hasGradient (DistanceField.res h)) eqn:Hflag;
      [destruct (DistanceField.Reqb _ _)|]; simpl; rewrite ?Hflag;
      repeat split; auto; discriminate. }
  destruct Hr as (Hn & Hnear & Hp & Hflag & Hg).
  split; [rewrite Hn; exact Hpar|].
  split; [rewrite Hnear; exact Hnp|].
  split; [rewrite Hp; exact Hpts|].
  split; [intros Hold; rewrite Hflag; exact (Hkept Hold)|].
  split.
  - intros Hclear Hnow. rewrite Hflag in Hnow.
    destruct (Hset Hnow) as [Hold|Hnew]; [congruence | exact Hnew].
  - intros Hclear. rewrite (Hg Hclear). exact Hgr.
Qed.

(** ** What [distanceSelf] returns *)

Section SelfReturns.
Import DistanceField.
Local Open Scope R_scope.
Variable background : R.
Variable fresh : DistanceResultsData R.
Variable data : LinkType → nat → SDFData.

Local Abbreviation entry_of q := (distanceSelfHelper background q data fresh).

Local Abbreviation insert_entry :=
  (λ (distance : gmap string (DistanceResultsData R)) (q : DistanceQueryData),
     if negb (empty q) then map_insert (link_name (entry_of q)).1 (entry_of q) distance
     else distance).

Lemma entry_of_parent q : (link_name (entry_of q)).1 = parent_name q.
Proof.
  destruct (distanceSelfHelper_loop_inv background q data fresh)
    as [_ _ _ Hpar _ _ _ _ _ _].
  unfold distanceSelfHelper.
  destruct (hasGradient _); [destruct (Reqb _ _)|]; exact Hpar.
Qed.

Lemma entry_of_cap q : min_distance (entry_of q) <= background.
Proof.
  destruct (distanceSelfHelper_loop_inv background q data fresh)
    as [Hcap _ _ _ _ _ _ _ _ _].
  unfold distanceSelfHelper.
  destruct (hasGradient _); [destruct (Reqb _ _)|]; exact Hcap.
Qed.

Lemma map_insert_lookup {T} (k k' : string) (v : T) (m : gmap string T) :
  map_insert k v m !! k'
  = match m !! k' with
    | Some old => Some old
    | None => if decide (k = k') then Some v else None
    end.
Proof.
  unfold map_insert. destruct (m !! k) eqn:Hk.
  - destruct (m !! k') eqn:Hk'; [reflexivity|].
    case_decide; [congruence | reflexivity].
  - rewrite lookup_insert. case_decide as Heq.
    + subst k'. rewrite Hk. reflexivity.
    + destruct (m !! k'); reflexivity.
Qed.

Lemma insert_entries (qs : list DistanceQueryData) :
  ∀ m,
    let m' := foldl insert_entry m qs in
    (∀ k e, m !! k = Some e → m' !! k = Some e)
    ∧ (∀ q, q ∈ qs → empty q = false → is_Some (m' !! parent_name q))
    ∧ (∀ k e, m' !! k = Some e →
         m !! k = Some e
         ∨ ∃ q, q ∈ qs ∧ empty q = false ∧ e = entry_of q ∧ k = parent_name q).
Proof.
  induction qs as [|q qs IH]; intros m; simpl.
  - split; [auto|]. split; [|auto]. intros q Hq. inversion Hq.
  - destruct (IH (insert_entry m q)) as (Hkeep & Hnew & Hfrom).
    assert (Hstep : ∀ k,
      insert_entry m q !! k
      = match m !! k with
        | Some old => Some old
        | None => if negb (empty q) && bool_decide (parent_name q = k)
                  then Some (entry_of q) else None
        end).
    { intros k. destruct (empty q); simpl.
      - destruct (m !! k); reflexivity.
      - rewrite map_insert_lookup, entry_of_parent.
        destruct (m !! k); [reflexivity|]. case_decide; case_bool_decide; congruence. }
    split; [|split].
    + intros k e Hk. apply Hkeep. rewrite Hstep, Hk. reflexivity.
    + intros q' Hq' Hne. apply elem_of_cons in Hq' as [->|Hq']; [|auto].
      assert (Hq : is_Some (insert_entry m q !! parent_name q)).
      { rewrite Hstep. destruct (m !! parent_name q); [eauto|].
        rewrite Hne, bool_decide_eq_true_2 by reflexivity. simpl. eauto. }
      destruct Hq as [e He]. exists e. apply Hkeep, He.
    + intros k e Hk. destruct (Hfrom k e Hk) as [Hk'|(q' & Hq' & Hrest)].
      * rewrite Hstep in Hk'. destruct (m !! k) eqn:Hmk; [auto|].
        destruct (empty q) eqn:Hempty; simpl in Hk'; [discriminate|].
        case_bool_decide as Hkey; [|discriminate].
        injection Hk' as <-. right. exists q. split; [left|]. auto.
      * right. exists q'. split; [right; exact Hq' | exact Hrest].
Qed.

(** The scan for the smallest entry. *)
Local Abbreviation pick :=
  (λ '(index, d) (it : string * DistanceResultsData R),
     if Rltb (min_distance it.2) d
     then ((link_name it.2).1, min_distance it.2) else (index, d)).

Lemma pick_smallest (items : list (string * DistanceResultsData R)) :
  ∀ index d,
    let r := foldl pick (index, d) items in
    r.2 <= d
    ∧ (∀ it, it ∈ items → r.2 <= min_distance it.2)
    ∧ (r = (index, d)
       ∨ ∃ it, it ∈ items ∧ r = ((link_name it.2).1, min_distance it.2)).
Proof.
  induction items as [|it items IH]; intros index d; simpl.
  - split; [lra|]. split; [|auto]. intros it Hit. inversion Hit.
  - destruct (Rlt_dec (min_distance it.2) d) as [Hlt|Hge];
      [rewrite (Rltb_true _ _ Hlt) | rewrite (Rltb_false _ _ Hge)].
    + destruct (IH (link_name it.2).1 (min_distance it.2)) as (Hle & Hall & Hfrom).
      split; [lra|]. split.
      * intros it' Hit'. apply elem_of_cons in Hit' as [->|Hit']; auto.
      * right. destruct Hfrom as [->|(it' & Hit' & ->)].
        -- exists it. split; [left | reflexivity].
        -- exists it'. split; [right; exact Hit' | reflexivity].
    + destruct (IH index d) as (Hle & Hall & Hfrom).
      split; [lra|]. split.
      * intros it' Hit'. apply elem_of_cons in Hit' as [->|Hit']; [lra | auto].
      * destruct Hfrom as [->|(it' & Hit' & ->)]; [auto|].
        right. exists it'. split; [right; exact Hit' | reflexivity].
Qed.

End SelfReturns.

Section SelfResult.
Import DistanceField.
Local Open Scope R_scope.
Variable robot : CollisionRobotOpenVDB.
Variable fresh : DistanceResultsData R.
Variable data : LinkType → nat → SDFData.
Variable req : DistanceRequest R.
Variable res : DistanceResult R.
Variable state : RobotState.

(** The plan of the query: the stored plan with the spheres of each active
    link moved to where the link is. *)
Definition query_plan : list DistanceQueryData :=
  imap (λ i q,
          match active_links_ robot !! i with
          | Some link =>
            {| parent_name := parent_name q; children := children q;
               spheres := (λ p : Sphere, (getGlobalLinkTransform state link p.1, p.2))
                            <$> (active_spheres_ robot !!! i);
               query_gradient := req_gradient req; empty := empty q |}
          | None => q
          end) (dist_query_ robot).

(** The per-link map after the loop over the plan. *)
Definition filled_map : gmap string (DistanceResultsData R) :=
  foldl (λ distance q,
           if negb (empty q)
           then map_insert (link_name (distanceSelfHelper (background_ robot) q data fresh)).1
                           (distanceSelfHelper (background_ robot) q data fresh) distance
           else distance)
        (distance res) query_plan.

Lemma query_plan_keeps q :
  q ∈ dist_query_ robot →
  ∃ q', q' ∈ query_plan ∧ parent_name q' = parent_name q ∧ empty q' = empty q.
Proof.
  intros Hq. apply list_elem_of_lookup in Hq as [i Hi].
  eexists. split; [eapply elem_of_lookup_imap_2, Hi|].
  destruct (active_links_ robot !! i); split; reflexivity.
Qed.

(** [distanceSelf] in terms of the filled map. *)
Lemma distanceSelf_Ok res' :
  distanceSelf robot fresh data req res state = Ok res' →
  ∃ first rest index d,
    map_items filled_map = first :: rest
    ∧ foldl (λ '(index, d) (it : string * DistanceResultsData R),
               if Rltb (min_distance it.2) d
               then ((link_name it.2).1, min_distance it.2) else (index, d))
            ((link_name first.2).1, background_ robot) (map_items filled_map)
      = (index, d)
    ∧ collision res' = collision res
    ∧ match filled_map !! index with
      | Some entry => minimum_distance res' = entry ∧ distance res' = filled_map
      | None =>
        minimum_distance res' = fresh ∧ distance res' = <[index := fresh]> filled_map
      end.
Proof.
  unfold distanceSelf. destruct (getJointModelGroup _ _); [|discriminate].
  fold query_plan. cbv zeta. fold filled_map.
  destruct (map_items filled_map) as [|first rest] eqn:Hitems; [discriminate|].
  rewrite <- Hitems.
  destruct (foldl _ _ (map_items filled_map)) as [index d] eqn:Hpick.
  intros Hres. exists first, rest, index, d.
  split; [exact Hitems|]. split; [exact Hpick|].
  destruct (filled_map !! index); injection Hres as <-; simpl; auto.
Qed.

End SelfResult.

(** X11.  When [distanceSelf] returns, the collision flag is the one of
    entry, every entry the per-link map had on entry is still there
    unchanged (an active link that already had an entry keeps the old one),
    every active link whose plan entry is not empty has an entry, and the
    global minimum is one of the entries of the map. *)
Theorem distanceSelf_keeps_and_fills (robot : DistanceField.CollisionRobotOpenVDB)
    (fresh : DistanceResultsData R)
    (data : DistanceField.LinkType → nat → DistanceField.SDFData)
    (req : DistanceRequest R) (res res' : DistanceResult R)
    (state : DistanceField.RobotState) :
  DistanceField.distanceSelf robot fresh data req res state = Ok res' →
  collision res' = collision res
  ∧ (∀ k e, distance res !! k = Some e → distance res' !! k = Some e)
  ∧ (∀ q, q ∈ DistanceField.dist_query_ robot → DistanceField.empty q = false →
          is_Some (distance res' !! DistanceField.parent_name q))
  ∧ ∃ index, distance res' !! index = Some (minimum_distance res').
Proof.
  intros Hrun.
  destruct (distanceSelf_Ok robot fresh data req res state res' Hrun)
    as (first & rest & index & d & Hitems & Hpick & Hcoll & Hres).
  destruct (insert_entries (DistanceField.background_ robot) fresh data
              (query_plan robot req state) (distance res)) as (Hkeep & Hnew & _).
  change (foldl _ (distance res) (query_plan robot req state))
    with (filled_map robot fresh data req res state) in Hkeep, Hnew.
  assert (Hlater : ∀ k e, filled_map robot fresh data req res state !! k = Some e →
                          distance res' !! k = Some e).
  { intros k e Hk. destruct (filled_map robot fresh data req res state !! index) eqn:Hi.
    - destruct Hres as [_ ->]. exact Hk.
    - destruct Hres as [_ ->]. rewrite lookup_insert_ne; [exact Hk | congruence]. }
  split; [exact Hcoll|]. split; [auto|]. split.
  - intros q Hq Hne.
    destruct (query_plan_keeps robot req state q Hq) as (q' & Hq' & Hpar & Hemp).
    destruct (Hnew q') as [e He]; [exact Hq' | congruence|].
    exists e. apply Hlater. rewrite <- Hpar. exact He.
  - exists index. destruct (filled_map robot fresh data req res state !! index) eqn:Hi.
    + destruct Hres as [-> ->]. exact Hi.
    + destruct Hres as [-> ->]. apply lookup_insert_eq.
Qed.

(** X12.  When [distanceSelf] is given an empty per-link map and returns,
    every entry of the map it leaves is filed under the link named in its
    [link_name[0]], no entry is above the background value, and the global
    minimum is an entry that no other entry is below. *)
Theorem distanceSelf_selects_the_smallest (robot : DistanceField.CollisionRobotOpenVDB)
    (fresh : DistanceResultsData R)
    (data : DistanceField.LinkType → nat → DistanceField.SDFData)
    (req : DistanceRequest R) (res res' : DistanceResult R)
    (state : DistanceField.RobotState) :
  distance res = ∅ →
  DistanceField.distanceSelf robot fresh data req res state = Ok res' →
  (∃ index, distance res' !! index = Some (minimum_distance res'))
  ∧ ∀ k e, distance res' !! k = Some e →
      (link_name e).1 = k
      ∧ (min_distance e <= DistanceField.background_ robot)%R
      ∧ (min_distance (minimum_distance res') <= min_distance e)%R.
Proof.
  intros Hempty Hrun.
  destruct (distanceSelf_Ok robot fresh data req res state res' Hrun)
    as (first & rest & index & d & Hitems & Hpick & Hcoll & Hres).
  destruct (insert_entries (DistanceField.background_ robot) fresh data
              (query_plan robot req state) (distance res)) as (_ & _ & Hfrom).
  change (foldl _ (distance res) (query_plan robot req state))
    with (filled_map robot fresh data req res state) in Hfrom.
  set (m := filled_map robot fresh data req res state) in *.
  assert (Hentry : ∀ k e, m !! k = Some e →
    (link_name e).1 = k ∧ (min_distance e <= DistanceField.background_ robot)%R).
  { intros k e Hk. destruct (Hfrom k e Hk) as [Hold|(q & _ & _ & -> & ->)].
    - rewrite Hempty, lookup_empty in Hold. discriminate.
    - split; [apply entry_of_parent | apply entry_of_cap]. }
  destruct (pick_smallest (map_items m) (link_name first.2).1
              (DistanceField.background_ robot)) as (Hle & Hall & Hwhich).
  rewrite Hpick in Hle, Hall, Hwhich. simpl in Hle, Hall.
  assert (Hfirst : m !! first.1 = Some first.2).
  { apply map_items_lookup. rewrite Hitems. destruct first. left. }
  assert (Hchosen : ∃ e, m !! index = Some e ∧ ∀ k e', m !! k = Some e' →
                         (min_distance e <= min_distance e')%R).
  { destruct Hwhich as [Heq|(it & Hit & Heq)]; injection Heq as -> ->.
    - destruct (Hentry _ _ Hfirst) as [Hkey Hcap]. rewrite Hkey.
      exists first.2. split; [exact Hfirst|].
      intros k e' Hk. apply map_items_lookup in Hk. specialize (Hall _ Hk).
      simpl in Hall. lra.
    - destruct it as [k0 e0]. apply map_items_lookup in Hit.
      destruct (Hentry _ _ Hit) as [Hkey _]. simpl. rewrite Hkey.
      exists e0. split; [exact Hit|].
      intros k e' Hk. apply map_items_lookup in Hk. apply (Hall _ Hk). }
  destruct Hchosen as (e & He & Hmin). rewrite He in Hres. destruct Hres as [-> ->].
  split; [exists index; exact He|].
  intros k e' Hk. destruct (Hentry k e' Hk) as [Hkey Hcap].
  split; [exact Hkey|]. split; [exact Hcap | exact (Hmin k e' Hk)].
Qed.

Section SelfDefined.
Import DistanceField.
Local Open Scope R_scope.
Variable robot : CollisionRobotOpenVDB.
Variable fresh : DistanceResultsData R.
Variable data : LinkType → nat → SDFData.
Variable req : DistanceRequest R.
Variable res : DistanceResult R.
Variable state : RobotState.

Lemma query_plan_from q' :
  q' ∈ query_plan robot req state →
  ∃ q, q ∈ dist_query_ robot ∧ parent_name q' = parent_name q ∧ empty q' = empty q.
Proof.
  intros Hq'. apply elem_of_lookup_imap in Hq' as (i & q & -> & Hi).
  exists q. split; [eapply list_elem_of_lookup_2, Hi|].
  destruct (active_links_ robot !! i); split; reflexivity.
Qed.

Lemma filled_map_nonempty :
  (∃ k e, filled_map robot fresh data req res state !! k = Some e) ↔
  distance res ≠ ∅ ∨ ∃ q, q ∈ dist_query_ robot ∧ empty q = false.
Proof.
  destruct (insert_entries (background_ robot) fresh data
              (query_plan robot req state) (distance res)) as (Hkeep & Hnew & Hfrom).
  change (foldl _ (distance res) (query_plan robot req state))
    with (filled_map robot fresh data req res state) in Hkeep, Hnew, Hfrom.
  split.
  - intros (k & e & Hk). destruct (Hfrom k e Hk) as [Hold|(q' & Hq' & Hne & _)].
    + left. intros Hempty. rewrite Hempty, lookup_empty in Hold. discriminate.
    + right. destruct (query_plan_from q' Hq') as (q & Hq & _ & Hemp).
      exists q. split; [exact Hq | congruence].
  - intros [Hne|(q & Hq & Hne)].
    + destruct (map_choose _ Hne) as (k & e & Hk). exists k, e. auto.
    + destruct (query_plan_keeps robot req state q Hq) as (q' & Hq' & _ & Hemp).
      destruct (Hnew q') as [e He]; [exact Hq' | congruence|]. eauto.
Qed.

Lemma distanceSelf_defined :
  (∃ res', distanceSelf robot fresh data req res state = Ok res') ↔
  is_Some (getJointModelGroup (robot_model_ robot) (group_name req))
  ∧ (distance res ≠ ∅ ∨ ∃ q, q ∈ dist_query_ robot ∧ empty q = false).
Proof.
  rewrite <- filled_map_nonempty. split.
  - intros [res' Hrun]. split.
    + unfold distanceSelf in Hrun.
      destruct (getJointModelGroup _ _); [eauto | discriminate].
    + destruct (distanceSelf_Ok robot fresh data req res state res' Hrun)
        as ([k e] & rest & _ & _ & Hitems & _).
      exists k, e. apply map_items_lookup. rewrite Hitems. left.
  - intros [[group Hgroup] (k & e & Hk)].
    unfold distanceSelf. rewrite Hgroup.
    fold (query_plan robot req state). cbv zeta.
    fold (filled_map robot fresh data req res state).
    apply map_items_lookup in Hk.
    destruct (map_items (filled_map robot fresh data req res state)) as [|first rest];
      [inversion Hk|].
    destruct (foldl _ _ (first :: rest)) as [index d].
    destruct (filled_map robot fresh data req res state !! index); eauto.
Qed.

Lemma distanceSelf_not_Fatal diagnostic :
  distanceSelf robot fresh data req res state ≠ Fatal diagnostic.
Proof.
  unfold distanceSelf. destruct (getJointModelGroup _ _); [|discriminate].
  cbv zeta. destruct (map_items _); [discriminate|].
  destruct (foldl _ _ _) as [index d].
  destruct (_ !! index); discriminate.
Qed.

End SelfDefined.

(** X13.  [distanceSelf] returns exactly when the model has the group the
    request names and the per-link map is not empty after the loop over the
    plan, that is, when the map had an entry on entry or some plan entry is
    not empty; in no case does it stop with a diagnostic. *)
Theorem distanceSelf_returns_iff (robot : DistanceField.CollisionRobotOpenVDB)
    (fresh : DistanceResultsData R)
    (data : DistanceField.LinkType → nat → DistanceField.SDFData)
    (req : DistanceRequest R) (res : DistanceResult R)
    (state : DistanceField.RobotState) :
  ((∃ res', DistanceField.distanceSelf robot fresh data req res state = Ok res') ↔
   is_Some (getJointModelGroup (DistanceField.robot_model_ robot) (group_name req))
   ∧ (distance res ≠ ∅
      ∨ ∃ q, q ∈ DistanceField.dist_query_ robot ∧ DistanceField.empty q = false))
  ∧ ∀ diagnostic,
      DistanceField.distanceSelf robot fresh data req res state ≠ Fatal diagnostic.
Proof.
  split; [apply distanceSelf_defined | apply distanceSelf_not_Fatal].
Qed.

Module SelfRuns.
Import DistanceField.
Local Open Scope R_scope.

(** A fit that finds two spheres. *)
Definition fill_two_spheres (sdf : OpenVDBDistanceField) (old : list Sphere) : list Sphere :=
  [((0, 0, 0), 1); ((1, 0, 0), 1)].

(** A result that still holds an entry for [link_1] from an earlier query. *)
Definition used_result : DistanceResult R :=
  {| collision := false; minimum_distance := SelfExamples.fresh;
     distance := {[ "link_1" := SelfExamples.fresh ]} |}.

End SelfRuns.

(** The theorem at the robot of [Examples.arm_on_base] with two spheres on
    each arm link, queried with a result that still holds an entry for
    [link_1]: the plan has a non-empty entry for [link_1] and for [link_2];
    the entry of [link_1] is the old one, [link_2] gets one. *)
Lemma distanceSelf_keeps_and_fills_witness :
  ∃ robot res',
    DistanceField.CollisionRobotOpenVDB_new Examples.arm_on_base 1 10
      SelfRuns.fill_two_spheres = Some (Ok robot)
    ∧ DistanceField.parent_name <$> DistanceField.dist_query_ robot = ["link_1"; "link_2"]
    ∧ DistanceField.empty <$> DistanceField.dist_query_ robot = [false; false]
    ∧ DistanceField.distanceSelf robot SelfExamples.fresh
        (λ _ _, SelfExamples.far_away 10) (SelfExamples.request "arm")
        SelfRuns.used_result SelfExamples.home = Ok res'
    ∧ distance res' !! "link_1" = Some SelfExamples.fresh
    ∧ is_Some (distance res' !! "link_2")
    ∧ collision res' = collision SelfRuns.used_result
    ∧ (∀ k e, distance SelfRuns.used_result !! k = Some e → distance res' !! k = Some e)
    ∧ (∀ q, q ∈ DistanceField.dist_query_ robot → DistanceField.empty q = false →
            is_Some (distance res' !! DistanceField.parent_name q))
    ∧ ∃ index, distance res' !! index = Some (minimum_distance res').
Proof.
  assert (Hnew : ∃ robot,
    DistanceField.CollisionRobotOpenVDB_new Examples.arm_on_base 1 10
      SelfRuns.fill_two_spheres = Some (Ok robot)
    ∧ DistanceField.robot_model_ robot = Examples.arm_on_base
    ∧ DistanceField.parent_name <$> DistanceField.dist_query_ robot = ["link_1"; "link_2"]
    ∧ DistanceField.empty <$> DistanceField.dist_query_ robot = [false; false]).
  { unfold DistanceField.CollisionRobotOpenVDB_new.
    replace (Classifier.createStaticSDFs Examples.arm_on_base)
      with (Some ["base_link"]) by (vm_compute; reflexivity).
    simpl. eexists. split; [reflexivity|]. simpl. repeat split; reflexivity. }
  destruct Hnew as (robot & Hnew & Hmodel & Hparents & Hplan).
  destruct (proj2 (distanceSelf_defined robot SelfExamples.fresh
                     (λ _ _, SelfExamples.far_away 10) (SelfExamples.request "arm")
                     SelfRuns.used_result SelfExamples.home)) as [res' Hrun].
  { split.
    - rewrite Hmodel. eexists. reflexivity.
    - right. destruct (DistanceField.dist_query_ robot) as [|q qs]; [discriminate|].
      injection Hplan as Hq _. exists q. split; [left | exact Hq]. }
  pose proof (distanceSelf_keeps_and_fills robot SelfExamples.fresh _ _ _ res' _ Hrun)
    as Hall.
  destruct Hall as (Hcollision & Hkeep & Hfill & Hmin).
  exists robot, res'. split; [exact Hnew|]. split; [exact Hparents|].
  split; [exact Hplan|]. split; [exact Hrun|].
  split; [apply Hkeep; reflexivity|]. split.
  - destruct (DistanceField.dist_query_ robot) as [|q1 [|q2 qs]]; try discriminate.
    injection Hparents as _ Hname _. injection Hplan as _ Hempty _.
    rewrite <- Hname. apply Hfill; [right; left | exact Hempty].
  - split; [exact Hcollision|]. split; [exact Hkeep|]. split; [exact Hfill | exact Hmin].
Defined.

Lemma distanceSelf_selects_the_smallest_witness :
  ∃ robot res',
    DistanceField.CollisionRobotOpenVDB_new Examples.arm_on_base 1 10
      SelfRuns.fill_two_spheres = Some (Ok robot)
    ∧ DistanceField.distanceSelf robot SelfExamples.fresh
        (λ _ _, SelfExamples.far_away 10) (SelfExamples.request "arm")
        SelfExamples.empty_result SelfExamples.home = Ok res'
    ∧ (∃ index, distance res' !! index = Some (minimum_distance res'))
    ∧ ∀ k e, distance res' !! k = Some e →
        (link_name e).1 = k
        ∧ (min_distance e <= DistanceField.background_ robot)%R
        ∧ (min_distance (minimum_distance res') <= min_distance e)%R.
Proof.
  assert (Hnew : ∃ robot,
    DistanceField.CollisionRobotOpenVDB_new Examples.arm_on_base 1 10
      SelfRuns.fill_two_spheres = Some (Ok robot)
    ∧ DistanceField.robot_model_ robot = Examples.arm_on_base
    ∧ DistanceField.empty <$> DistanceField.dist_query_ robot = [false; false]).
  { unfold DistanceField.CollisionRobotOpenVDB_new.
    replace (Classifier.createStaticSDFs Examples.arm_on_base)
      with (Some ["base_link"]) by (vm_compute; reflexivity).
    simpl. eexists. split; [reflexivity|]. simpl. split; reflexivity. }
  destruct Hnew as (robot & Hnew & Hmodel & Hplan).
  destruct (proj2 (distanceSelf_defined robot SelfExamples.fresh
                     (λ _ _, SelfExamples.far_away 10) (SelfExamples.request "arm")
                     SelfExamples.empty_result SelfExamples.home)) as [res' Hrun].
  { split.
    - rewrite Hmodel. eexists. reflexivity.
    - right. destruct (DistanceField.dist_query_ robot) as [|q qs]; [discriminate|].
      injection Hplan as Hq _. exists q. split; [left | exact Hq]. }
  exists robot, res'. split; [exact Hnew|]. split; [exact Hrun|].
  exact (distanceSelf_selects_the_smallest robot SelfExamples.fresh _ _
           SelfExamples.empty_result res' _ eq_refl Hrun).
Defined.

(** ** Loading from a file and the sphere markers *)

Module FieldStore.
Import DistanceField.
Local Open Scope R_scope.

Definition voxel_size_meta_name : string := "voxel_size".
Definition background_meta_name : string := "background".
Definition ex_bandwidth_meta_name : string := "exBandWidth".
Definition in_bandwidth_meta_name : string := "inBandWidth".

(** An [openvdb::io::File] after [open()]: whether it is open, and what
    [getGrids()] and [getMetadata()] hand back ([None] for a null pointer). *)
Record VdbFile := {
  isOpen : bool;
  getGrids : option (list OpenVDBDistanceField);
  getMetadata : option (gmap string R);
}.

(** [readFromFile]; [files] is the file system. *)
Definition readFromFile (files : string → VdbFile) (file_path : string)
  : outcome (list OpenVDBDistanceField * gmap string R) :=
  let file := files file_path in
  if negb (isOpen file)
  then Fatal ("Unable to load openvdb models from file: " +:+ file_path)
  else
    match getGrids file with
    | None => Fatal ("Unable to load any grids from file " +:+ file_path)
    | Some grids =>
      match getMetadata file with
      | None => Fatal ("Unable to load meta-data from file: " +:+ file_path)
      | Some metadata => Ok (grids, metadata)
      end
    end.

(** [MetaMap::metaValue<float>(name)], which throws when there is no such
    value. *)
Definition metaValue (metadata : gmap string R) (name : string) : outcome R :=
  match metadata !! name with
  | Some value => Ok value
  | None => Fatal ("Cannot find metadata " +:+ name)
  end.

(** The constructor that takes a file path. *)
Definition CollisionRobotOpenVDB_load (files : string → VdbFile)
    (model : RobotModel) (file_path : string) : outcome CollisionRobotOpenVDB :=
  (* Step 1: Load the OpenVDB archive *)
  grid_data <~ readFromFile files file_path ;;
  let metadata := grid_data.2 in
  (* Step 2: Process meta-data at the file level *)
  voxel_size_ <~ metaValue metadata voxel_size_meta_name ;;
  background_ <~ metaValue metadata background_meta_name ;;
  exBandWidth_ <~ metaValue metadata ex_bandwidth_meta_name ;;
  inBandWidth_ <~ metaValue metadata in_bandwidth_meta_name ;;
  (* Step 4: Perform sanity checking *)
  Fatal "Not implemented".

(** A [visualization_msgs::Marker] made by [toSphere(combined, id)]. *)
Record Marker := { marker_id : nat; marker_origin : Vec3; marker_radius : R }.

Definition toSphere (sphere : Sphere) (id : nat) : Marker :=
  {| marker_id := id; marker_origin := sphere.1; marker_radius := sphere.2 |}.

(** The spheres of active link [i], moved into the world frame. *)
Definition world_spheres (robot : CollisionRobotOpenVDB) (state : RobotState)
    (i : nat) (link : LinkModel) : list Sphere :=
  (λ p : Sphere, (getGlobalLinkTransform state link p.1, p.2))
    <$> (active_spheres_ robot !!! i).

(** [spheresToVisualizationMarkers]: the markers and the next free id. *)
Definition spheresToVisualizationMarkers_loop (robot : CollisionRobotOpenVDB)
    (state : RobotState) : list Marker * nat :=
  foldl (λ '(ma, marker_id) '(i, link),
           foldl (λ '(ma, marker_id) sphere,
                    (ma ++ [toSphere sphere marker_id], S marker_id))
                 (ma, marker_id) (world_spheres robot state i link))
        ([], 0%nat) (imap pair (active_links_ robot)).

Definition spheresToVisualizationMarkers (robot : CollisionRobotOpenVDB)
    (state : RobotState) : list Marker :=
  (spheresToVisualizationMarkers_loop robot state).1.

End FieldStore.

(** X14.  The constructor that takes a file path never returns a robot
    and never leaves defined behaviour: it always ends in an exception.  A
    file that does not open, or that lacks its grids or its meta-data, is
    reported with the file path; a file that has everything ends in "Not
    implemented". *)
Theorem file_constructor_always_throws (files : string → FieldStore.VdbFile)
    (model : RobotModel) (file_path : string) :
  let file := files file_path in
  (∃ diagnostic,
     FieldStore.CollisionRobotOpenVDB_load files model file_path = Fatal diagnostic)
  ∧ (FieldStore.isOpen file = false →
     FieldStore.CollisionRobotOpenVDB_load files model file_path
     = Fatal ("Unable to load openvdb models from file: " +:+ file_path))
  ∧ (FieldStore.isOpen file = true → FieldStore.getGrids file = None →
     FieldStore.CollisionRobotOpenVDB_load files model file_path
     = Fatal ("Unable to load any grids from file " +:+ file_path))
  ∧ (FieldStore.isOpen file = true → is_Some (FieldStore.getGrids file) →
     FieldStore.getMetadata file = None →
     FieldStore.CollisionRobotOpenVDB_load files model file_path
     = Fatal ("Unable to load meta-data from file: " +:+ file_path))
  ∧ (∀ metadata,
       FieldStore.isOpen file = true → is_Some (FieldStore.getGrids file) →
       FieldStore.getMetadata file = Some metadata →
       is_Some (metadata !! "voxel_size") → is_Some (metadata !! "background") →
       is_Some (metadata !! "exBandWidth") → is_Some (metadata !! "inBandWidth") →
       FieldStore.CollisionRobotOpenVDB_load files model file_path
       = Fatal "Not implemented").
Proof.
  intros file. subst file.
  unfold FieldStore.CollisionRobotOpenVDB_load, FieldStore.readFromFile,
    FieldStore.metaValue.
  repeat split.
  - destruct (FieldStore.isOpen _); simpl; [|eauto].
    destruct (FieldStore.getGrids _); simpl; [|eauto].
    destruct (FieldStore.getMetadata _) as [metadata|]; simpl; [|eauto].
    repeat (match goal with
            | |- context [metadata !! ?name] => destruct (metadata !! name); simpl
            end; [|eauto]).
    eauto.
  - intros ->. reflexivity.
  - intros -> ->. reflexivity.
  - intros -> [grids ->] ->. reflexivity.
  - intros metadata -> [grids ->] -> [v1 H1] [v2 H2] [v3 H3] [v4 H4]. simpl.
    unfold FieldStore.voxel_size_meta_name, FieldStore.background_meta_name,
      FieldStore.ex_bandwidth_meta_name, FieldStore.in_bandwidth_meta_name.
    rewrite H1. simpl. rewrite H2. simpl. rewrite H3. simpl. rewrite H4. reflexivity.
Qed.

Section Markers.
Import DistanceField FieldStore.
Variable robot : CollisionRobotOpenVDB.
Variable state : RobotState.

Lemma markers_of_link (spheres : list Sphere) :
  ∀ ma marker_id,
    foldl (λ '(ma, marker_id) sphere, (ma ++ [toSphere sphere marker_id], S marker_id))
          (ma, marker_id) spheres
    = (ma ++ imap (λ n sphere, toSphere sphere (marker_id + n)) spheres,
       marker_id + length spheres).
Proof.
  induction spheres as [|sphere spheres IH]; intros ma marker_id; simpl.
  - rewrite app_nil_r, Nat.add_0_r. reflexivity.
  - rewrite IH, <- app_assoc. simpl. rewrite Nat.add_0_r.
    assert (Himap : imap (λ n sphere0, toSphere sphere0 (S (marker_id + n))) spheres
                    = imap ((λ n sphere0, toSphere sphere0 (marker_id + n)) ∘ S) spheres).
    { apply imap_ext. intros n x _. simpl. f_equal. lia. }
    rewrite Himap, Nat.add_succ_r. reflexivity.
Qed.

Lemma markers_of_links (links : list (nat * LinkModel)) :
  ∀ ma marker_id,
    let all := links ≫= (λ '(i, link), world_spheres robot state i link) in
    foldl (λ '(ma, marker_id) '(i, link),
             foldl (λ '(ma, marker_id) sphere,
                      (ma ++ [toSphere sphere marker_id], S marker_id))
                   (ma, marker_id) (world_spheres robot state i link))
          (ma, marker_id) links
    = (ma ++ imap (λ n sphere, toSphere sphere (marker_id + n)) all,
       marker_id + length all).
Proof.
  induction links as [|[i link] links IH]; intros ma marker_id; simpl.
  - rewrite app_nil_r, Nat.add_0_r. reflexivity.
  - rewrite markers_of_link, IH. rewrite <- app_assoc, imap_app, length_app.
    assert (Himap :
      imap (λ n sphere, toSphere sphere
                          (marker_id + length (world_spheres robot state i link) + n))
           (links ≫= (λ '(i0, link0), world_spheres robot state i0 link0))
      = imap (λ n sphere, toSphere sphere
                            (marker_id + (length (world_spheres robot state i link) + n)))
             (links ≫= (λ '(i0, link0), world_spheres robot state i0 link0))).
    { apply imap_ext. intros n x _. simpl. f_equal. lia. }
    rewrite Himap, Nat.add_assoc. reflexivity.
Qed.

End Markers.

(** X15.  [spheresToVisualizationMarkers] makes one marker per sphere of
    every active link, in the order of the links and of their spheres, each
    at the sphere's centre moved by the link's transform and with the
    sphere's radius; the marker ids are 0, 1, 2, ... without gap or
    repetition. *)
Theorem sphere_markers_are_numbered (robot : DistanceField.CollisionRobotOpenVDB)
    (state : DistanceField.RobotState) :
  let all :=
    imap pair (DistanceField.active_links_ robot)
      ≫= (λ '(i, link), FieldStore.world_spheres robot state i link) in
  let markers := FieldStore.spheresToVisualizationMarkers robot state in
  FieldStore.marker_id <$> markers = seq 0 (length all)
  ∧ (λ m, (FieldStore.marker_origin m, FieldStore.marker_radius m)) <$> markers = all.
Proof.
  intros all markers. subst markers.
  unfold FieldStore.spheresToVisualizationMarkers,
    FieldStore.spheresToVisualizationMarkers_loop.
  rewrite markers_of_links. simpl. subst all.
  set (all := _ ≫= _). clearbody all. split.
  - rewrite fmap_imap. transitivity (imap (λ (n : nat) (_ : DistanceField.Sphere), n) all).
    + apply imap_ext. reflexivity.
    + rewrite (imap_seq_0 all (λ n, n)). apply list_fmap_id.
  - rewrite fmap_imap. transitivity (imap (const (λ s : DistanceField.Sphere, s)) all).
    + apply imap_ext. intros n [origin radius] _. reflexivity.
    + rewrite imap_const. apply list_fmap_id.
Qed.

(** ** [getDistanceInfo] as a whole *)

Section GetDistanceInfoRun.
Import CollisionCommon.
Variable normalize : Vector3d → Vector3d.
Variable dist_info0 : DistanceInfo.
Variable tf : Vector3d → Vector3d.

Local Abbreviation step := (getDistanceInfo_step normalize dist_info0 tf).

(** What the loop body leaves in [dist_info] for the entry under [key]. *)
Definition dist_info_of (key : string) (dist : DistanceResultsData Q) : DistanceInfo :=
  if bool_decide ((link_name dist).1 = key) then
    {| nearest_obsticle := (link_name dist).2;
       link_point := tf (nearest_points dist).1;
       obsticle_point := tf (nearest_points dist).2;
       avoidance_vector :=
         normalize (vsub (tf (nearest_points dist).1) (tf (nearest_points dist).2));
       info_distance := min_distance dist |}
  else if bool_decide ((link_name dist).2 = key) then
    {| nearest_obsticle := (link_name dist).1;
       link_point := tf (nearest_points dist).2;
       obsticle_point := tf (nearest_points dist).1;
       avoidance_vector :=
         normalize (vsub (tf (nearest_points dist).2) (tf (nearest_points dist).1));
       info_distance := min_distance dist |}
  else dist_info0.

Definition is_mismatched (it : string * DistanceResultsData Q) : Prop :=
  (link_name it.2).1 ≠ it.1 ∧ (link_name it.2).2 ≠ it.1.

#[local] Instance is_mismatched_dec it : Decision (is_mismatched it).
Proof. unfold is_mismatched. apply _. Defined.

Definition error_text : string := "getDistanceInfo was unable to find link after match!".

Lemma step_fields s it :
  distance_info_map (step s it)
  = map_insert it.1 (dist_info_of it.1 it.2) (distance_info_map s)
  ∧ status (step s it) = status s && negb (bool_decide (is_mismatched it))
  ∧ ros_errors (step s it)
    = ros_errors s ++ (if bool_decide (is_mismatched it) then [error_text] else []).
Proof.
  unfold getDistanceInfo_step, dist_info_of.
  destruct (decide ((link_name it.2).1 = it.1)) as [H1|H1].
  - rewrite (bool_decide_eq_true_2 _ H1).
    rewrite (bool_decide_eq_false_2 (is_mismatched it)) by (intros [? ?]; congruence).
    simpl. rewrite andb_true_r, app_nil_r. auto.
  - rewrite (bool_decide_eq_false_2 _ H1).
    destruct (decide ((link_name it.2).2 = it.1)) as [H2|H2].
    + rewrite (bool_decide_eq_true_2 _ H2).
      rewrite (bool_decide_eq_false_2 (is_mismatched it)) by (intros [? ?]; congruence).
      simpl. rewrite andb_true_r, app_nil_r. auto.
    + rewrite (bool_decide_eq_false_2 _ H2).
      rewrite (bool_decide_eq_true_2 (is_mismatched it)) by (split; assumption).
      simpl. auto.
Qed.

Lemma steps_fields l :
  ∀ s,
    status (foldl step s l)
    = status s && bool_decide (Forall (λ it, ¬ is_mismatched it) l)
    ∧ ros_errors (foldl step s l)
      = ros_errors s ++ replicate (length (filter is_mismatched l)) error_text
    ∧ dom (distance_info_map (foldl step s l))
      = dom (distance_info_map s) ∪ list_to_set l.*1
    ∧ ∀ key info, distance_info_map s !! key = Some info →
                  distance_info_map (foldl step s l) !! key = Some info.
Proof.
  induction l as [|it l IH]; intros s; simpl.
  - rewrite andb_true_r, app_nil_r, union_empty_r_L. auto.
  - destruct (IH (step s it)) as (Hst & Herr & Hdom & Hkeep).
    destruct (step_fields s it) as (Hmap1 & Hst1 & Herr1).
    rewrite Hst, Herr, Hdom, Hst1, Herr1, Hmap1. repeat split.
    + rewrite <- andb_assoc. f_equal.
      destruct (decide (is_mismatched it)) as [Hm|Hm].
      * rewrite (bool_decide_eq_true_2 _ Hm). simpl. symmetry.
        apply bool_decide_eq_false_2. intros HF. apply Forall_cons in HF as [HF _]. tauto.
      * rewrite (bool_decide_eq_false_2 _ Hm). simpl.
        apply bool_decide_ext. rewrite Forall_cons. tauto.
    + rewrite <- app_assoc. f_equal.
      rewrite filter_cons. destruct (decide (is_mismatched it)) as [Hm|Hm].
      * rewrite (bool_decide_eq_true_2 _ Hm). reflexivity.
      * rewrite (bool_decide_eq_false_2 _ Hm). reflexivity.
    + unfold map_insert. destruct (distance_info_map s !! it.1) eqn:Hk.
      * apply elem_of_dom_2 in Hk. apply set_eq. intros x.
        rewrite !elem_of_union, elem_of_singleton. split; [tauto|].
        intros [?|[->|?]]; auto.
      * rewrite dom_insert_L. apply set_eq. intros x.
        rewrite !elem_of_union, elem_of_singleton. tauto.
    + intros key info Hkey. apply Hkeep. rewrite Hmap1.
      unfold map_insert. destruct (distance_info_map s !! it.1) eqn:Hk; [exact Hkey|].
      rewrite lookup_insert_ne; [exact Hkey | congruence].
Qed.

Lemma getDistanceInfo_lookup distance_detailed out key dist :
  distance_detailed !! key = Some dist → out !! key = None →
  distance_info_map (getDistanceInfo normalize dist_info0 tf distance_detailed out) !! key
  = Some (dist_info_of key dist).
Proof.
  intros Hin Hout. unfold getDistanceInfo.
  pose proof (map_items_NoDup distance_detailed) as Hnd.
  apply map_items_lookup, list_elem_of_split in Hin as (l1 & l2 & Heq).
  rewrite Heq in *. clear Heq.
  rewrite fmap_app, fmap_cons in Hnd. simpl in Hnd.
  apply NoDup_app in Hnd as (_ & Hl1 & Hnd).
  apply NoDup_cons in Hnd as [Hl2 _].
  rewrite foldl_app. simpl.
  rewrite (steps_other_key normalize dist_info0 tf) by assumption.
  destruct (step_fields (foldl step {| distance_info_map := out; status := true;
                                       ros_errors := [] |} l1) (key, dist))
    as (-> & _). simpl.
  unfold map_insert. rewrite (steps_other_key normalize dist_info0 tf).
  - simpl. rewrite Hout. apply lookup_insert_eq.
  - intros Hk. apply (Hl1 key Hk). left.
Qed.

Lemma getDistanceInfo_fields distance_detailed out :
  let r := getDistanceInfo normalize dist_info0 tf distance_detailed out in
  (status r = true ↔
   ∀ key dist, distance_detailed !! key = Some dist →
               (link_name dist).1 = key ∨ (link_name dist).2 = key)
  ∧ ros_errors r
    = replicate (length (filter is_mismatched (map_to_list distance_detailed))) error_text
  ∧ dom (distance_info_map r) = dom out ∪ dom distance_detailed
  ∧ ∀ key info, out !! key = Some info → distance_info_map r !! key = Some info.
Proof.
  intros r. subst r. unfold getDistanceInfo.
  destruct (steps_fields (map_items distance_detailed)
              {| distance_info_map := out; status := true; ros_errors := [] |})
    as (Hst & Herr & Hdom & Hkeep).
  simpl in *. repeat split.
  - rewrite Hst. intros HF%bool_decide_eq_true_1 key dist Hin.
    apply map_items_lookup in Hin. rewrite Forall_forall in HF.
    specialize (HF _ Hin). unfold is_mismatched in HF. simpl in HF.
    destruct (decide ((link_name dist).1 = key)); [tauto|].
    destruct (decide ((link_name dist).2 = key)); tauto.
  - intros Hall. rewrite Hst. apply bool_decide_eq_true_2, Forall_forall.
    intros [key dist] Hin%map_items_lookup [H1 H2]. simpl in *.
    destruct (Hall key dist Hin); congruence.
  - rewrite Herr. f_equal. unfold map_items.
    apply Permutation_length, filter_Permutation, merge_sort_Permutation.
  - rewrite Hdom. f_equal. apply set_eq. intros key.
    rewrite elem_of_list_to_set, elem_of_dom, list_elem_of_fmap. split.
    + intros ([k d] & -> & Hin%map_items_lookup). eauto.
    + intros [d Hd]. exists (key, d). split; [reflexivity|].
      apply map_items_lookup, Hd.
  - exact Hkeep.
Qed.

End GetDistanceInfoRun.

(** X16.  [getDistanceInfo] returns [true] exactly when every entry of
    [distance_detailed] names its key in [link_name[0]] or [link_name[1]];
    it logs the error once for each entry that does not, and nothing else,
    so it returns [true] exactly when it logged nothing.  What the output
    map held before plays no part. *)
Theorem getDistanceInfo_status_and_errors
    (normalize tf : CollisionCommon.Vector3d → CollisionCommon.Vector3d)
    (dist_info0 : CollisionCommon.DistanceInfo)
    (distance_detailed : gmap string (DistanceResultsData Q))
    (out : gmap string CollisionCommon.DistanceInfo) :
  let r := CollisionCommon.getDistanceInfo normalize dist_info0 tf distance_detailed out in
  let unmatched :=
    filter (λ it : string * DistanceResultsData Q,
              (link_name it.2).1 ≠ it.1 ∧ (link_name it.2).2 ≠ it.1)
           (map_to_list distance_detailed) in
  (CollisionCommon.status r = true ↔
   ∀ key dist, distance_detailed !! key = Some dist →
               (link_name dist).1 = key ∨ (link_name dist).2 = key)
  ∧ CollisionCommon.ros_errors r
    = replicate (length unmatched) "getDistanceInfo was unable to find link after match!"
  ∧ (CollisionCommon.status r = true ↔ CollisionCommon.ros_errors r = []).
Proof.
  intros r unmatched.
  destruct (getDistanceInfo_fields normalize dist_info0 tf distance_detailed out)
    as (Hst & Herr & _).
  fold r in Hst, Herr.
  assert (Herr' : CollisionCommon.ros_errors r
                  = replicate (length unmatched) error_text).
  { rewrite Herr. reflexivity. }
  split; [exact Hst|]. split; [exact Herr'|].
  rewrite Herr', Hst. split.
  - intros Hall. destruct unmatched as [|[key dist] rest] eqn:Hun; [reflexivity|].
    assert (Hin : (key, dist) ∈ unmatched) by (rewrite Hun; left).
    apply list_elem_of_filter in Hin as [[H1 H2] Hin]. simpl in *.
    apply elem_of_map_to_list in Hin. destruct (Hall key dist Hin); congruence.
  - intros Hnil key dist Hin.
    destruct (decide ((link_name dist).1 = key)) as [|H1]; [auto|].
    destruct (decide ((link_name dist).2 = key)) as [|H2]; [auto|].
    assert (Hmem : (key, dist) ∈ unmatched).
    { apply list_elem_of_filter. split; [split; assumption|].
      apply elem_of_map_to_list, Hin. }
    destruct unmatched; [inversion Hmem | discriminate Hnil].
Qed.

(** X17.  [getDistanceInfo] never changes or removes an entry that the
    output map already has ([std::map::insert] does not overwrite), and
    afterwards the keys of the output map are those it had together with
    all keys of [distance_detailed], matched or not. *)
Theorem getDistanceInfo_keeps_the_output_map
    (normalize tf : CollisionCommon.Vector3d → CollisionCommon.Vector3d)
    (dist_info0 : CollisionCommon.DistanceInfo)
    (distance_detailed : gmap string (DistanceResultsData Q))
    (out : gmap string CollisionCommon.DistanceInfo) :
  let r := CollisionCommon.getDistanceInfo normalize dist_info0 tf distance_detailed out in
  dom (CollisionCommon.distance_info_map r) = dom out ∪ dom distance_detailed
  ∧ ∀ key info, out !! key = Some info →
                CollisionCommon.distance_info_map r !! key = Some info.
Proof.
  intros r.
  destruct (getDistanceInfo_fields normalize dist_info0 tf distance_detailed out)
    as (_ & _ & Hdom & Hkeep).
  split; [exact Hdom | exact Hkeep].
Qed.

(** X18.  For a key the output map does not have yet, the entry made by
    [getDistanceInfo] is seen from the key's side: if the key is
    [link_name[0]] the obstacle is [link_name[1]], the link point is the
    transformed first nearest point and the obstacle point the transformed
    second one; if the key is only [link_name[1]] the roles are exchanged.
    In both cases the avoidance vector is the normalised difference link
    point minus obstacle point and the distance is the recorded one. *)
Theorem getDistanceInfo_orients_entry
    (normalize tf : CollisionCommon.Vector3d → CollisionCommon.Vector3d)
    (dist_info0 : CollisionCommon.DistanceInfo)
    (distance_detailed : gmap string (DistanceResultsData Q))
    (out : gmap string CollisionCommon.DistanceInfo)
    (key : string) (dist : DistanceResultsData Q) :
  let r := CollisionCommon.getDistanceInfo normalize dist_info0 tf distance_detailed out in
  let p0 := tf (nearest_points dist).1 in
  let p1 := tf (nearest_points dist).2 in
  distance_detailed !! key = Some dist →
  out !! key = None →
  ((link_name dist).1 = key →
   CollisionCommon.distance_info_map r !! key
   = Some {| CollisionCommon.nearest_obsticle := (link_name dist).2;
             CollisionCommon.link_point := p0;
             CollisionCommon.obsticle_point := p1;
             CollisionCommon.avoidance_vector := normalize (CollisionCommon.vsub p0 p1);
             CollisionCommon.info_distance := min_distance dist |})
  ∧ ((link_name dist).1 ≠ key → (link_name dist).2 = key →
     CollisionCommon.distance_info_map r !! key
     = Some {| CollisionCommon.nearest_obsticle := (link_name dist).1;
               CollisionCommon.link_point := p1;
               CollisionCommon.obsticle_point := p0;
               CollisionCommon.avoidance_vector := normalize (CollisionCommon.vsub p1 p0);
               CollisionCommon.info_distance := min_distance dist |}).
Proof.
  intros r p0 p1 Hin Hout. subst r.
  rewrite (getDistanceInfo_lookup normalize dist_info0 tf _ _ _ _ Hin Hout).
  unfold dist_info_of. split.
  - intros H1. rewrite (bool_decide_eq_true_2 _ H1). reflexivity.
  - intros H1 H2. rewrite (bool_decide_eq_false_2 _ H1), (bool_decide_eq_true_2 _ H2).
    reflexivity.
Qed.

Module InfoExamples.
Import CollisionCommon.
Local Open Scope Q_scope.

Definition unassigned : DistanceInfo :=
  {| nearest_obsticle := ""; link_point := (0, 0, 0); obsticle_point := (0, 0, 0);
     avoidance_vector := (0, 0, 0); info_distance := 0 |}.

(** The pair ([link_1], [box]) at distance 1 along x, on record for [box]. *)
Definition box_record : DistanceResultsData Q :=
  {| min_distance := 1; nearest_points := ((1, 0, 0), (2, 0, 0));
     link_name := ("link_1", "box"); hasGradient := false; gradient := (0, 0, 0);
     hasNearestPoints := true |}.

(* the identity: the transform of the one-argument overload, and the
   normalisation of a vector that has length 1 already *)
Definition keep : Vector3d → Vector3d := λ v, v.

End InfoExamples.

(** The theorem at a map whose only entry, under the key "box", records the
    pair ("link_1", "box"). *)
Lemma getDistanceInfo_orients_entry_witness :
  CollisionCommon.distance_info_map
    (CollisionCommon.getDistanceInfo InfoExamples.keep InfoExamples.unassigned
       InfoExamples.keep {[ "box" := InfoExamples.box_record ]} ∅) !! "box"
  = Some {| CollisionCommon.nearest_obsticle := "link_1";
            CollisionCommon.link_point := (2, 0, 0)%Q;
            CollisionCommon.obsticle_point := (1, 0, 0)%Q;
            CollisionCommon.avoidance_vector :=
              CollisionCommon.vsub (2, 0, 0)%Q (1, 0, 0)%Q;
            CollisionCommon.info_distance := 1%Q |}.
Proof.
  refine (proj2 (getDistanceInfo_orients_entry InfoExamples.keep InfoExamples.keep
                   InfoExamples.unassigned {[ "box" := InfoExamples.box_record ]} ∅
                   "box" InfoExamples.box_record _ _) _ _).
  - vm_compute. reflexivity.
  - reflexivity.
  - vm_compute. discriminate.
  - reflexivity.
Defined.

(** ** [distanceDetailedCallback] over a run *)

Section CallbackRun.
Import CollisionCommon.
Local Open Scope Q_scope.
Variable fcl_distance : FclDistance.
Variable fresh : DistanceResultsData Q.

(** The flags and the request across one call. *)
Record callback_flags (cdata cdata' : DistanceData) : Prop := {
  flags_req : req cdata' = req cdata;
  flags_collision : collision (res cdata) = true → collision (res cdata') = true;
  flags_done : done cdata = true → done cdata' = true;
  flags_per_link : global (req cdata) = false → done cdata' = done cdata;
  flags_global : global (req cdata) = true → distance (res cdata') = distance (res cdata);
  flags_done_collision :
    done cdata' = true → done cdata = true ∨ collision (res cdata') = true;
}.

Lemma callback_flags_refl cdata : callback_flags cdata cdata.
Proof. split; auto. Qed.

Lemma callback_flags_trans c1 c2 c3 :
  callback_flags c1 c2 → callback_flags c2 c3 → callback_flags c1 c3.
Proof.
  intros [Hr1 Hc1 Hd1 Hp1 Hg1 Hdc1] [Hr2 Hc2 Hd2 Hp2 Hg2 Hdc2].
  rewrite Hr1 in Hp2, Hg2. split.
  - congruence.
  - auto.
  - auto.
  - intros Hg. rewrite (Hp2 Hg). auto.
  - intros Hg. rewrite (Hg2 Hg). auto.
  - intros Hd3. destruct (Hdc2 Hd3) as [Hd|Hc]; [|right; exact Hc].
    destruct (Hdc1 Hd) as [Hd'|Hc]; [left; exact Hd' | right; auto].
Qed.

Lemma distanceDetailedCallback_flags o1 o2 cdata :
  callback_flags cdata (distanceDetailedCallback fcl_distance fresh o1 o2 cdata).1.
Proof.
  unfold distanceDetailedCallback.
  destruct (reaches_measurement _ _ _) as [[active1 active2]|]; simpl;
    [|apply callback_flags_refl].
  destruct (Qltb _ _); simpl; [|apply callback_flags_refl].
  destruct (global (req cdata)) eqn:Hglobal; simpl.
  - destruct (Qle_bool _ 0); simpl; split; simpl; auto; congruence.
  - split; simpl; auto.
    + intros ->. rewrite andb_false_r. reflexivity.
    + rewrite Hglobal. discriminate.
Qed.

Lemma broadphase_flags pairs :
  ∀ cdata, callback_flags cdata (broadphase fcl_distance fresh pairs cdata).
Proof.
  induction pairs as [|[o1 o2] rest IH]; intros cdata; simpl.
  - apply callback_flags_refl.
  - pose proof (distanceDetailedCallback_flags o1 o2 cdata) as Hstep.
    destruct (distanceDetailedCallback fcl_distance fresh o1 o2 cdata) as [cdata1 stop].
    simpl in Hstep. destruct stop; [exact Hstep|].
    eapply callback_flags_trans; [exact Hstep | apply IH].
Qed.

(** The filters do not depend on the order of the pair. *)
Definition acm_symmetric (req : DistanceRequest Q) : Prop :=
  ∀ getAllowedCollision, acm req = Some getAllowedCollision →
    ∀ name1 name2, getAllowedCollision name1 name2 = getAllowedCollision name2 name1.

Definition swap_sides (active : bool * bool) : bool * bool := (active.2, active.1).

Lemma sameObject_swap cd1 cd2 : sameObject cd2 cd1 = sameObject cd1 cd2.
Proof. unfold sameObject. apply bool_decide_ext. split; congruence. Qed.

Lemma active_sides_swap req cd1 cd2 :
  active_sides req cd2 cd1 = swap_sides <$> active_sides req cd1 cd2.
Proof.
  unfold active_sides. destruct (active_components_only req) as [set|]; [|reflexivity].
  simpl. destruct (is_active set (owning_link cd1)), (is_active set (owning_link cd2));
    reflexivity.
Qed.

Lemma always_allow_collision_swap req cd1 cd2 :
  acm_symmetric req →
  always_allow_collision req cd2 cd1 = always_allow_collision req cd1 cd2.
Proof.
  intros Hsym. unfold always_allow_collision. f_equal.
  - destruct (acm req) as [m|] eqn:Hacm; [|reflexivity].
    rewrite (Hsym m Hacm). reflexivity.
  - destruct cd1, cd2; reflexivity.
Qed.

Lemma reaches_measurement_swap req cd1 cd2 :
  acm_symmetric req →
  reaches_measurement req cd2 cd1 = swap_sides <$> reaches_measurement req cd1 cd2.
Proof.
  intros Hsym. unfold reaches_measurement.
  rewrite sameObject_swap, active_sides_swap, (always_allow_collision_swap _ _ _ Hsym).
  destruct (sameObject cd1 cd2); [reflexivity|].
  destruct (active_sides req cd1 cd2) as [[a1 a2]|]; simpl; [|reflexivity].
  destruct (always_allow_collision req cd1 cd2); reflexivity.
Qed.

Lemma std_max_comm a b : std_max a b == std_max b a.
Proof.
  unfold std_max. destruct (Qltb a b) eqn:Hab, (Qltb b a) eqn:Hba; try reflexivity.
  - apply Qltb_lt in Hab, Hba. exfalso. apply (Qlt_irrefl a). eapply Qlt_trans; eassumption.
  - apply Qltb_ge in Hab, Hba. apply Qle_antisym; assumption.
Qed.

Lemma select_dist_threshold_swap req res cd1 cd2 active1 active2 :
  select_dist_threshold req res cd2 cd1 active2 active1
  == select_dist_threshold req res cd1 cd2 active1 active2.
Proof.
  unfold select_dist_threshold. destruct (global req); simpl; [reflexivity|].
  destruct (active_components_only req), active1, active2; simpl;
    destruct (distance res !! ptr_obj_id_ cd1), (distance res !! ptr_obj_id_ cd2);
    try reflexivity; apply std_max_comm.
Qed.

(** What one call leaves under a key of the per-link map. *)
Lemma update_same (r : DistanceResultsData Q) : update r r = r.
Proof. unfold update. destruct (Qltb _ _); reflexivity. Qed.

Lemma update_le self r : min_distance (update self r) <= min_distance r.
Proof.
  unfold update. destruct (Qltb _ _) eqn:Hlt; [apply Qle_refl|].
  apply Qltb_ge in Hlt. exact Hlt.
Qed.

Lemma record_side_lookup active it id r (m : gmap string (DistanceResultsData Q)) key e :
  record_side active it id r m !! key = Some e →
  match m !! key with
  | None => active = true ∧ key = id ∧ e = r
  | Some e0 => e = e0 ∨ (active = true ∧ key = id ∧ e = update e0 r)
  end.
Proof.
  unfold record_side. destruct active.
  - destruct it as [e1|].
    + destruct (decide (key = id)) as [->|Hne].
      * rewrite lookup_alter_eq. destruct (m !! id); simpl; [|discriminate].
        intros [= <-]. auto.
      * rewrite lookup_alter_ne by congruence. intros ->. auto.
    + unfold map_insert. destruct (m !! id) eqn:Hid.
      * intros ->. auto.
      * destruct (decide (key = id)) as [->|Hne].
        -- rewrite lookup_insert_eq, Hid. intros [= <-]. auto.
        -- rewrite lookup_insert_ne by congruence. intros ->. auto.
  - intros ->. auto.
Qed.

Lemma record_side_active it id r (m : gmap string (DistanceResultsData Q)) :
  it = m !! id →
  ∃ e, record_side true it id r m !! id = Some e ∧ min_distance e <= min_distance r.
Proof.
  intros ->. unfold record_side. destruct (m !! id) as [e0|] eqn:Hid.
  - exists (update e0 r). rewrite lookup_alter_eq, Hid. split; [reflexivity|].
    apply update_le.
  - exists r. unfold map_insert. rewrite Hid, lookup_insert_eq.
    split; [reflexivity | apply Qle_refl].
Qed.

Lemma is_active_true set l :
  is_active set l = true → ∃ link, l = Some link ∧ link ∈ set.
Proof.
  destruct l as [link|]; simpl; [|discriminate].
  intros H%bool_decide_eq_true_1. eauto.
Qed.

Lemma reaches_measurement_active req cd1 cd2 active1 active2 set :
  reaches_measurement req cd1 cd2 = Some (active1, active2) →
  active_components_only req = Some set →
  active1 = is_active set (owning_link cd1) ∧ active2 = is_active set (owning_link cd2).
Proof.
  unfold reaches_measurement, active_sides. intros H Hset. rewrite Hset in H.
  destruct (sameObject cd1 cd2); [discriminate|].
  destruct (negb _ && negb _); [discriminate|].
  destruct (always_allow_collision req cd1 cd2); [discriminate|].
  injection H as <- <-. auto.
Qed.

End CallbackRun.

(** X19.  [DistanceRequest::enableGroup] always returns; it sets
    [active_components_only] to the updated link set of the group named by
    [group_name], or to null when the model has no such group, and leaves
    every other field of the request alone.  After a missing group the
    callback counts both sides of every pair as active. *)
Theorem enableGroup_sets_the_restriction (req : DistanceRequest Q) (kmodel : RobotModel) :
  ∃ req',
    CollisionCommon.enableGroup req kmodel = Ok req'
    ∧ active_components_only req'
      = getUpdatedLinkModelsWithGeometrySet <$> getJointModelGroup kmodel (group_name req)
    ∧ (detailed req', global req', group_name req', acm req', distance_threshold req',
       verbose req', req_gradient req')
      = (detailed req, global req, group_name req, acm req, distance_threshold req,
         verbose req, req_gradient req)
    ∧ (getJointModelGroup kmodel (group_name req) = None →
       ∀ cd1 cd2, CollisionCommon.active_sides req' cd1 cd2 = Some (true, true)).
Proof.
  unfold CollisionCommon.enableGroup, hasJointModelGroup.
  destruct (getJointModelGroup kmodel (group_name req)) as [group|] eqn:Hgroup.
  - rewrite bool_decide_eq_true_2 by eauto.
    eexists. split; [reflexivity|]. split; [reflexivity|]. split; [reflexivity|].
    discriminate.
  - rewrite bool_decide_eq_false_2 by (intros [? ?]; discriminate).
    eexists. split; [reflexivity|]. split; [reflexivity|]. split; [reflexivity|].
    reflexivity.
Qed.

(** X20.  With a collision matrix that answers the same for (a, b) and
    (b, a), or none, the filters of [distanceDetailedCallback] do not depend
    on the order of the two objects: the pair (o2, o1) is measured exactly
    when (o1, o2) is, with the two activity flags exchanged, and the bound
    handed to [fcl::distance] has the same value. *)
Theorem callback_filters_ignore_pair_order (req : DistanceRequest Q)
    (res : DistanceResult Q) (cd1 cd2 : CollisionCommon.CollisionGeometryData) :
  (∀ getAllowedCollision, acm req = Some getAllowedCollision →
     ∀ name1 name2, getAllowedCollision name1 name2 = getAllowedCollision name2 name1) →
  CollisionCommon.reaches_measurement req cd2 cd1
  = (λ active, (active.2, active.1)) <$> CollisionCommon.reaches_measurement req cd1 cd2
  ∧ ∀ active1 active2,
      (CollisionCommon.select_dist_threshold req res cd2 cd1 active2 active1
       == CollisionCommon.select_dist_threshold req res cd1 cd2 active1 active2)%Q.
Proof.
  intros Hsym. split.
  - exact (reaches_measurement_swap req cd1 cd2 Hsym).
  - intros active1 active2. apply select_dist_threshold_swap.
Qed.

Module OrderExamples.
Import CollisionCommon.
Local Open Scope Q_scope.

(** A matrix with one entry: [link_1] and [link_2] may always touch. *)
Definition neighbours : AllowedCollisionMatrix :=
  λ name1 name2,
    if (String.eqb name1 "link_1" && String.eqb name2 "link_2")
       || (String.eqb name1 "link_2" && String.eqb name2 "link_1")
    then Some AllowedCollision.ALWAYS else None.

Definition request : DistanceRequest Q :=
  {| detailed := true; global := false; group_name := "arm";
     active_components_only := Some ["link_1"]; acm := Some neighbours;
     distance_threshold := 10; verbose := false; req_gradient := false |}.

Lemma neighbours_symmetric name1 name2 : neighbours name1 name2 = neighbours name2 name1.
Proof.
  unfold neighbours.
  destruct (String.eqb name1 "link_1"), (String.eqb name2 "link_2"),
    (String.eqb name1 "link_2"), (String.eqb name2 "link_1"); reflexivity.
Defined.

End OrderExamples.

(** The theorem at the pair ([link_1], [box]) handed over as ([box],
    [link_1]). *)
Lemma callback_filters_ignore_pair_order_witness :
  CollisionCommon.reaches_measurement OrderExamples.request
    (CollisionCommon.WorldObject "box") (CollisionCommon.RobotLink "link_1")
  = Some (false, true).
Proof.
  refine (eq_trans
            (proj1 (callback_filters_ignore_pair_order OrderExamples.request
                      CallbackExamples.both_on_record
                      (CollisionCommon.RobotLink "link_1")
                      (CollisionCommon.WorldObject "box") _)) _).
  - intros getAllowedCollision [= <-]. apply OrderExamples.neighbours_symmetric.
  - vm_compute. reflexivity.
Defined.

(** X21.  Over any run of the callback on the candidate pairs of one
    query: the request is not changed; the collision flag and the done flag
    are never cleared; when per-link reporting is asked for ([global] false)
    the done flag is never set; in global-only mode the per-link map is
    never touched; and the done flag is set only in global-only mode,
    together with the collision flag. *)
Theorem flags_over_a_run (fcl_distance : CollisionCommon.FclDistance)
    (fresh : DistanceResultsData Q)
    (pairs : list (CollisionCommon.CollisionObject * CollisionCommon.CollisionObject))
    (cdata : CollisionCommon.DistanceData) :
  let cdata' := CollisionCommon.broadphase fcl_distance fresh pairs cdata in
  let before := CollisionCommon.res cdata in
  let after := CollisionCommon.res cdata' in
  CollisionCommon.req cdata' = CollisionCommon.req cdata
  ∧ (collision before = true → collision after = true)
  ∧ (CollisionCommon.done cdata = true → CollisionCommon.done cdata' = true)
  ∧ (global (CollisionCommon.req cdata) = false →
     CollisionCommon.done cdata' = CollisionCommon.done cdata)
  ∧ (global (CollisionCommon.req cdata) = true → distance after = distance before)
  ∧ (CollisionCommon.done cdata = false → CollisionCommon.done cdata' = true →
     global (CollisionCommon.req cdata) = true ∧ collision after = true).
Proof.
  intros cdata' before after.
  destruct (broadphase_flags fcl_distance fresh pairs cdata)
    as [Hreq Hcol Hdone Hper Hglobal Hdc].
  fold cdata' in Hreq, Hcol, Hdone, Hper, Hglobal, Hdc.
  split; [exact Hreq|]. split; [exact Hcol|]. split; [exact Hdone|].
  split; [exact Hper|]. split; [exact Hglobal|].
  intros Hd Hd'. split.
  - destruct (global (CollisionCommon.req cdata)) eqn:Hg; [reflexivity|].
    exfalso. rewrite Hper in Hd' by first [exact Hg | reflexivity]. congruence.
  - destruct (Hdc Hd'); [congruence | assumption].
Qed.

(** X22.  For a pair that is measured, with [d] the value
    [fcl::distance] returns and [bound] the bound it was given: the
    collision flag is set afterwards exactly when it was set before or
    [d < bound] and [d <= 0]; in global-only mode the same holds for the
    done flag, in per-link mode the done flag is left as it was; and the
    callback returns the done flag. *)
Theorem flags_after_a_measurement (fcl_distance : CollisionCommon.FclDistance)
    (fresh : DistanceResultsData Q)
    (o1 o2 : CollisionCommon.CollisionObject) (cdata : CollisionCommon.DistanceData)
    (active1 active2 : bool) :
  let cd1 := CollisionCommon.getUserData o1 in
  let cd2 := CollisionCommon.getUserData o2 in
  let bound :=
    CollisionCommon.select_dist_threshold (CollisionCommon.req cdata)
      (CollisionCommon.res cdata) cd1 cd2 active1 active2 in
  let d :=
    CollisionCommon.fcl_returned
      (fcl_distance o1 o2 (detailed (CollisionCommon.req cdata)) bound) in
  let r := CollisionCommon.distanceDetailedCallback fcl_distance fresh o1 o2 cdata in
  CollisionCommon.reaches_measurement (CollisionCommon.req cdata) cd1 cd2
    = Some (active1, active2) →
  (collision (CollisionCommon.res r.1) = true ↔
   collision (CollisionCommon.res cdata) = true ∨ (d < bound ∧ d <= 0)%Q)
  ∧ (global (CollisionCommon.req cdata) = true →
     (CollisionCommon.done r.1 = true ↔
      CollisionCommon.done cdata = true ∨ (d < bound ∧ d <= 0)%Q))
  ∧ (global (CollisionCommon.req cdata) = false →
     CollisionCommon.done r.1 = CollisionCommon.done cdata)
  ∧ r.2 = CollisionCommon.done r.1.
Proof.
  intros cd1 cd2 bound d r Hreach. subst r.
  unfold CollisionCommon.distanceDetailedCallback.
  fold cd1 cd2. rewrite Hreach. fold bound. fold d.
  destruct (CollisionCommon.Qltb d bound) eqn:Hlt.
  - apply Qltb_lt in Hlt.
    destruct (global (CollisionCommon.req cdata)); simpl.
    + destruct (Qle_bool d 0) eqn:Hle; simpl.
      * apply Qle_bool_iff in Hle. repeat split; auto; discriminate.
      * assert (Hnle : ¬ (d <= 0)%Q).
        { intros Hle'. apply Qle_bool_iff in Hle'. congruence. }
        repeat split; auto; try discriminate; intros [?|[_ ?]]; tauto.
    + destruct (Qle_bool d 0) eqn:Hle; simpl.
      * apply Qle_bool_iff in Hle.
        destruct (collision (CollisionCommon.res cdata)); simpl;
          repeat split; auto; discriminate.
      * assert (Hnle : ¬ (d <= 0)%Q).
        { intros Hle'. apply Qle_bool_iff in Hle'. congruence. }
        repeat split; auto; try discriminate; intros [?|[_ ?]]; tauto.
  - apply Qltb_ge in Hlt.
    assert (Hnlt : ¬ (d < bound)%Q) by (apply Qle_not_lt, Hlt).
    simpl. repeat split; auto; try discriminate; intros [?|[? _]]; tauto.
Qed.

Module ContactExamples.
Import CollisionCommon.
Local Open Scope Q_scope.

(** Only the global minimum is asked for. *)
Definition global_request : DistanceRequest Q :=
  {| detailed := true; global := true; group_name := "arm";
     active_components_only := Some ["link_1"]; acm := None;
     distance_threshold := 10; verbose := false; req_gradient := false |}.

Definition nothing_on_record : DistanceResult Q :=
  {| collision := false; minimum_distance := CallbackExamples.fresh; distance := ∅ |}.

(** A measurement that finds the two shapes one unit into each other. *)
Definition fcl_contact : FclDistance :=
  λ _ _ _ _, {| fcl_returned := -1; fcl_min_distance := -1;
                fcl_nearest_points := (CallbackExamples.origin, CallbackExamples.origin) |}.

End ContactExamples.

(** The theorem at a contact found in global-only mode. *)
Lemma flags_after_a_measurement_witness :
  let cdata :=
    {| CollisionCommon.req := ContactExamples.global_request;
       CollisionCommon.res := CallbackExamples.link_on_record;
       CollisionCommon.done := false |} in
  let r :=
    CollisionCommon.distanceDetailedCallback ContactExamples.fcl_contact
      CallbackExamples.fresh CallbackExamples.link_1 CallbackExamples.box cdata in
  collision (CollisionCommon.res r.1) = true
  ∧ CollisionCommon.done r.1 = true
  ∧ r.2 = true.
Proof.
  intros cdata r.
  assert (Hreach :
    CollisionCommon.reaches_measurement (CollisionCommon.req cdata)
      (CollisionCommon.getUserData CallbackExamples.link_1)
      (CollisionCommon.getUserData CallbackExamples.box) = Some (true, false)).
  { vm_compute. reflexivity. }
  destruct (flags_after_a_measurement ContactExamples.fcl_contact CallbackExamples.fresh
              CallbackExamples.link_1 CallbackExamples.box cdata true false Hreach)
    as (Hcollision & Hdone & _ & Hreturn).
  assert (Hcontact :
    (CollisionCommon.fcl_returned
       (ContactExamples.fcl_contact CallbackExamples.link_1 CallbackExamples.box
          (detailed (CollisionCommon.req cdata))
          (CollisionCommon.select_dist_threshold (CollisionCommon.req cdata)
             (CollisionCommon.res cdata)
             (CollisionCommon.getUserData CallbackExamples.link_1)
             (CollisionCommon.getUserData CallbackExamples.box) true false))
     < CollisionCommon.select_dist_threshold (CollisionCommon.req cdata)
         (CollisionCommon.res cdata)
         (CollisionCommon.getUserData CallbackExamples.link_1)
         (CollisionCommon.getUserData CallbackExamples.box) true false
     ∧ CollisionCommon.fcl_returned
         (ContactExamples.fcl_contact CallbackExamples.link_1 CallbackExamples.box
            (detailed (CollisionCommon.req cdata))
            (CollisionCommon.select_dist_threshold (CollisionCommon.req cdata)
               (CollisionCommon.res cdata)
               (CollisionCommon.getUserData CallbackExamples.link_1)
               (CollisionCommon.getUserData CallbackExamples.box) true false))
       <= 0)%Q).
  { split; [vm_compute; reflexivity | vm_compute; discriminate]. }
  assert (Hd : CollisionCommon.done r.1 = true).
  { apply Hdone; [reflexivity | right; exact Hcontact]. }
  split; [apply Hcollision; right; exact Hcontact|].
  split; [exact Hd|]. subst r. rewrite Hreturn. exact Hd.
Defined.

(** X23.  A key that one call of [distanceDetailedCallback] adds to the
    per-link map is the identifier of one of the two bodies of the pair, the
    request asks for per-link reporting, and the entry records the pair and
    the distance [fcl::distance] left in its result.  Under an
    active-components restriction that body is a robot link, or is attached
    to one, which belongs to the restriction; a world object never gets an
    entry of its own. *)
Theorem new_entry_is_an_active_side (fcl_distance : CollisionCommon.FclDistance)
    (fresh : DistanceResultsData Q)
    (o1 o2 : CollisionCommon.CollisionObject) (cdata : CollisionCommon.DistanceData)
    (key : string) (e : DistanceResultsData Q) :
  let cd1 := CollisionCommon.getUserData o1 in
  let cd2 := CollisionCommon.getUserData o2 in
  let cdata' :=
    (CollisionCommon.distanceDetailedCallback fcl_distance fresh o1 o2 cdata).1 in
  distance (CollisionCommon.res cdata) !! key = None →
  distance (CollisionCommon.res cdata') !! key = Some e →
  global (CollisionCommon.req cdata) = false
  ∧ link_name e = (CollisionCommon.ptr_obj_id_ cd1, CollisionCommon.ptr_obj_id_ cd2)
  ∧ (∃ active1 active2,
       CollisionCommon.reaches_measurement (CollisionCommon.req cdata) cd1 cd2
         = Some (active1, active2)
       ∧ min_distance e
         = CollisionCommon.fcl_min_distance
             (fcl_distance o1 o2 (detailed (CollisionCommon.req cdata))
                (CollisionCommon.select_dist_threshold (CollisionCommon.req cdata)
                   (CollisionCommon.res cdata) cd1 cd2 active1 active2)))
  ∧ ∃ cd, (cd = cd1 ∨ cd = cd2)
          ∧ key = CollisionCommon.ptr_obj_id_ cd
          ∧ ∀ set, active_components_only (CollisionCommon.req cdata) = Some set →
                   ∃ link, CollisionCommon.owning_link cd = Some link ∧ link ∈ set.
Proof.
  intros cd1 cd2 cdata' Hbefore Hafter. subst cdata'.
  unfold CollisionCommon.distanceDetailedCallback in Hafter. fold cd1 cd2 in Hafter.
  destruct (CollisionCommon.reaches_measurement _ cd1 cd2) as [[active1 active2]|] eqn:Hreach;
    simpl in Hafter; [|congruence].
  destruct (CollisionCommon.Qltb _ _); simpl in Hafter; [|congruence].
  destruct (global (CollisionCommon.req cdata)); simpl in Hafter.
  { destruct (Qle_bool _ 0); simpl in Hafter; congruence. }
  split; [reflexivity|].
  set (r := {| min_distance := _ |}) in Hafter.
  assert (He : e = r
               ∧ ((active1 = true ∧ key = CollisionCommon.ptr_obj_id_ cd1)
                  ∨ (active2 = true ∧ key = CollisionCommon.ptr_obj_id_ cd2))).
  { apply record_side_lookup in Hafter.
    destruct (CollisionCommon.record_side active1 _ _ r _ !! key) as [e1|] eqn:Hfirst.
    - apply record_side_lookup in Hfirst. rewrite Hbefore in Hfirst.
      destruct Hfirst as (Ha1 & Hkey & ->).
      split; [|left; auto].
      destruct Hafter as [->|(_ & _ & ->)]; [reflexivity | apply update_same].
    - destruct Hafter as (Ha2 & Hkey & ->). auto. }
  destruct He as [-> Hside].
  split; [reflexivity|]. split.
  { exists active1, active2. split; reflexivity. }
  destruct Hside as [[-> ->]|[-> ->]].
  - exists cd1. split; [auto|]. split; [reflexivity|]. intros set Hset.
    destruct (reaches_measurement_active _ _ _ _ _ _ Hreach Hset) as [Ha _].
    apply is_active_true. symmetry. exact Ha.
  - exists cd2. split; [auto|]. split; [reflexivity|]. intros set Hset.
    destruct (reaches_measurement_active _ _ _ _ _ _ Hreach Hset) as [_ Ha].
    apply is_active_true. symmetry. exact Ha.
Qed.

(** The theorem at the first measurement of the pair ([link_1], [box]) with
    nothing on record. *)
Lemma new_entry_is_an_active_side_witness :
  ∃ cd, (cd = CollisionCommon.RobotLink "link_1" ∨ cd = CollisionCommon.WorldObject "box")
        ∧ "link_1" = CollisionCommon.ptr_obj_id_ cd
        ∧ ∀ set, Some ["link_1"] = Some set →
                 ∃ link, CollisionCommon.owning_link cd = Some link ∧ link ∈ set.
Proof.
  refine (proj2 (proj2 (proj2
    (new_entry_is_an_active_side CallbackExamples.fcl_four CallbackExamples.fresh
       CallbackExamples.link_1 CallbackExamples.box
       {| CollisionCommon.req := CallbackExamples.per_link_request;
          CollisionCommon.res := ContactExamples.nothing_on_record;
          CollisionCommon.done := false |}
       "link_1" (CallbackExamples.entry 4 "link_1" "box") _ _)))).
  - reflexivity.
  - vm_compute. reflexivity.
Defined.

(** X24.  In per-link mode, when a measured pair comes out below the
    bound, every active side of the pair has an entry in the per-link map
    afterwards, and the distance of that entry is at most the measured
    one. *)
Theorem active_side_is_recorded (fcl_distance : CollisionCommon.FclDistance)
    (fresh : DistanceResultsData Q)
    (o1 o2 : CollisionCommon.CollisionObject) (cdata : CollisionCommon.DistanceData)
    (active1 active2 : bool) :
  let cd1 := CollisionCommon.getUserData o1 in
  let cd2 := CollisionCommon.getUserData o2 in
  let bound :=
    CollisionCommon.select_dist_threshold (CollisionCommon.req cdata)
      (CollisionCommon.res cdata) cd1 cd2 active1 active2 in
  let fcl_result := fcl_distance o1 o2 (detailed (CollisionCommon.req cdata)) bound in
  let after :=
    CollisionCommon.res
      (CollisionCommon.distanceDetailedCallback fcl_distance fresh o1 o2 cdata).1 in
  CollisionCommon.reaches_measurement (CollisionCommon.req cdata) cd1 cd2
    = Some (active1, active2) →
  global (CollisionCommon.req cdata) = false →
  (CollisionCommon.fcl_returned fcl_result < bound)%Q →
  (active1 = true →
   ∃ e, distance after !! CollisionCommon.ptr_obj_id_ cd1 = Some e
        ∧ (min_distance e <= CollisionCommon.fcl_min_distance fcl_result)%Q)
  ∧ (active2 = true →
     ∃ e, distance after !! CollisionCommon.ptr_obj_id_ cd2 = Some e
          ∧ (min_distance e <= CollisionCommon.fcl_min_distance fcl_result)%Q).
Proof.
  intros cd1 cd2 bound fcl_result after Hreach Hglobal Hlt. subst after.
  unfold CollisionCommon.distanceDetailedCallback.
  fold cd1 cd2. rewrite Hreach. fold bound. fold fcl_result.
  apply Qltb_lt in Hlt. rewrite Hlt, Hglobal. simpl.
  set (r := {| min_distance := _ |}).
  set (m := distance (CollisionCommon.res cdata)).
  change (CollisionCommon.fcl_min_distance fcl_result) with (min_distance r).
  split.
  - intros ->.
    destruct (record_side_active (m !! CollisionCommon.ptr_obj_id_ cd1)
                (CollisionCommon.ptr_obj_id_ cd1) r m eq_refl) as (e1 & He1 & Hle1).
    destruct (record_side_refines active2 (m !! CollisionCommon.ptr_obj_id_ cd2)
                (CollisionCommon.ptr_obj_id_ cd2) r _ _ _ He1) as (e & He & Hr).
    exists e. split; [exact He|].
    eapply Qle_trans; [apply entry_refines_le, Hr | exact Hle1].
  - intros ->.
    set (m1 := CollisionCommon.record_side active1 _ _ r m).
    unfold CollisionCommon.record_side at 1.
    destruct (m !! CollisionCommon.ptr_obj_id_ cd2) as [e0|] eqn:H2.
    + destruct (record_side_refines active1 (m !! CollisionCommon.ptr_obj_id_ cd1)
                  (CollisionCommon.ptr_obj_id_ cd1) r m _ _ H2) as (e1 & He1 & _).
      fold m1 in He1.
      exists (CollisionCommon.update e1 r). rewrite lookup_alter_eq, He1.
      split; [reflexivity | apply update_le].
    + unfold map_insert.
      destruct (m1 !! CollisionCommon.ptr_obj_id_ cd2) as [e1|] eqn:He1.
      * exists e1. split; [exact He1|].
        apply record_side_lookup in He1. rewrite H2 in He1.
        destruct He1 as (_ & _ & ->). apply Qle_refl.
      * exists r. rewrite lookup_insert_eq. split; [reflexivity | apply Qle_refl].
Qed.

(** The theorem at the same measurement. *)
Lemma active_side_is_recorded_witness :
  let after :=
    CollisionCommon.res
      (CollisionCommon.distanceDetailedCallback CallbackExamples.fcl_four
         CallbackExamples.fresh CallbackExamples.link_1 CallbackExamples.box
         {| CollisionCommon.req := CallbackExamples.per_link_request;
            CollisionCommon.res := ContactExamples.nothing_on_record;
            CollisionCommon.done := false |}).1 in
  ∃ e, distance after !! "link_1" = Some e ∧ (min_distance e <= 4)%Q.
Proof.
  refine (proj1
    (active_side_is_recorded CallbackExamples.fcl_four CallbackExamples.fresh
       CallbackExamples.link_1 CallbackExamples.box
       {| CollisionCommon.req := CallbackExamples.per_link_request;
          CollisionCommon.res := ContactExamples.nothing_on_record;
          CollisionCommon.done := false |} true false _ _ _) _).
  - vm_compute. reflexivity.
  - reflexivity.
  - vm_compute. reflexivity.
  - reflexivity.
Defined.
